(** * Shallow embedding of stevenarella's [world] module (src/world/mod.rs)

    The storage core: bit-packed palette indices, palette-compressed
    [Section]s, [Chunk] columns of 16 optional sections, the [World] map
    from column positions to chunks, snapshots and the column loader.

    Conventions of the embedding:
    - Rust [i32]/[usize] arithmetic is modelled on [Z]/[nat]; the shifts and
      masks are written with [Z.shiftr], [Z.shiftl], [Z.land], [Z.lor].
    - A Rust panic (a missing [HashMap] key, an [Option::unwrap] on [None],
      an out-of-range read of a [Vec]) is [None] in the [option] monad.
    - The [u32] reference counts of the palette wrap modulo 2^32. *)

From Stdlib Require Import ZArith Lia.
From stdpp Require Import base gmap list options.

Local Open Scope nat_scope.

(** ** Block values *)

(** Modelled from the spec: [block::Block] (the block registry module
    [world/block] is not part of src/).  An opaque comparable value with
    the two reserved sentinels "empty/air" and "missing"; every other
    variant is a domain block, identified here by its number. *)
Inductive Block : Type :=
| Air
| Missing
| Other (id : nat).

#[global] Instance Block_eq_dec : EqDecision Block.
Proof. solve_decision. Defined.

(** Modelled from the spec: the registry's stable numeric id of a block
    ([get_steven_id]) and its inverse ([by_steven_id]). *)
Definition get_steven_id (b : Block) : nat :=
  match b with
  | Air => 0
  | Missing => 1
  | Other n => S (S n)
  end.

Definition by_steven_id (n : nat) : Block :=
  match n with
  | 0 => Air
  | 1 => Missing
  | S (S k) => Other k
  end.

#[global] Instance Block_countable : Countable Block.
Proof.
  apply (inj_countable' get_steven_id by_steven_id). by intros [| |].
Defined.

(** Modelled from the spec: [Block::by_vanilla_id], the registry lookup of a
    wire-format global id; unknown ids resolve to the "missing" sentinel. *)
Definition vanilla_id_limit : Z := 65536.

Definition by_vanilla_id (id : Z) : Block :=
  if Z.eqb id 0 then Air
  else if Z.ltb id vanilla_id_limit then Other (Z.to_nat id)
  else Missing.

(** ** Bit-packed array *)

(** Modelled from the spec: [types::bit::Map] (src/types/bit.rs is not part
    of src/).  Its contract (spec 4.1): a fixed-length sequence of
    [bit_size]-bit unsigned values; [get] reads the decoded value (a read
    out of range panics), [set] stores a value under the current width (only
    the low [bit_size] bits are kept), [resize] copies every decoded value
    into a map of the new width. *)
Record BitMap : Type := mkBitMap {
  bit_size : nat;
  bm_data : list nat
}.

Definition bitmap_new (len size : nat) : BitMap :=
  mkBitMap size (repeat 0 len).

Definition bitmap_get (m : BitMap) (i : nat) : option nat :=
  bm_data m !! i.

Definition bitmap_set (m : BitMap) (i v : nat) : BitMap :=
  mkBitMap (bit_size m) (<[i := v mod 2 ^ bit_size m]> (bm_data m)).

Definition bitmap_resize (m : BitMap) (size : nat) : BitMap :=
  mkBitMap size (map (fun v => v mod 2 ^ size) (bm_data m)).

(** ** Nibble array *)

(** Modelled from the spec: [types::nibble::Array] (src/types/nibble.rs is
    not part of src/): 4-bit values packed two per byte in [data], the even
    index in the low nibble. *)
Record NibbleArray : Type := mkNibble {
  nib_data : list Z
}.

Definition nibble_new (size : nat) : NibbleArray :=
  mkNibble (repeat 0%Z (Nat.div2 (size + 1))).

Definition nibble_get (a : NibbleArray) (i : nat) : option Z :=
  v ← nib_data a !! Nat.div2 i;
  Some (if Nat.even i then Z.land v 15 else Z.shiftr v 4).

Definition nibble_set (a : NibbleArray) (i : nat) (v : Z) : NibbleArray :=
  match nib_data a !! Nat.div2 i with
  | Some old =>
      mkNibble (<[Nat.div2 i :=
        if Nat.even i then Z.lor (Z.land old 240) (Z.land v 15)
        else Z.lor (Z.land old 15) (Z.shiftl (Z.land v 15) 4)]> (nib_data a))
  | None => a
  end.

(** ** Section *)

Record Section : Type := mkSection {
  sec_key : Z * Z * Z;
  sec_y : Z;
  sec_blocks : BitMap;
  sec_block_map : list (Block * Z);
  sec_rev_block_map : gmap Block nat;
  sec_block_light : NibbleArray;
  sec_sky_light : NibbleArray;
  sec_dirty : bool;
  sec_building : bool
}.

Definition u32_max : Z := 4294967295.

(** [u32] arithmetic of the reference counts. *)
Definition wrap32 (v : Z) : Z := (v mod 2 ^ 32)%Z.

Definition section_new (x : Z) (y : Z) (z : Z) : Section :=
  mkSection (x, y, z) y
    (bitmap_new 4096 4)
    [(Air, u32_max)]
    (<[Air := 0]> ∅)
    (nibble_new (16 * 16 * 16))
    (fold_left (fun a i => nibble_set a i 15) (seq 0 (16 * 16 * 16))
       (nibble_new (16 * 16 * 16)))
    false false.

(** [(y << 8) | (z << 4) | x] *)
Definition sec_index (x y z : Z) : nat :=
  Z.to_nat (Z.lor (Z.lor (Z.shiftl y 8) (Z.shiftl z 4)) x).

Definition section_get_block (s : Section) (x y z : Z) : option Block :=
  idx ← bitmap_get (sec_blocks s) (sec_index x y z);
  info ← sec_block_map s !! idx;
  Some info.1.

(** The [for (i, info) in block_map.iter_mut().enumerate()] search for the
    first palette slot whose reference count is zero. *)
Fixpoint find_free (bm : list (Block * Z)) : option nat :=
  match bm with
  | [] => None
  | (_, c) :: t => if Z.eqb c 0 then Some 0 else S <$> find_free t
  end.

(** [if !self.rev_block_map.contains_key(&b) { ... }]: give [b] a palette
    slot, reusing the first free slot or appending one (after doubling the
    width of the packed array when the palette is full). *)
Definition palette_alloc (bm : list (Block * Z)) (rev : gmap Block nat)
    (blocks : BitMap) (b : Block) : list (Block * Z) * gmap Block nat * BitMap :=
  match rev !! b with
  | Some _ => (bm, rev, blocks)
  | None =>
      match find_free bm with
      | Some i => (alter (fun info => (b, info.2)) i bm, <[b := i]> rev, blocks)
      | None =>
          let blocks1 :=
            if decide (2 ^ bit_size blocks <= length bm)
            then bitmap_resize blocks (bit_size blocks * 2)
            else blocks in
          (bm ++ [(b, 0%Z)], <[b := length bm]> rev, blocks1)
      end
  end.

Definition section_set_block (s : Section) (x y z : Z) (b : Block)
    : option Section :=
  old ← section_get_block s x y z;
  if decide (old = b) then Some s else
  (* Clean up old block *)
  idx ← sec_rev_block_map s !! old;
  info ← sec_block_map s !! idx;
  let cnt := wrap32 (info.2 - 1) in
  let bm1 := <[idx := (info.1, cnt)]> (sec_block_map s) in
  let rev1 :=
    if Z.eqb cnt 0 then delete old (sec_rev_block_map s)
    else sec_rev_block_map s in
  let '(bm2, rev2, blocks2) := palette_alloc bm1 rev1 (sec_blocks s) b in
  idx2 ← rev2 !! b;
  info2 ← bm2 !! idx2;
  let bm3 := <[idx2 := (info2.1, wrap32 (info2.2 + 1))]> bm2 in
  Some (mkSection (sec_key s) (sec_y s)
          (bitmap_set blocks2 (sec_index x y z) idx2) bm3 rev2
          (sec_block_light s) (sec_sky_light s) true (sec_building s)).

Definition section_get_block_light (s : Section) (x y z : Z) : option Z :=
  nibble_get (sec_block_light s) (sec_index x y z).

Definition section_get_sky_light (s : Section) (x y z : Z) : option Z :=
  nibble_get (sec_sky_light s) (sec_index x y z).

Definition section_set_block_light (s : Section) (x y z : Z) (l : Z) : Section :=
  mkSection (sec_key s) (sec_y s) (sec_blocks s) (sec_block_map s)
    (sec_rev_block_map s) (nibble_set (sec_block_light s) (sec_index x y z) l)
    (sec_sky_light s) (sec_dirty s) (sec_building s).

Definition section_set_sky_light (s : Section) (x y z : Z) (l : Z) : Section :=
  mkSection (sec_key s) (sec_y s) (sec_blocks s) (sec_block_map s)
    (sec_rev_block_map s) (sec_block_light s)
    (nibble_set (sec_sky_light s) (sec_index x y z) l) (sec_dirty s) (sec_building s).

Definition section_set_flags (s : Section) (dirty building : bool) : Section :=
  mkSection (sec_key s) (sec_y s) (sec_blocks s) (sec_block_map s)
    (sec_rev_block_map s) (sec_block_light s) (sec_sky_light s) dirty building.

Definition section_set_lights (s : Section) (bl sl : NibbleArray) : Section :=
  mkSection (sec_key s) (sec_y s) (sec_blocks s) (sec_block_map s)
    (sec_rev_block_map s) bl sl (sec_dirty s) (sec_building s).

(** ** Chunk (column) *)

Record Chunk : Type := mkChunk {
  chunk_position : Z * Z;
  chunk_sections : list (option Section);
  chunk_biomes : list Z
}.

Definition chunk_new (pos : Z * Z) : Chunk :=
  mkChunk pos (repeat None 16) (repeat 0%Z (16 * 16)).

Definition chunk_set_section (c : Chunk) (i : nat) (s : option Section) : Chunk :=
  mkChunk (chunk_position c) (<[i := s]> (chunk_sections c)) (chunk_biomes c).

(** [s_idx < 0 || s_idx > 15] *)
Definition slot_out_of_range (s_idx : Z) : bool :=
  Z.ltb s_idx 0 || Z.ltb 15 s_idx.

Definition chunk_set_block (c : Chunk) (x y z : Z) (b : Block) : option Chunk :=
  let s_idx := Z.shiftr y 4 in
  if slot_out_of_range s_idx then Some c else
  let i := Z.to_nat s_idx in
  sec ← match chunk_sections c !! i with
        | Some (Some sec) => Some (Some sec)
        | Some None =>
            match b with
            | Air => Some None
            | _ => Some (Some (section_new (fst (chunk_position c)) s_idx
                                 (snd (chunk_position c))))
            end
        | None => None
        end;
  match sec with
  | None => Some c
  | Some sec =>
      sec' ← section_set_block sec x (Z.land y 15) z b;
      Some (chunk_set_section c i (Some sec'))
  end.

Definition chunk_get_block (c : Chunk) (x y z : Z) : option Block :=
  let s_idx := Z.shiftr y 4 in
  if slot_out_of_range s_idx then Some Missing else
  match chunk_sections c !! Z.to_nat s_idx with
  | Some (Some sec) => section_get_block sec x (Z.land y 15) z
  | Some None => Some Air
  | None => None
  end.

(** ** World *)

Abbreviation World := (gmap (Z * Z) Chunk).

Definition world_new : World := ∅.

Definition is_chunk_loaded (w : World) (x z : Z) : bool :=
  bool_decide (is_Some (w !! (x, z))).

Definition world_set_block (w : World) (x y z : Z) (b : Block) : option World :=
  let cpos := (Z.shiftr x 4, Z.shiftr z 4) in
  let w1 := match w !! cpos with
            | Some _ => w
            | None => <[cpos := chunk_new cpos]> w
            end in
  chunk ← w1 !! cpos;
  chunk' ← chunk_set_block chunk (Z.land x 15) y (Z.land z 15) b;
  Some (<[cpos := chunk']> w1).

Definition world_get_block (w : World) (x y z : Z) : option Block :=
  match w !! (Z.shiftr x 4, Z.shiftr z 4) with
  | Some chunk => chunk_get_block chunk (Z.land x 15) y (Z.land z 15)
  | None => Some Missing
  end.

(** One entry of [get_dirty_chunk_sections]:
    [(chunk.position.0, sec.y, chunk.position.1, sec.key)]. *)
Definition dirty_entries_of_chunk (c : Chunk) : list (Z * Z * Z * (Z * Z * Z)) :=
  flat_map (fun os =>
    match os with
    | Some sec =>
        if negb (sec_building sec) && sec_dirty sec
        then [(fst (chunk_position c), sec_y sec, snd (chunk_position c), sec_key sec)]
        else []
    | None => []
    end) (chunk_sections c).

(** The iteration order of the [HashMap] is unspecified; the model takes
    the order of [map_to_list]. *)
Definition get_dirty_chunk_sections (w : World) : list (Z * Z * Z * (Z * Z * Z)) :=
  flat_map (fun kc => dirty_entries_of_chunk kc.2) (map_to_list w).

(** [chunk.sections[pos.1 as usize]]: an index outside [0,16) panics. *)
Definition update_section (w : World) (pos : Z * Z * Z) (f : Section -> Section)
    : option World :=
  let '(px, py, pz) := pos in
  match w !! (px, pz) with
  | Some chunk =>
      if slot_out_of_range py then None else
      match chunk_sections chunk !! Z.to_nat py with
      | Some (Some sec) =>
          Some (<[(px, pz) := chunk_set_section chunk (Z.to_nat py) (Some (f sec))]> w)
      | Some None => Some w
      | None => None
      end
  | None => Some w
  end.

Definition set_building_flag (w : World) (pos : Z * Z * Z) : option World :=
  update_section w pos (fun sec => section_set_flags sec false true).

Definition reset_building_flag (w : World) (pos : Z * Z * Z) : option World :=
  update_section w pos (fun sec => section_set_flags sec (sec_dirty sec) false).

Definition chunk_flag_dirty_all (c : Chunk) : Chunk :=
  mkChunk (chunk_position c)
    (map (fun os => sec ← os; Some (section_set_flags sec true (sec_building sec)))
       (chunk_sections c))
    (chunk_biomes c).

Definition flag_dirty_all (w : World) : World := chunk_flag_dirty_all <$> w.

Definition unload_chunk (w : World) (x z : Z) : World := delete (x, z) w.

Definition flag_section_dirty (w : World) (x y z : Z) : World :=
  if slot_out_of_range y then w else
  match w !! (x, z) with
  | Some chunk =>
      match chunk_sections chunk !! Z.to_nat y with
      | Some (Some sec) =>
          <[(x, z) := chunk_set_section chunk (Z.to_nat y)
                        (Some (section_set_flags sec true (sec_building sec)))]> w
      | _ => w
      end
  | None => w
  end.

(** ** [FNVHash], the hasher of the palette's reverse map *)




(** ** Wire decoding *)

(** Modelled from the spec: the [protocol] module (src/protocol is not part
    of src/) and [std::io] on a [Cursor<Vec<u8>>]: reads consume the
    remaining bytes of the cursor; a short read is [UnexpectedEof]. *)
Inductive Error : Type :=
| UnexpectedEof
| VarIntTooBig.

Definition byte_val (b : Byte.byte) : Z := Z.of_N (Byte.to_N b).

Definition read_u8 (c : list Byte.byte) : (Z * list Byte.byte) + Error :=
  match c with
  | [] => inr UnexpectedEof
  | b :: c' => inl (byte_val b, c')
  end.

(** [VarInt::read_from]: 7-bit groups, low group first, at most 5 bytes;
    the accumulated [u32] is reinterpreted as an [i32]. *)
Fixpoint varint_loop (fuel size : nat) (val : Z) (c : list Byte.byte)
    : (Z * list Byte.byte) + Error :=
  match fuel with
  | 0 => inr VarIntTooBig
  | S f =>
      match read_u8 c with
      | inr e => inr e
      | inl (b, c') =>
          let val' := Z.lor val (Z.shiftl (Z.land b 127) (Z.of_nat (7 * size))) in
          if Nat.ltb 5 (S size) then inr VarIntTooBig
          else if Z.eqb (Z.land b 128) 0 then inl (val', c')
          else varint_loop f (S size) val' c'
      end
  end.

Definition i32_of_u32 (v : Z) : Z :=
  let v := (v mod 2 ^ 32)%Z in if Z.ltb v (2 ^ 31) then v else (v - 2 ^ 32)%Z.

Definition read_varint (c : list Byte.byte) : (Z * list Byte.byte) + Error :=
  match varint_loop 6 0 0 c with
  | inl (v, c') => inl (i32_of_u32 v, c')
  | inr e => inr e
  end.

(** [u64::read_from]: eight bytes, big-endian. *)
Definition read_u64 (c : list Byte.byte) : (Z * list Byte.byte) + Error :=
  if Nat.ltb (length c) 8 then inr UnexpectedEof
  else inl (fold_left (fun acc b => acc * 256 + byte_val b)%Z (take 8 c) 0%Z,
            drop 8 c).

(** The [for _ in 0..len] loop of [LenPrefixed::read_from]; every
    iteration consumes bytes, so [fuel = length c] never runs out first. *)
Fixpoint read_u64s (fuel : nat) (len : Z) (c : list Byte.byte)
    : (list Z * list Byte.byte) + Error :=
  if Z.leb len 0 then inl ([], c) else
  match fuel with
  | 0 => inr UnexpectedEof
  | S f =>
      match read_u64 c with
      | inr e => inr e
      | inl (v, c') =>
          match read_u64s f (len - 1) c' with
          | inr e => inr e
          | inl (vs, c'') => inl (v :: vs, c'')
          end
      end
  end.

(** [LenPrefixed::<VarInt, u64>::read_from]; the length is the [VarInt] as
    [usize]. *)
Definition read_lenprefixed_u64 (c : list Byte.byte)
    : (list Z * list Byte.byte) + Error :=
  match read_varint c with
  | inr e => inr e
  | inl (len, c') => read_u64s (length c') (len mod 2 ^ 64) c'
  end.

(** [Read::read_exact] into a buffer: on a short read the available bytes
    are copied to the front of the buffer and the call fails. *)
Definition read_exact (buf : list Z) (c : list Byte.byte)
    : list Z * list Byte.byte * option Error :=
  let n := length buf in
  if Nat.leb n (length c) then (map byte_val (take n c), drop n c, None)
  else (map byte_val c ++ drop (length c) buf, [], Some UnexpectedEof).

(** Modelled from the spec: [bit::Map::from_raw(bits, size)], the packed
    words read as one little-endian bit stream (word [k] holds bits
    [64k .. 64k+63]); value [i] is bits [i*size .. i*size+size-1].  A value
    that does not lie wholly inside the words is out of range (its [get]
    panics), and so is every value of a width outside [1,63]. *)
Definition bit_stream (words : list Z) : Z :=
  fold_right (fun w acc => Z.lor w (Z.shiftl acc 64)) 0%Z words.

Definition bitmap_from_raw (words : list Z) (size : Z) : BitMap :=
  let n := if Z.leb 1 size && Z.ltb size 64
           then Z.to_nat (64 * Z.of_nat (length words) / size) else 0 in
  let st := bit_stream words in
  mkBitMap (Z.to_nat size)
    (map (fun i => Z.to_nat (Z.land (Z.shiftr st (Z.of_nat i * size)) (2 ^ size - 1)))
       (seq 0 n)).

(** The [for i in 0 .. count] loop reading the local palette. *)
Fixpoint read_palette_entries (fuel i : nat) (count : Z) (m : gmap nat Z)
    (c : list Byte.byte) : (gmap nat Z * list Byte.byte) + Error :=
  if Z.leb count (Z.of_nat i) then inl (m, c) else
  match fuel with
  | 0 => inr UnexpectedEof
  | S f =>
      match read_varint c with
      | inr e => inr e
      | inl (id, c') => read_palette_entries f (S i) count (<[i := id]> m) c'
      end
  end.

Definition read_palette (c : list Byte.byte)
    : (gmap nat Z * list Byte.byte) + Error :=
  match read_varint c with
  | inr e => inr e
  | inl (count, c') => read_palette_entries (length c') 0 count ∅ c'
  end.

(** The [for i in 0 .. 4096] loop writing the decoded cells. *)
Definition fill_cell (m : BitMap) (block_map : gmap nat Z) (sec : Section) (i : nat)
    : option Section :=
  val ← bitmap_get m i;
  let block_id := match block_map !! val with
                  | Some v => (v mod 2 ^ 64)%Z
                  | None => Z.of_nat val
                  end in
  let block := by_vanilla_id block_id in
  let i := Z.of_nat i in
  section_set_block sec (Z.land i 15) (Z.shiftr i 8) (Z.land (Z.shiftr i 4) 15) block.

(** A [for] loop whose body may panic. *)
Definition fold_opt {A S : Type} (f : S -> A -> option S) (l : list A) (s : S)
    : option S :=
  fold_left (fun acc a => s ← acc; f s a) l (Some s).

Definition fill_section (m : BitMap) (block_map : gmap nat Z) (sec : Section)
    : option Section :=
  fold_opt (fill_cell m block_map) (seq 0 4096) sec.

(** Outcome of a decoding step that mutates in place: the state reached,
    with the rest of the cursor or with the error that stopped it. *)
Inductive load_res (A : Type) : Type :=
| LOk (a : A) (c : list Byte.byte)
| LErr (a : A) (e : Error)
| LPanic.
Arguments LOk {A}.
Arguments LErr {A}.
Arguments LPanic {A}.

(** The body of the slot loop of [load_chunk] for one selected slot. *)
Definition load_section (sec : Section) (data : list Byte.byte) : load_res Section :=
  let sec := section_set_flags sec true (sec_building sec) in
  match read_u8 data with
  | inr e => LErr sec e
  | inl (bit_size, data) =>
      match (if Z.leb bit_size 8 then read_palette data else inl (∅, data)) with
      | inr e => LErr sec e
      | inl (block_map, data) =>
          match read_lenprefixed_u64 data with
          | inr e => LErr sec e
          | inl (bits, data) =>
              let m := bitmap_from_raw bits bit_size in
              match fill_section m block_map sec with
              | None => LPanic
              | Some sec =>
                  let '(bl, data, r) := read_exact (nib_data (sec_block_light sec)) data in
                  let sec := section_set_lights sec (mkNibble bl) (sec_sky_light sec) in
                  match r with
                  | Some e => LErr sec e
                  | None =>
                      let '(sl, data, r) := read_exact (nib_data (sec_sky_light sec)) data in
                      let sec := section_set_lights sec (sec_block_light sec) (mkNibble sl) in
                      match r with
                      | Some e => LErr sec e
                      | None => LOk sec data
                      end
                  end
              end
          end
      end
  end.

Definition mask_bit (mask : Z) (i : nat) : bool :=
  negb (Z.eqb (Z.land mask (Z.shiftl 1 (Z.of_nat i))) 0).

(** [for i in 0 .. 16] over the slots of the column, in ascending order. *)
Fixpoint load_sections (x z mask : Z) (slots : list nat) (c : Chunk)
    (data : list Byte.byte) : load_res Chunk :=
  match slots with
  | [] => LOk c data
  | i :: rest =>
      if negb (mask_bit mask i) then load_sections x z mask rest c data else
      match chunk_sections c !! i with
      | None => LPanic
      | Some os =>
          let sec := match os with
                     | Some sec => sec
                     | None => section_new x (Z.of_nat i) z
                     end in
          match load_section sec data with
          | LOk sec' data' =>
              load_sections x z mask rest (chunk_set_section c i (Some sec')) data'
          | LErr sec' e => LErr (chunk_set_section c i (Some sec')) e
          | LPanic => LPanic
          end
      end
  end.

Definition neighbours : list (Z * Z * Z) :=
  [(-1, 0, 0); (1, 0, 0); (0, -1, 0); (0, 1, 0); (0, 0, -1); (0, 0, 1)]%Z.

Definition flag_neighbours (w : World) (x z mask : Z) : World :=
  fold_left (fun w i =>
    if negb (mask_bit mask i) then w else
    fold_left (fun w '(dx, dy, dz) =>
      flag_section_dirty w (x + dx) (Z.of_nat i + dy) (z + dz))%Z neighbours w)
    (seq 0 16) w.

Inductive LoadResult : Type :=
| LoadOk
| LoadErr (e : Error).

Definition load_chunk (w : World) (x z : Z) (new : bool) (mask : Z)
    (data : list Byte.byte) : option (World * LoadResult) :=
  let cpos := (x, z) in
  let start := if new then Some (<[cpos := chunk_new cpos]> w) else
               match w !! cpos with Some _ => Some w | None => None end in
  match start with
  | None => Some (w, LoadOk)
  | Some w1 =>
      match w1 !! cpos with
      | None => None
      | Some chunk =>
          match load_sections x z mask (seq 0 16) chunk data with
          | LPanic => None
          | LErr chunk' e => Some (<[cpos := chunk']> w1, LoadErr e)
          | LOk chunk' _ =>
              Some (flag_neighbours (<[cpos := chunk']> w1) x z mask, LoadOk)
          end
      end
  end.

(** ** Snapshot *)

Record Snapshot : Type := mkSnapshot {
  snap_blocks : list nat;
  snap_block_light : NibbleArray;
  snap_sky_light : NibbleArray;
  snap_biomes : list Z;
  snap_x : Z; snap_y : Z; snap_z : Z;
  snap_w : Z; snap_h : Z; snap_d : Z
}.

Definition snapshot_index (s : Snapshot) (x y z : Z) : nat :=
  Z.to_nat ((x - snap_x s) + (z - snap_z s) * snap_w s
            + (y - snap_y s) * snap_w s * snap_d s).

Definition snap_with (s : Snapshot) (blocks : list nat) (bl sl : NibbleArray) : Snapshot :=
  mkSnapshot blocks bl sl (snap_biomes s) (snap_x s) (snap_y s) (snap_z s)
    (snap_w s) (snap_h s) (snap_d s).

Definition snapshot_make_relative (s : Snapshot) (x y z : Z) : Snapshot :=
  mkSnapshot (snap_blocks s) (snap_block_light s) (snap_sky_light s)
    (snap_biomes s) x y z (snap_w s) (snap_h s) (snap_d s).

Definition snapshot_get_block (s : Snapshot) (x y z : Z) : option Block :=
  id ← snap_blocks s !! snapshot_index s x y z;
  Some (by_steven_id id).

(** [self.blocks[idx] = b.get_steven_id() as u16] *)
Definition snapshot_set_block (s : Snapshot) (x y z : Z) (b : Block) : Snapshot :=
  snap_with s (<[snapshot_index s x y z := get_steven_id b mod 2 ^ 16]> (snap_blocks s))
    (snap_block_light s) (snap_sky_light s).

Definition snapshot_get_block_light (s : Snapshot) (x y z : Z) : option Z :=
  nibble_get (snap_block_light s) (snapshot_index s x y z).

Definition snapshot_set_block_light (s : Snapshot) (x y z : Z) (l : Z) : Snapshot :=
  snap_with s (snap_blocks s)
    (nibble_set (snap_block_light s) (snapshot_index s x y z) l) (snap_sky_light s).

Definition snapshot_get_sky_light (s : Snapshot) (x y z : Z) : option Z :=
  nibble_get (snap_sky_light s) (snapshot_index s x y z).

Definition snapshot_set_sky_light (s : Snapshot) (x y z : Z) (l : Z) : Snapshot :=
  snap_with s (snap_blocks s) (snap_block_light s)
    (nibble_set (snap_sky_light s) (snapshot_index s x y z) l).

(** The Rust range [a .. b] over [i32]. *)
Definition zrange (a b : Z) : list Z :=
  map (fun n => a + Z.of_nat n)%Z (seq 0 (Z.to_nat (b - a))).

(** [for i in 0 .. (w * h * d)]: full sky light, "missing" block. *)
Definition snapshot_fill_defaults (s : Snapshot) (n : nat) : Snapshot :=
  fold_left (fun s i =>
    snap_with s (<[i := get_steven_id Missing mod 2 ^ 16]> (snap_blocks s))
      (snap_block_light s) (nibble_set (snap_sky_light s) i 15)) (seq 0 n) s.

(** The innermost body: copy one cell from a section, or write air. *)
Definition capture_cell (section : option Section) (cx cy cz yy zz : Z)
    (snap : Snapshot) (xx : Z) : option Snapshot :=
  let ox := (xx + Z.shiftl cx 4)%Z in
  let oy := (yy + Z.shiftl cy 4)%Z in
  let oz := (zz + Z.shiftl cz 4)%Z in
  match section with
  | Some sec =>
      b ← section_get_block sec xx yy zz;
      bl ← section_get_block_light sec xx yy zz;
      sl ← section_get_sky_light sec xx yy zz;
      Some (snapshot_set_sky_light
              (snapshot_set_block_light (snapshot_set_block snap ox oy oz b) ox oy oz bl)
              ox oy oz sl)
  | None => Some (snapshot_set_block snap ox oy oz Air)
  end.

Definition capture_slot (chunk : Chunk) (x y z w h d cx cz : Z)
    (snap : Snapshot) (cy : Z) : option Snapshot :=
  if slot_out_of_range cy then Some snap else
  section ← chunk_sections chunk !! Z.to_nat cy;
  let x1 := Z.min 16 (Z.max 0 (x - Z.shiftl cx 4)) in
  let x2 := Z.min 16 (Z.max 0 (x + w - Z.shiftl cx 4)) in
  let z1 := Z.min 16 (Z.max 0 (z - Z.shiftl cz 4)) in
  let z2 := Z.min 16 (Z.max 0 (z + d - Z.shiftl cz 4)) in
  let y1 := Z.min 16 (Z.max 0 (y - Z.shiftl cy 4)) in
  let y2 := Z.min 16 (Z.max 0 (y + h - Z.shiftl cy 4)) in
  fold_opt (fun snap yy =>
    fold_opt (fun snap zz =>
      fold_opt (capture_cell section cx cy cz yy zz) (zrange x1 x2) snap)
      (zrange z1 z2) snap)
    (zrange y1 y2) snap.

Definition capture_snapshot (wd : World) (x y z w h d : Z) : option Snapshot :=
  let n := Z.to_nat (w * h * d) in
  let snapshot :=
    mkSnapshot (repeat 0 n) (nibble_new n) (nibble_new n)
      (repeat 0%Z (Z.to_nat (w * d))) x y z w h d in
  let snapshot := snapshot_fill_defaults snapshot n in
  let cx1 := Z.shiftr x 4 in
  let cy1 := Z.shiftr y 4 in
  let cz1 := Z.shiftr z 4 in
  let cx2 := Z.shiftr (x + w + 15) 4 in
  let cy2 := Z.shiftr (y + h + 15) 4 in
  let cz2 := Z.shiftr (z + d + 15) 4 in
  fold_opt (fun snap cx =>
    fold_opt (fun snap cz =>
      match wd !! (cx, cz) with
      | None => Some snap
      | Some chunk =>
          fold_opt (capture_slot chunk x y z w h d cx cz) (zrange cy1 cy2) snap
      end) (zrange cz1 cz2) snap)
    (zrange cx1 cx2) snapshot.

Definition be_word (v : Z) : list Byte.byte :=
  map (fun k => match Byte.of_N (Z.to_N (Z.land (Z.shiftr v (8 * k)) 255)) with
                | Some b => b | None => Byte.x00 end) [7; 6; 5; 4; 3; 2; 1; 0]%Z.

Definition demo_slot : list Byte.byte :=
  [Byte.x04; Byte.x02; Byte.x00; Byte.x01; Byte.x80; Byte.x02]
  ++ be_word 1 ++ repeat Byte.x00 (255 * 8)
  ++ repeat Byte.x00 2048 ++ repeat Byte.xff 2048.

(** ** Invariants *)

Definition in16 (v : Z) : Prop := (0 <= v < 16)%Z.

(** Number of cells of a packed array that hold palette index [i]. *)
Fixpoint occ (i : nat) (l : list nat) : nat :=
  match l with
  | [] => 0
  | v :: t => (if Nat.eqb v i then 1 else 0) + occ i t
  end.

(** Palette slot 0 holds air with the sentinel count [0xFFFFFFFF]: its count
    exceeds the number of cells pointing at it by [0xFFFFFFFF - 4096]. *)
Definition count_offset (i : nat) : Z :=
  if Nat.eqb i 0 then (u32_max - 4096)%Z else 0%Z.

Definition live (bm : list (Block * Z)) (b : Block) (i : nat) : Prop :=
  exists c, bm !! i = Some (b, c) /\ (0 < c)%Z.

Record sec_inv (s : Section) : Prop := {
  inv_len : length (bm_data (sec_blocks s)) = 4096;
  inv_data_lt : forall k v, bm_data (sec_blocks s) !! k = Some v ->
                  v < length (sec_block_map s);
  inv_bs_pos : 1 <= bit_size (sec_blocks s);
  inv_fits : length (sec_block_map s) <= 2 ^ bit_size (sec_blocks s);
  inv_air : exists c, sec_block_map s !! 0 = Some (Air, c);
  inv_counts : forall i e, sec_block_map s !! i = Some e ->
                 e.2 = (Z.of_nat (occ i (bm_data (sec_blocks s))) + count_offset i)%Z;
  inv_rev : forall b i, sec_rev_block_map s !! b = Some i <-> live (sec_block_map s) b i;
  inv_light : length (nib_data (sec_block_light s)) = 2048 /\
              length (nib_data (sec_sky_light s)) = 2048
}.

Definition chunk_wf (pos : Z * Z) (c : Chunk) : Prop :=
  chunk_position c = pos /\ length (chunk_sections c) = 16 /\
  forall i sec, chunk_sections c !! i = Some (Some sec) ->
    sec_inv sec /\ sec_y sec = Z.of_nat i /\ sec_key sec = (pos.1, Z.of_nat i, pos.2).

Definition world_wf (w : World) : Prop :=
  forall pos c, w !! pos = Some c -> chunk_wf pos c.

(** Worlds reachable from [World::new] through the public operations. *)
Inductive world_reachable : World -> Prop :=
| wr_new : world_reachable world_new
| wr_set_block w x y z b w' :
    world_reachable w -> world_set_block w x y z b = Some w' -> world_reachable w'
| wr_load_chunk w x z new mask data w' r :
    world_reachable w -> load_chunk w x z new mask data = Some (w', r) ->
    world_reachable w'
| wr_set_building_flag w pos w' :
    world_reachable w -> set_building_flag w pos = Some w' -> world_reachable w'
| wr_reset_building_flag w pos w' :
    world_reachable w -> reset_building_flag w pos = Some w' -> world_reachable w'
| wr_flag_dirty_all w :
    world_reachable w -> world_reachable (flag_dirty_all w)
| wr_unload_chunk w x z :
    world_reachable w -> world_reachable (unload_chunk w x z).

(** Observations used by the statements below. *)

(** The sum, over the palette of a section, of the reference counts. *)
Definition palette_count_sum (s : Section) : Z :=
  fold_right (fun e acc => (e.2 + acc)%Z) 0%Z (sec_block_map s).

(** The section stored in slot [i] of the column at [cpos], if any. *)
Definition section_at (w : World) (cpos : Z * Z) (i : nat) : option Section :=
  c ← w !! cpos;
  os ← chunk_sections c !! i;
  os.

(** A small reachable world: one block written into a fresh world. *)
Definition demo_world : World :=
  match world_set_block world_new 0 0 0 (Other 1) with
  | Some w => w
  | None => world_new
  end.

Definition demo_section : Section :=
  match section_at demo_world (0, 0)%Z 0 with
  | Some s => s
  | None => section_new 0 0 0
  end.

(** A sequence of [Section::set_block] calls, [(x, y, z, block)] each, with
    the width of the packed array after every call. *)
Fixpoint section_set_blocks (s : Section) (ops : list (Z * Z * Z * Block))
    : option (list nat * Section) :=
  match ops with
  | [] => Some ([], s)
  | (x, y, z, b) :: rest =>
      s' ← section_set_block s x y z b;
      r ← section_set_blocks s' rest;
      Some (bit_size (sec_blocks s') :: r.1, r.2)
  end.

(** The width of the packed array once [k] distinct non-air values have
    been written into a fresh section. *)
Definition width_after (k : nat) : nat := if k <=? 15 then 4 else 8.

Definition op_index (op : Z * Z * Z * Block) : nat :=
  sec_index op.1.1.1 op.1.1.2 op.1.2.

Definition op_cell_ok (op : Z * Z * Z * Block) : Prop :=
  in16 op.1.1.1 /\ in16 op.1.1.2 /\ in16 op.1.2.

Definition op_cell (op : Z * Z * Z * Block) : Z * Z * Z := op.1.

Definition fill17_ops : list (Z * Z * Z * Block) :=
  map (fun i => (Z.of_nat i, 0%Z, 0%Z, Other (S i))) (seq 0 16) ++ [(0%Z, 1%Z, 0%Z, Other 17)].

(** The world left by loading [demo_slot] for slot 0 with slot 1 also
    selected: the payload runs out at slot 1. *)
Definition demo_err_world : World :=
  match load_chunk world_new 0 0 true 3 demo_slot return World with
  | Some r => r.1
  | None => world_new
  end.

(** The snapshot of the box [(0, 40, 0)]..[(2, 42, 2)] of [demo_world]:
    its column is loaded, its vertical slot 2 holds no section. *)
Definition demo_capture : Snapshot :=
  match capture_snapshot demo_world 0 40 0 2 2 2 return Snapshot with
  | Some s => s
  | None => mkSnapshot [] (nibble_new 0) (nibble_new 0) [] 0 0 0 0 0 0
  end.

(** Small inputs: a world with one loaded column and no section; a section
    laid out as [Section::new] lays it out, before its sky light is filled;
    a world holding that section in slot 0 of column (0, 0); an empty
    2 x 2 x 2 snapshot at the origin. *)
Definition column_world : World := <[(0, 0)%Z := chunk_new (0, 0)%Z]> ∅.

Definition bare_section : Section :=
  mkSection (0, 0, 0)%Z 0 (bitmap_new 4096 4) [(Air, u32_max)] (<[Air := 0]> ∅)
    (nibble_new 4096) (nibble_new 4096) false false.

Definition section_world : World :=
  <[(0, 0)%Z := chunk_set_section (chunk_new (0, 0)%Z) 0 (Some bare_section)]> ∅.

Definition small_snapshot : Snapshot :=
  mkSnapshot (repeat 0 8) (nibble_new 8) (nibble_new 8) [] 0 0 0 2 2 2.

(** A cell [(X, Y, Z)] inside the box captured by
    [capture_snapshot _ x y z w h d]. *)
Definition in_region (x y z w h d X Y Z : Z) : Prop :=
  (x <= X < x + w)%Z /\ (y <= Y < y + h)%Z /\ (z <= Z < z + d)%Z.

(** [Snapshot::index] for a snapshot at origin [(x, y, z)] of width [w] and
    depth [d]. *)
Definition idx (x y z w d X Y Z : Z) : nat :=
  Z.to_nat ((X - x) + (Z - z) * w + (Y - y) * w * d).

(** Every byte of a nibble array lies in [0, 256). *)
Definition nib_ok (a : NibbleArray) : Prop :=
  Forall (fun v => 0 <= v < 256)%Z (nib_data a).

(** The origin and the dimensions that [Snapshot::index] reads. *)
Definition snap_geom (x y z w d : Z) (s : Snapshot) : Prop :=
  snap_x s = x /\ snap_y s = y /\ snap_z s = z /\ snap_w s = w /\ snap_d s = d.

Definition snap_good (x y z w d : Z) (s : Snapshot) : Prop :=
  snap_geom x y z w d s /\ nib_ok (snap_block_light s) /\ nib_ok (snap_sky_light s).

(** A cell of the box a snapshot covers. *)
Definition snap_in (s : Snapshot) (X Y Z : Z) : Prop :=
  in_region (snap_x s) (snap_y s) (snap_z s) (snap_w s) (snap_h s) (snap_d s) X Y Z.

(** The shape [World::capture_snapshot] gives a snapshot: a non-empty box,
    one block per cell, one nibble per cell in each light array. *)
Definition snap_sized (s : Snapshot) : Prop :=
  (0 < snap_w s)%Z /\ (0 < snap_h s)%Z /\ (0 < snap_d s)%Z /\
  length (snap_blocks s) = Z.to_nat (snap_w s * snap_h s * snap_d s) /\
  length (nib_data (snap_block_light s)) = Nat.div2 (length (snap_blocks s) + 1) /\
  length (nib_data (snap_sky_light s)) = Nat.div2 (length (snap_blocks s) + 1) /\
  nib_ok (snap_block_light s) /\ nib_ok (snap_sky_light s).

(** What a snapshot stores for the cell of index [i]: block id, block
    light, sky light. *)
Definition cell_view (s : Snapshot) (i : nat) : option nat * option Z * option Z :=
  (snap_blocks s !! i, nibble_get (snap_block_light s) i, nibble_get (snap_sky_light s) i).

(** One entry per cell in the blocks, one nibble per cell in each light
    array. *)
Definition snap_lens (n : nat) (t : Snapshot) : Prop :=
  length (snap_blocks t) = n /\
  length (nib_data (snap_block_light t)) = Nat.div2 (n + 1) /\
  length (nib_data (snap_sky_light t)) = Nat.div2 (n + 1).

(** What the capture leaves at the cell [iC] of a cell whose slot is
    [secC]. *)
Definition hit_view (secC : option Section) (X Y Z : Z) (iC : nat) (t : Snapshot) : Prop :=
  match secC with
  | Some sec =>
      exists bb bl sl,
        section_get_block sec (X - Z.shiftl (Z.shiftr X 4) 4) (Y - Z.shiftl (Z.shiftr Y 4) 4)
          (Z - Z.shiftl (Z.shiftr Z 4) 4) = Some bb /\
        section_get_block_light sec (X - Z.shiftl (Z.shiftr X 4) 4) (Y - Z.shiftl (Z.shiftr Y 4) 4)
          (Z - Z.shiftl (Z.shiftr Z 4) 4) = Some bl /\
        section_get_sky_light sec (X - Z.shiftl (Z.shiftr X 4) 4) (Y - Z.shiftl (Z.shiftr Y 4) 4)
          (Z - Z.shiftl (Z.shiftr Z 4) 4) = Some sl /\
        cell_view t iC = (Some (get_steven_id bb mod 2 ^ 16)%nat, Some (Z.land bl 15), Some (Z.land sl 15))
  | None => snap_blocks t !! iC = Some (get_steven_id Air mod 2 ^ 16)%nat
  end%Z.

(** The parameters of every [capture_cell] call made by the loops of
    [capture_snapshot wd x y z w h d]. *)
Definition valid_call (wd : World) (x y z w h d : Z) (cx cy cz : Z)
    (section : option Section) (yy zz xx : Z) : Prop :=
  (exists chunk, wd !! (cx, cz) = Some chunk /\
                 chunk_sections chunk !! Z.to_nat cy = Some section) /\
  in16 cy /\ in16 xx /\ in16 yy /\ in16 zz /\
  in_region x y z w h d (xx + Z.shiftl cx 4) (yy + Z.shiftl cy 4) (zz + Z.shiftl cz 4).

Definition index_table_ok : bool :=
  forallb (fun x => forallb (fun y => forallb (fun z =>
    Z.eqb (Z.lor (Z.lor (Z.shiftl y 8) (Z.shiftl z 4)) x) (y * 256 + z * 16 + x))
    (zrange 0 16)) (zrange 0 16)) (zrange 0 16).

Definition sec_place (y : Z) (key : Z * Z * Z) (s : Section) : Prop :=
  sec_inv s /\ sec_y s = y /\ sec_key s = key.

(** * A run of the embedding *)

Example ex_capture :
  (wd ← world_set_block world_new 5 3 5 (Other 9);
   sn ← capture_snapshot wd 4 2 4 20 20 2;
   a ← snapshot_get_block sn 5 3 5;
   b ← snapshot_get_block sn 5 20 5;
   c ← snapshot_get_block sn 20 3 5;
   l ← snapshot_get_sky_light sn 5 20 5;
   Some (a, b, c, l)) = Some (Other 9, Air, Missing, 15%Z).
Proof. vm_compute. reflexivity. Qed.

(** * Proofs *)

(** ** Ranges and cell indices *)

Lemma in_zrange (a b v : Z) : In v (zrange a b) <-> (a <= v < b)%Z.
Proof.
  unfold zrange. rewrite in_map_iff. split.
  - intros [n [<- Hn]]. apply in_seq in Hn. lia.
  - intros Hv. exists (Z.to_nat (v - a)). split; [lia|]. apply in_seq. lia.
Qed.

Lemma NoDup_zrange (a b : Z) : NoDup (zrange a b).
Proof.
  unfold zrange. change (NoDup ((fun n => a + Z.of_nat n)%Z <$> seq 0 (Z.to_nat (b - a)))).
  apply NoDup_fmap_2_strong; [|apply NoDup_seq]. intros n m _ _ H. lia.
Qed.

Lemma index_table_true : index_table_ok = true.
Proof. vm_compute. reflexivity. Qed.

Lemma sec_index_spec (x y z : Z) :
  in16 x -> in16 y -> in16 z ->
  sec_index x y z = Z.to_nat (y * 256 + z * 16 + x).
Proof.
  intros Hx Hy Hz. unfold sec_index. f_equal.
  pose proof index_table_true as H. unfold index_table_ok in H.
  rewrite forallb_forall in H. specialize (H x (proj2 (in_zrange _ _ _) Hx)).
  rewrite forallb_forall in H. specialize (H y (proj2 (in_zrange _ _ _) Hy)).
  rewrite forallb_forall in H. specialize (H z (proj2 (in_zrange _ _ _) Hz)).
  now apply Z.eqb_eq.
Qed.

Lemma sec_index_lt (x y z : Z) :
  in16 x -> in16 y -> in16 z -> sec_index x y z < 4096.
Proof.
  intros Hx Hy Hz. rewrite sec_index_spec by assumption.
  unfold in16 in *. lia.
Qed.

Lemma sec_index_inj (x y z x' y' z' : Z) :
  in16 x -> in16 y -> in16 z -> in16 x' -> in16 y' -> in16 z' ->
  sec_index x y z = sec_index x' y' z' -> x = x' /\ y = y' /\ z = z'.
Proof.
  intros. rewrite !sec_index_spec in * by assumption. unfold in16 in *. lia.
Qed.

(** ** Occurrence counting *)

Lemma occ_insert (l : list nat) (k u v i : nat) :
  l !! k = Some u ->
  occ i (<[k := v]> l) + (if Nat.eqb u i then 1 else 0)
  = occ i l + (if Nat.eqb v i then 1 else 0).
Proof.
  revert k. induction l as [|a t IH]; intros k Hk; [discriminate|].
  destruct k as [|k]; simpl in *.
  - injection Hk as ->. lia.
  - specialize (IH k Hk). lia.
Qed.

Lemma occ_le_length (i : nat) (l : list nat) : occ i l <= length l.
Proof. induction l as [|a t IH]; simpl; [lia|]. destruct (Nat.eqb a i); lia. Qed.

Lemma occ_lookup (l : list nat) (k i : nat) : l !! k = Some i -> 1 <= occ i l.
Proof.
  revert k. induction l as [|a t IH]; intros k Hk; [discriminate|].
  destruct k as [|k]; simpl in *.
  - injection Hk as ->. rewrite Nat.eqb_refl. lia.
  - specialize (IH k Hk). lia.
Qed.

Lemma occ_absent (l : list nat) (i : nat) :
  (forall k v, l !! k = Some v -> v <> i) -> occ i l = 0.
Proof.
  induction l as [|a t IH]; intros H; simpl; [done|].
  destruct (Nat.eqb_spec a i) as [->|].
  - exfalso. by apply (H 0 i).
  - apply IH. intros k v Hk. by apply (H (S k)).
Qed.

Lemma occ_two (l : list nat) (k k' u i : nat) :
  k <> k' -> l !! k = Some u -> l !! k' = Some i ->
  1 + (if Nat.eqb u i then 1 else 0) <= occ i l.
Proof.
  intros Hne Hk Hk'.
  pose proof (occ_insert l k u (S i) i Hk) as E.
  assert (Nat.eqb (S i) i = false) as F by (apply Nat.eqb_neq; lia).
  rewrite F in E.
  assert (1 <= occ i (<[k := S i]> l)).
  { apply (occ_lookup _ k'). by rewrite list_lookup_insert_ne. }
  lia.
Qed.

(** ** The palette of a section *)

Lemma find_free_some (bm : list (Block * Z)) (j : nat) :
  find_free bm = Some j -> exists b0, bm !! j = Some (b0, 0%Z).
Proof.
  revert j. induction bm as [|[b0 c] t IH]; intros j H; simpl in *; [discriminate|].
  destruct (Z.eqb_spec c 0) as [->|].
  - injection H as <-. eauto.
  - destruct (find_free t) as [j'|] eqn:E; simpl in H; [|discriminate].
    injection H as <-. simpl. eauto.
Qed.

Lemma find_free_none (bm : list (Block * Z)) :
  find_free bm = None -> forall i b0 c, bm !! i = Some (b0, c) -> c <> 0%Z.
Proof.
  induction bm as [|[b0 c] t IH]; intros H i b1 c1 Hi; simpl in *; [discriminate|].
  destruct (Z.eqb_spec c 0); [discriminate|].
  destruct (find_free t) eqn:E; simpl in H; [discriminate|].
  destruct i as [|i]; simpl in Hi.
  - congruence.
  - eauto.
Qed.

Lemma count_offset_pos (i : nat) : (0 <= count_offset i)%Z.
Proof. unfold count_offset, u32_max. destruct (Nat.eqb i 0); lia. Qed.

Lemma count_offset_0 : count_offset 0 = (u32_max - 4096)%Z.
Proof. reflexivity. Qed.

Lemma count_offset_S (i : nat) : count_offset (S i) = 0%Z.
Proof. reflexivity. Qed.

Lemma map_mod_small (l : list nat) (n : nat) :
  (forall k v, l !! k = Some v -> v < n) -> map (fun v => v mod n) l = l.
Proof.
  induction l as [|a t IH]; intros H; simpl; [done|].
  f_equal.
  - apply Nat.mod_small. by apply (H 0).
  - apply IH. intros k v Hk. by apply (H (S k)).
Qed.

Lemma live_lookup (bm : list (Block * Z)) (b : Block) (i : nat) (e : Block * Z) :
  bm !! i = Some e -> live bm b i <-> e.1 = b /\ (0 < e.2)%Z.
Proof.
  intros Hi. unfold live. rewrite Hi. split.
  - intros (c & [= ->] & Hc). done.
  - destruct e as [b' c]; simpl. intros [-> Hc]. eauto.
Qed.

Lemma palette_alloc_spec (bm1 : list (Block * Z)) (rev1 : gmap Block nat)
    (blocks : BitMap) (b : Block) (o : nat -> nat) :
  (forall i e, bm1 !! i = Some e -> e.2 = (Z.of_nat (o i) + count_offset i)%Z) ->
  (forall b' i, rev1 !! b' = Some i <-> live bm1 b' i) ->
  (forall i, length bm1 <= i -> o i = 0) ->
  (forall k v, bm_data blocks !! k = Some v -> v < length bm1) ->
  1 <= bit_size blocks -> length bm1 <= 2 ^ bit_size blocks ->
  (exists c, bm1 !! 0 = Some (Air, c)) ->
  forall bm2 rev2 blocks2,
  palette_alloc bm1 rev1 blocks b = (bm2, rev2, blocks2) ->
  exists idx2,
    rev2 = <[b := idx2]> rev1 /\
    bm2 !! idx2 = Some (b, Z.of_nat (o idx2) + count_offset idx2)%Z /\
    (forall i, i <> idx2 -> bm2 !! i = bm1 !! i) /\
    length bm2 = Nat.max (length bm1) (S idx2) /\
    (forall i, live bm1 b i -> i = idx2) /\
    (forall b', live bm1 b' idx2 -> b' = b) /\
    (0 < o idx2 -> exists c, bm1 !! idx2 = Some (b, c)) /\
    bm_data blocks2 = bm_data blocks /\
    1 <= bit_size blocks2 /\
    length bm2 <= 2 ^ bit_size blocks2 /\
    (exists c, bm2 !! 0 = Some (Air, c)).
Proof.
  intros Hcnt Hrev Ho Hdata Hbs Hfit [c0 H0] bm2 rev2 blocks2 Halloc.
  assert (Hc0 : c0 = (Z.of_nat (o O) + count_offset O)%Z) by exact (Hcnt 0 _ H0).
  rewrite count_offset_0 in Hc0. unfold u32_max in Hc0.
  unfold palette_alloc in Halloc.
  destruct (rev1 !! b) as [j|] eqn:Eb.
  - injection Halloc as <- <- <-.
    pose proof (proj1 (Hrev b j) Eb) as (c & Hj & Hc).
    exists j. split_and!.
    + symmetry. by apply insert_id.
    + rewrite Hj. f_equal. f_equal. exact (Hcnt j _ Hj).
    + done.
    + apply lookup_lt_Some in Hj. lia.
    + intros i Hi. apply Hrev in Hi. congruence.
    + intros b' Hb'. apply (live_lookup _ _ _ _ Hj) in Hb'. simpl in Hb'. by destruct Hb'.
    + eauto.
    + done.
    + lia.
    + lia.
    + eauto.
  - destruct (find_free bm1) as [j|] eqn:Ef.
    + injection Halloc as <- <- <-.
      destruct (find_free_some _ _ Ef) as [b0 Hj].
      pose proof (Hcnt j _ Hj) as Ej. simpl in Ej.
      assert (j <> 0) as Hj0.
      { intros ->. rewrite H0 in Hj. injection Hj as _ ->. lia. }
      destruct j as [|j']; [done|]. rewrite count_offset_S in Ej.
      assert (o (S j') = 0) as Eo by lia.
      exists (S j'). split_and!.
      * done.
      * rewrite list_lookup_alter_eq, Hj. simpl. rewrite Eo, count_offset_S. done.
      * intros i Hi. by rewrite list_lookup_alter_ne.
      * rewrite length_alter. apply lookup_lt_Some in Hj. lia.
      * intros i Hi. apply Hrev in Hi. congruence.
      * intros b' Hb'. apply (live_lookup _ _ _ _ Hj) in Hb'. simpl in Hb'. lia.
      * intros Hlt. exfalso. lia.
      * done.
      * done.
      * rewrite length_alter. done.
      * exists c0. by rewrite list_lookup_alter_ne.
    + injection Halloc as <- <- <-.
      assert (Hlen1 : 1 <= length bm1) by (apply lookup_lt_Some in H0; lia).
      exists (length bm1). split_and!.
      * done.
      * rewrite lookup_app_r by lia. rewrite Nat.sub_diag. simpl.
        rewrite Ho by lia. destruct (length bm1) as [|n]; [lia|].
        by rewrite count_offset_S.
      * intros i Hi. destruct (decide (i < length bm1)).
        -- by rewrite lookup_app_l.
        -- rewrite !lookup_ge_None_2; [done| |]; rewrite ?length_app; simpl; lia.
      * rewrite length_app. simpl. lia.
      * intros i Hi. apply Hrev in Hi. congruence.
      * intros b' (c & Hc & _). apply lookup_lt_Some in Hc. lia.
      * rewrite Ho by lia. intros Hlt. exfalso. lia.
      * destruct (decide _); simpl; [|done].
        apply map_mod_small. intros k v Hk. specialize (Hdata k v Hk).
        assert (2 ^ bit_size blocks <= 2 ^ (bit_size blocks * 2))
          by (apply Nat.pow_le_mono_r; lia).
        lia.
      * destruct (decide _); simpl; lia.
      * rewrite length_app. simpl.
        destruct (decide _) as [Hle|Hlt]; simpl; [|lia].
        replace (bit_size blocks * 2) with (bit_size blocks + bit_size blocks) by lia.
        rewrite Nat.pow_add_r.
        assert (2 <= 2 ^ bit_size blocks).
        { change 2 with (2 ^ 1) at 1. apply Nat.pow_le_mono_r; lia. }
        nia.
      * exists c0. by rewrite lookup_app_l.
Qed.

Lemma section_get_some (s : Section) (x y z : Z) :
  sec_inv s -> in16 x -> in16 y -> in16 z ->
  exists k e, bm_data (sec_blocks s) !! sec_index x y z = Some k /\
              sec_block_map s !! k = Some e /\
              section_get_block s x y z = Some e.1.
Proof.
  intros Hinv Hx Hy Hz.
  destruct (lookup_lt_is_Some_2 (bm_data (sec_blocks s)) (sec_index x y z)) as [k Hk].
  { rewrite (inv_len _ Hinv). by apply sec_index_lt. }
  destruct (lookup_lt_is_Some_2 (sec_block_map s) k) as [e He].
  { exact (inv_data_lt _ Hinv _ _ Hk). }
  exists k, e. unfold section_get_block, bitmap_get. rewrite Hk. simpl. by rewrite He.
Qed.

Lemma u32_max_value : u32_max = (2 ^ 32 - 1)%Z.
Proof. reflexivity. Qed.

Lemma section_set_block_spec (s : Section) (x y z : Z) (b : Block) :
  sec_inv s -> in16 x -> in16 y -> in16 z ->
  exists s', section_set_block s x y z b = Some s' /\ sec_inv s' /\
    section_get_block s' x y z = Some b /\
    (forall x' y' z', in16 x' -> in16 y' -> in16 z' ->
       sec_index x' y' z' <> sec_index x y z ->
       section_get_block s' x' y' z' = section_get_block s x' y' z') /\
    sec_key s' = sec_key s /\ sec_y s' = sec_y s /\
    sec_building s' = sec_building s /\
    sec_block_light s' = sec_block_light s /\ sec_sky_light s' = sec_sky_light s /\
    ((section_get_block s x y z = Some b /\ s' = s) \/
     (section_get_block s x y z <> Some b /\ sec_dirty s' = true)).
Proof.
  intros Hinv Hx Hy Hz.
  destruct (section_get_some s x y z Hinv Hx Hy Hz) as (k & [old c] & Hk & Hbk & Hget).
  simpl in Hget.
  unfold section_set_block. rewrite Hget. simpl.
  destruct (decide (old = b)) as [<-|Hne].
  { exists s. split_and!; auto. }
  pose proof (inv_counts _ Hinv k _ Hbk) as Hc. simpl in Hc.
  pose proof (occ_lookup _ _ _ Hk) as Hocc1.
  pose proof (occ_le_length k (bm_data (sec_blocks s))) as Hocc2.
  rewrite (inv_len _ Hinv) in Hocc2.
  pose proof (count_offset_pos k) as Hoff.
  assert (Hoffb : forall i, (count_offset i <= u32_max - 4096)%Z).
  { intros i. unfold count_offset. destruct (Nat.eqb i 0); unfold u32_max; lia. }
  pose proof (Hoffb k) as Hoffk.
  assert (Hlive : live (sec_block_map s) old k).
  { exists c. split; [done|]. lia. }
  pose proof (proj2 (inv_rev _ Hinv old k) Hlive) as Hrevold.
  rewrite Hrevold. simpl. rewrite Hbk. simpl.
  assert (Hw : wrap32 (c - 1) = (c - 1)%Z).
  { unfold wrap32. apply Z.mod_small. rewrite u32_max_value in Hoffk. lia. }
  rewrite Hw.
  assert (Hklt : k < length (sec_block_map s)) by (apply lookup_lt_Some in Hbk; done).
  set (data := bm_data (sec_blocks s)) in *.
  set (bm := sec_block_map s) in *.
  set (rev := sec_rev_block_map s) in *.
  pose proof (inv_rev _ Hinv : forall b i, rev !! b = Some i <-> live bm b i) as Hrevi.
  pose proof (inv_data_lt _ Hinv : forall k v, data !! k = Some v -> v < length bm) as Hdlt.
  pose proof (inv_counts _ Hinv : forall i e, bm !! i = Some e ->
                e.2 = (Z.of_nat (occ i data) + count_offset i)%Z) as Hcnts.
  set (bm1 := <[k := (old, (c - 1)%Z)]> bm).
  set (rev1 := if Z.eqb (c - 1) 0 then delete old rev else rev).
  set (o := fun i => occ i data - (if Nat.eqb k i then 1 else 0)).
  assert (Hbm1 : forall i, bm1 !! i = if decide (i = k) then Some (old, (c - 1)%Z) else bm !! i).
  { intros i. unfold bm1. destruct (decide (i = k)) as [->|].
    - by rewrite list_lookup_insert_eq. - by rewrite list_lookup_insert_ne. }
  assert (Hlen1 : length bm1 = length bm) by apply length_insert.
  assert (Hlivebm1 : forall b' i, live bm1 b' i <->
            (if decide (i = k) then old = b' /\ (0 < c - 1)%Z else live bm b' i)).
  { intros b' i. unfold live at 1. rewrite Hbm1.
    destruct (decide (i = k)); [|done]. split.
    - intros (c' & [= -> ->] & Hc'). done.
    - intros [-> Hc']. eauto. }
  assert (Hlivebm : forall b', live bm b' k -> b' = old).
  { intros b' Hb'. by apply (live_lookup _ _ _ _ Hbk) in Hb' as [? _]. }
  assert (A1 : forall i e, bm1 !! i = Some e -> e.2 = (Z.of_nat (o i) + count_offset i)%Z).
  { intros i e Hi. rewrite Hbm1 in Hi. unfold o.
    destruct (decide (i = k)) as [->|Hik].
    - injection Hi as <-. rewrite Nat.eqb_refl. simpl. lia.
    - rewrite (Hcnts i e Hi).
      destruct (Nat.eqb_spec k i); [congruence|]. f_equal. lia. }
  assert (A2 : forall b' i, rev1 !! b' = Some i <-> live bm1 b' i).
  { intros b' i. rewrite Hlivebm1. unfold rev1.
    destruct (Z.eqb_spec (c - 1) 0) as [Hc0|Hc0].
    - destruct (decide (b' = old)) as [->|Hb'].
      + rewrite lookup_delete_eq. split; [discriminate|].
        destruct (decide (i = k)) as [->|Hik]; [lia|].
        intros Hl. apply Hrevi in Hl. congruence.
      + rewrite lookup_delete_ne by congruence. rewrite Hrevi.
        destruct (decide (i = k)) as [->|Hik]; [|done].
        split; [intros Hl; apply Hlivebm in Hl; congruence | intros [-> _]; congruence].
    - rewrite Hrevi. destruct (decide (i = k)) as [->|Hik]; [|done].
      rewrite (live_lookup _ _ _ _ Hbk). simpl. split; intros [? ?]; split; auto; lia. }
  assert (A3 : forall i, length bm1 <= i -> o i = 0).
  { intros i Hi. unfold o. rewrite (occ_absent data i); [lia|].
    intros k' v Hk' ->. apply Hdlt in Hk'. fold bm in Hk'. lia. }
  assert (A4 : forall k' v, bm_data (sec_blocks s) !! k' = Some v -> v < length bm1).
  { intros k' v Hk'. rewrite Hlen1. exact (inv_data_lt _ Hinv _ _ Hk'). }
  assert (A5 : exists c0, bm1 !! 0 = Some (Air, c0)).
  { destruct (inv_air _ Hinv) as [c0 H0]. rewrite Hbm1.
    destruct (decide (0 = k)) as [<-|]; [|eauto].
    fold bm in H0. rewrite H0 in Hbk. injection Hbk as -> ->. eauto. }
  destruct (palette_alloc bm1 rev1 (sec_blocks s) b) as [[bm2 rev2] blocks2] eqn:Ealloc.
  destruct (palette_alloc_spec bm1 rev1 (sec_blocks s) b o A1 A2 A3 A4
              (inv_bs_pos _ Hinv) ltac:(rewrite Hlen1; exact (inv_fits _ Hinv)) A5
              bm2 rev2 blocks2 Ealloc)
    as (idx2 & Hrev2 & Hb2 & Hne2 & Hlen2 & Huniq & Hlive2 & Hold2 & Hdata2 & Hbs2
        & Hfit2 & Hair2).
  rewrite Hrev2, lookup_insert_eq. simpl. rewrite Hb2. simpl.
  eexists. split; [reflexivity|].
  set (cell := sec_index x y z) in *.
  assert (Hcell : cell < length data) by (unfold data; rewrite (inv_len _ Hinv); by apply sec_index_lt).
  assert (Hidx2 : idx2 < length bm2) by lia.
  assert (Hmod : idx2 mod 2 ^ bit_size blocks2 = idx2) by (apply Nat.mod_small; lia).
  assert (Hocc3 : forall i, occ i (<[cell := idx2]> data) + (if Nat.eqb k i then 1 else 0)
                            = occ i data + (if Nat.eqb idx2 i then 1 else 0))
    by (intros i; by apply occ_insert).
  assert (Ho3 : forall i, occ i (<[cell := idx2]> data) = o i + (if Nat.eqb idx2 i then 1 else 0)).
  { intros i. specialize (Hocc3 i). unfold o.
    destruct (Nat.eqb_spec k i) as [E|E]; [rewrite <- E in *|]; lia. }
  pose proof (occ_le_length idx2 (<[cell := idx2]> data)) as Hle3.
  rewrite length_insert in Hle3. unfold data in Hle3. rewrite (inv_len _ Hinv) in Hle3.
  rewrite Ho3, Nat.eqb_refl in Hle3.
  pose proof (Hoffb idx2) as Hoff2. pose proof (count_offset_pos idx2) as Hoff2'.
  assert (Hw2 : wrap32 (Z.of_nat (o idx2) + count_offset idx2 + 1)
                = (Z.of_nat (o idx2) + count_offset idx2 + 1)%Z).
  { unfold wrap32. apply Z.mod_small. rewrite u32_max_value in Hoff2. lia. }
  rewrite Hw2.
  set (bm3 := <[idx2 := (b, (Z.of_nat (o idx2) + count_offset idx2 + 1)%Z)]> bm2).
  assert (Hbm3 : forall i, bm3 !! i = if decide (i = idx2)
            then Some (b, (Z.of_nat (o idx2) + count_offset idx2 + 1)%Z) else bm1 !! i).
  { intros i. unfold bm3. destruct (decide (i = idx2)) as [->|].
    - by rewrite list_lookup_insert_eq. - rewrite list_lookup_insert_ne by done. auto. }
  unfold bitmap_set. simpl. rewrite Hdata2, Hmod. fold data.
  split_and!.
  - (* the invariant *)
    constructor; simpl.
    + rewrite length_insert. apply (inv_len _ Hinv).
    + intros k' v Hk'. unfold bm3. rewrite length_insert.
      rewrite list_lookup_insert in Hk'.
      destruct (decide _) as [_|]; [injection Hk' as <-; done|].
      apply Hdlt in Hk'. lia.
    + done.
    + unfold bm3. rewrite length_insert. done.
    + destruct Hair2 as [c0 H0]. rewrite Hbm3.
      destruct (decide (0 = idx2)) as [<-|]; [|rewrite <- (Hne2 0) by done; eauto].
      rewrite Hb2 in H0. injection H0 as -> _. eauto.
    + intros i e Hi. rewrite Hbm3 in Hi. rewrite Ho3.
      destruct (decide (i = idx2)) as [->|Hi2].
      * injection Hi as <-. rewrite Nat.eqb_refl. simpl. lia.
      * rewrite (A1 i e Hi). destruct (Nat.eqb_spec idx2 i); [congruence|]. lia.
    + intros b' i. rewrite lookup_insert. unfold live at 1. rewrite Hbm3.
      destruct (decide (b = b')) as [<-|Hbb'].
      * destruct (decide (i = idx2)) as [->|Hi2].
        -- split; [intros _; eexists; split; [done|lia] | done].
        -- split; [intros [=]; congruence|].
           intros Hl. apply Huniq in Hl. congruence.
      * rewrite A2. destruct (decide (i = idx2)) as [->|Hi2].
        -- split; [intros Hl; apply Hlive2 in Hl; congruence|].
           intros (c' & [= -> _] & _). congruence.
        -- done.
    + apply (inv_light _ Hinv).
  - unfold section_get_block, bitmap_get. simpl.
    rewrite list_lookup_insert_eq by done. simpl. rewrite Hbm3.
    destruct (decide (idx2 = idx2)); [done|congruence].
  - intros x' y' z' Hx' Hy' Hz' Hne'.
    destruct (lookup_lt_is_Some_2 data (sec_index x' y' z')) as [k' Hk'].
    { unfold data. rewrite (inv_len _ Hinv). by apply sec_index_lt. }
    unfold section_get_block, bitmap_get. simpl.
    rewrite list_lookup_insert_ne by congruence. fold data. rewrite Hk'. simpl.
    rewrite Hbm3. destruct (decide (k' = idx2)) as [->|Hk2].
    + assert (Hpos : 0 < o idx2).
      { pose proof (occ_two data cell (sec_index x' y' z') k idx2
                      ltac:(congruence) Hk Hk') as Htwo.
        unfold o. destruct (Nat.eqb k idx2); lia. }
      destruct (Hold2 Hpos) as [c' Hc']. rewrite Hbm1 in Hc'.
      destruct (decide (idx2 = k)); [congruence|]. fold bm. by rewrite Hc'.
    + rewrite Hbm1. destruct (decide (k' = k)) as [->|]; [|done].
      fold bm. by rewrite Hbk.
  - done.
  - done.
  - done.
  - done.
  - done.
  - right. split; [congruence|done].
Qed.

(** ** Fresh sections and chunks *)

Lemma nibble_set_length (a : NibbleArray) (i : nat) (v : Z) :
  length (nib_data (nibble_set a i v)) = length (nib_data a).
Proof.
  unfold nibble_set. destruct (nib_data a !! Nat.div2 i); simpl; [|done].
  apply length_insert.
Qed.

Lemma occ_repeat (i n : nat) : occ i (repeat i n) = n.
Proof. induction n as [|n IH]; simpl; [done|]. rewrite Nat.eqb_refl, IH. lia. Qed.

Lemma lookup_repeat_Some {A} (a v : A) (n k : nat) : repeat a n !! k = Some v -> v = a.
Proof.
  intros Hk. apply list_elem_of_lookup_2, list_elem_of_In in Hk.
  by apply repeat_spec in Hk.
Qed.

Lemma fold_nibble_set_length (l : list nat) (a : NibbleArray) :
  length (nib_data (fold_left (fun a i => nibble_set a i 15) l a)) = length (nib_data a).
Proof.
  revert a. induction l as [|j l IH]; intros a; simpl; [done|].
  by rewrite IH, nibble_set_length.
Qed.

Lemma section_new_inv (x y z : Z) : sec_inv (section_new x y z).
Proof.
  unfold section_new. constructor; unfold bitmap_new; cbn -[fold_left seq Nat.mul repeat nibble_new].
  - apply repeat_length.
  - intros k v Hk. apply lookup_repeat_Some in Hk. subst. simpl. lia.
  - lia.
  - simpl. lia.
  - eauto.
  - intros [|i] e Hi; simpl in Hi; [|by rewrite lookup_nil in Hi].
    injection Hi as <-. cbn [snd]. rewrite occ_repeat, count_offset_0. lia.
  - intros b i. rewrite lookup_insert, lookup_empty. unfold live.
    destruct i as [|i]; simpl.
    + split.
      * destruct (decide (Air = b)) as [<-|]; [|discriminate]. intros _.
        eexists. split; [done|]. unfold u32_max. lia.
      * intros (c & [= <- _] & _). by rewrite decide_True.
    + rewrite lookup_nil. split; [|intros (c & [=] & _)].
      destruct (decide _); congruence.
  - rewrite fold_nibble_set_length. split; reflexivity.
Qed.

Lemma chunk_new_wf (pos : Z * Z) : chunk_wf pos (chunk_new pos).
Proof.
  split_and!; [done|done|]. intros i sec Hi.
  change (repeat (@None Section) 16 !! i = Some (Some sec)) in Hi.
  apply lookup_repeat_Some in Hi. discriminate.
Qed.

Lemma chunk_set_section_wf (pos : Z * Z) (c : Chunk) (i : nat) (s : Section) :
  chunk_wf pos c -> sec_inv s -> sec_y s = Z.of_nat i ->
  sec_key s = (pos.1, Z.of_nat i, pos.2) ->
  chunk_wf pos (chunk_set_section c i (Some s)).
Proof.
  intros (Hpos & Hlen & Hsec) Hs Hy Hk. split_and!; simpl; [done|by rewrite length_insert|].
  intros j sec Hj. rewrite list_lookup_insert_Some in Hj.
  destruct Hj as [(-> & [= <-] & _)|[_ Hj]]; [done|]. by apply Hsec.
Qed.

Lemma land15_in16 (v : Z) : in16 (Z.land v 15).
Proof.
  unfold in16. change 15%Z with (Z.ones 4). rewrite Z.land_ones by lia.
  pose proof (Z.mod_pos_bound v (2 ^ 4) ltac:(lia)). lia.
Qed.

Lemma slot_out_of_range_false (s : Z) : slot_out_of_range s = false <-> in16 s.
Proof.
  unfold slot_out_of_range, in16.
  rewrite orb_false_iff, !Z.ltb_ge. lia.
Qed.

Lemma chunk_slot_lookup (pos : Z * Z) (c : Chunk) (s : Z) :
  chunk_wf pos c -> in16 s -> exists os, chunk_sections c !! Z.to_nat s = Some os.
Proof.
  intros (_ & Hlen & _) Hs. apply lookup_lt_is_Some_2. unfold in16 in Hs. lia.
Qed.

Lemma chunk_set_block_spec (pos : Z * Z) (c : Chunk) (x y z : Z) (b : Block) :
  chunk_wf pos c -> in16 x -> in16 z ->
  exists c', chunk_set_block c x y z b = Some c' /\ chunk_wf pos c' /\
    (in16 (Z.shiftr y 4) -> chunk_get_block c' x y z = Some b).
Proof.
  intros Hwf Hx Hz. unfold chunk_set_block.
  destruct (slot_out_of_range (Z.shiftr y 4)) eqn:Er.
  { exists c. split_and!; [done|done|]. intros Hs.
    apply slot_out_of_range_false in Hs. congruence. }
  apply slot_out_of_range_false in Er as Hs.
  destruct (chunk_slot_lookup pos c _ Hwf Hs) as [os Hos]. rewrite Hos.
  pose proof (land15_in16 y) as Hy.
  assert (Hget : forall c' s', chunk_sections c' !! Z.to_nat (Z.shiftr y 4) = Some (Some s') ->
            section_get_block s' x (Z.land y 15) z = Some b -> chunk_get_block c' x y z = Some b).
  { intros c' s' H1 H2. unfold chunk_get_block. rewrite Er, H1. done. }
  assert (Hput : forall s, sec_inv s -> sec_y s = Z.shiftr y 4 ->
            sec_key s = (pos.1, Z.shiftr y 4, pos.2) ->
            exists c', (sec' ← section_set_block s x (Z.land y 15) z b;
                        Some (chunk_set_section c (Z.to_nat (Z.shiftr y 4)) (Some sec'))) = Some c'
                       /\ chunk_wf pos c' /\ (in16 (Z.shiftr y 4) -> chunk_get_block c' x y z = Some b)).
  { intros s Hinv Hsy Hsk.
    destruct (section_set_block_spec s x (Z.land y 15) z b Hinv Hx Hy Hz)
      as (s' & Hset & Hinv' & Hget' & _ & Hk' & Hy' & _).
    rewrite Hset. simpl. eexists. split_and!; [reflexivity| |].
    - apply chunk_set_section_wf; [done|done| |].
      + rewrite Hy', Hsy. unfold in16 in Hs. lia.
      + rewrite Hk', Hsk. f_equal. f_equal. unfold in16 in Hs. lia.
    - intros _. apply (Hget _ s'); [|done]. simpl.
      apply list_lookup_insert_eq. destruct Hwf as (_ & Hlen & _).
      unfold in16 in Hs. lia. }
  destruct os as [sec|].
  - destruct Hwf as (Hpos & Hlen & Hsec) eqn:Hwf'.
    destruct (Hsec _ _ Hos) as (Hinv & Hsy & Hsk).
    apply Hput; [done| |].
    + rewrite Hsy. unfold in16 in Hs. lia.
    + rewrite Hsk. f_equal. f_equal. unfold in16 in Hs. lia.
  - destruct b as [| |n]; simpl.
    1: { exists c. split_and!; [done|done|]. intros _.
         unfold chunk_get_block. by rewrite Er, Hos. }
    all: apply Hput; [apply section_new_inv|done|simpl; destruct Hwf as (-> & _); done].
Qed.

Lemma world_set_block_spec (w : World) (x y z : Z) (b : Block) :
  world_wf w ->
  exists w', world_set_block w x y z b = Some w' /\ world_wf w' /\
    (in16 (Z.shiftr y 4) -> world_get_block w' x y z = Some b).
Proof.
  intros Hwf. unfold world_set_block.
  set (cpos := (Z.shiftr x 4, Z.shiftr z 4)).
  set (w1 := match w !! cpos with Some _ => w | None => <[cpos := chunk_new cpos]> w end).
  assert (Hw1 : world_wf w1 /\ exists c, w1 !! cpos = Some c).
  { unfold w1. destruct (w !! cpos) as [c|] eqn:E; [split; eauto|].
    split; [|eexists; apply lookup_insert_eq].
    intros pos c. rewrite lookup_insert. destruct (decide _) as [<-|].
    - intros [= <-]. apply chunk_new_wf.
    - apply Hwf. }
  destruct Hw1 as [Hwf1 [c Hc]]. rewrite Hc. simpl.
  destruct (chunk_set_block_spec cpos c (Z.land x 15) y (Z.land z 15) b (Hwf1 _ _ Hc)
              (land15_in16 x) (land15_in16 z)) as (c' & Hset & Hwf' & Hget).
  rewrite Hset. simpl. eexists. split_and!; [reflexivity| |].
  - intros pos c0. rewrite lookup_insert. destruct (decide _) as [<-|].
    + by intros [= <-].
    + apply Hwf1.
  - intros Hs. unfold world_get_block. fold cpos. rewrite lookup_insert_eq. by apply Hget.
Qed.

(** ** Preservation of the well-formedness of the world *)

Lemma sec_inv_set_flags (s : Section) (dirty building : bool) :
  sec_inv s -> sec_inv (section_set_flags s dirty building).
Proof. destruct 1; constructor; assumption. Qed.

Lemma sec_inv_set_lights (s : Section) (bl sl : NibbleArray) :
  sec_inv s -> length (nib_data bl) = 2048 -> length (nib_data sl) = 2048 ->
  sec_inv (section_set_lights s bl sl).
Proof. destruct 1; intros; constructor; try assumption. by split. Qed.

Lemma world_wf_insert (w : World) (pos : Z * Z) (c : Chunk) :
  world_wf w -> chunk_wf pos c -> world_wf (<[pos := c]> w).
Proof.
  intros Hwf Hc pos' c'. rewrite lookup_insert. destruct (decide _) as [<-|].
  - by intros [= <-].
  - apply Hwf.
Qed.

Lemma world_new_wf : world_wf world_new.
Proof. intros pos c. unfold world_new. by rewrite lookup_empty. Qed.

Lemma update_section_wf (w w' : World) (pos : Z * Z * Z) (f : Section -> Section) :
  world_wf w ->
  (forall sec, sec_inv sec ->
     sec_inv (f sec) /\ sec_y (f sec) = sec_y sec /\ sec_key (f sec) = sec_key sec) ->
  update_section w pos f = Some w' -> world_wf w'.
Proof.
  intros Hwf Hf. destruct pos as [[px py] pz]. unfold update_section.
  destruct (w !! (px, pz)) as [c|] eqn:Ec; [|by intros [= <-]].
  destruct (slot_out_of_range py) eqn:Er; [discriminate|].
  destruct (chunk_sections c !! Z.to_nat py) as [[sec|]|] eqn:Es;
    [|by intros [= <-]|discriminate].
  intros [= <-]. apply world_wf_insert; [done|].
  pose proof (Hwf _ _ Ec) as Hc. destruct Hc as (Hp & Hl & Hs).
  destruct (Hs _ _ Es) as (Hi & Hy & Hk). destruct (Hf sec Hi) as (Hi' & Hy' & Hk').
  apply chunk_set_section_wf; [by split_and!|done|congruence|congruence].
Qed.

Lemma set_building_flag_wf (w w' : World) (pos : Z * Z * Z) :
  world_wf w -> set_building_flag w pos = Some w' -> world_wf w'.
Proof.
  intros Hwf. apply update_section_wf; [done|].
  intros sec Hi. split_and!; [by apply sec_inv_set_flags|done|done].
Qed.

Lemma reset_building_flag_wf (w w' : World) (pos : Z * Z * Z) :
  world_wf w -> reset_building_flag w pos = Some w' -> world_wf w'.
Proof.
  intros Hwf. apply update_section_wf; [done|].
  intros sec Hi. split_and!; [by apply sec_inv_set_flags|done|done].
Qed.

Lemma lookup_map_list {A B} (f : A -> B) (l : list A) (i : nat) :
  map f l !! i = f <$> l !! i.
Proof.
  revert i. induction l as [|a l IH]; intros [|i]; simpl; auto.
Qed.

Lemma flag_dirty_all_wf (w : World) : world_wf w -> world_wf (flag_dirty_all w).
Proof.
  intros Hwf pos c. unfold flag_dirty_all. rewrite lookup_fmap.
  destruct (w !! pos) as [c0|] eqn:E; simpl; [|discriminate]. intros [= <-].
  destruct (Hwf _ _ E) as (Hp & Hl & Hs).
  split_and!; simpl; [done|by rewrite length_map|].
  intros i sec Hi. rewrite lookup_map_list in Hi.
  destruct (chunk_sections c0 !! i) as [[sec0|]|] eqn:Ei; simpl in Hi; try discriminate.
  injection Hi as <-. destruct (Hs _ _ Ei) as (? & ? & ?).
  split_and!; [by apply sec_inv_set_flags|done|done].
Qed.

Lemma unload_chunk_wf (w : World) (x z : Z) : world_wf w -> world_wf (unload_chunk w x z).
Proof.
  intros Hwf pos c. unfold unload_chunk. rewrite lookup_delete.
  destruct (decide _); [discriminate|apply Hwf].
Qed.

Lemma flag_section_dirty_wf (w : World) (x y z : Z) :
  world_wf w -> world_wf (flag_section_dirty w x y z).
Proof.
  intros Hwf. unfold flag_section_dirty.
  destruct (slot_out_of_range y); [done|].
  destruct (w !! (x, z)) as [c|] eqn:Ec; [|done].
  destruct (chunk_sections c !! Z.to_nat y) as [[sec|]|] eqn:Es; [|done|done].
  apply world_wf_insert; [done|].
  pose proof (Hwf _ _ Ec) as Hc. destruct Hc as (Hp & Hl & Hs).
  destruct (Hs _ _ Es) as (Hi & Hy & Hk).
  apply chunk_set_section_wf; [by split_and!|by apply sec_inv_set_flags|done|done].
Qed.

Lemma fold_left_inv {A B} (P : A -> Prop) (f : A -> B -> A) (l : list B) (a : A) :
  (forall a b, P a -> P (f a b)) -> P a -> P (fold_left f l a).
Proof. revert a. induction l as [|b l IH]; intros a Hf Ha; simpl; auto. Qed.

Lemma flag_neighbours_wf (w : World) (x z mask : Z) :
  world_wf w -> world_wf (flag_neighbours w x z mask).
Proof.
  intros Hwf. unfold flag_neighbours. apply fold_left_inv; [|done].
  intros w1 i Hw1. destruct (negb (mask_bit mask i)); [done|].
  apply fold_left_inv; [|done]. intros w2 [[dx dy] dz] Hw2.
  by apply flag_section_dirty_wf.
Qed.

Lemma fold_opt_none {A S} (f : S -> A -> option S) (l : list A) :
  fold_left (fun acc a => s ← acc; f s a) l None = None.
Proof. induction l as [|a l IH]; simpl; auto. Qed.

Lemma fold_opt_inv {A S} (P : S -> Prop) (f : S -> A -> option S) (l : list A) (s s' : S) :
  (forall s a s', a ∈ l -> P s -> f s a = Some s' -> P s') ->
  P s -> fold_opt f l s = Some s' -> P s'.
Proof.
  unfold fold_opt. revert s. induction l as [|a l IH]; intros s Hf Hs; simpl.
  - by intros [= <-].
  - destruct (f s a) as [s1|] eqn:E.
    + apply IH; [|eapply Hf; [left|done|done]].
      intros s2 a2 s3 Ha2. apply Hf. by right.
    + by rewrite fold_opt_none.
Qed.

Lemma cell_coords_in16 (i : nat) :
  i < 4096 ->
  in16 (Z.land (Z.of_nat i) 15) /\ in16 (Z.shiftr (Z.of_nat i) 8) /\
  in16 (Z.land (Z.shiftr (Z.of_nat i) 4) 15).
Proof.
  intros Hi. split_and!; [apply land15_in16| |apply land15_in16].
  unfold in16. rewrite Z.shiftr_div_pow2 by lia. split.
  - apply Z.div_pos; lia.
  - apply Z.div_lt_upper_bound; lia.
Qed.

Lemma fill_section_inv (m : BitMap) (block_map : gmap nat Z) (sec sec' : Section) :
  sec_inv sec -> fill_section m block_map sec = Some sec' ->
  sec_place (sec_y sec) (sec_key sec) sec'.
Proof.
  intros Hinv. unfold fill_section. apply fold_opt_inv; [|by split_and!].
  intros s i s' Hin (Hs & Hy & Hk). apply list_elem_of_In, in_seq in Hin.
  destruct (cell_coords_in16 i ltac:(lia)) as (Hx & Hy' & Hz).
  unfold fill_cell. destruct (bitmap_get m i) as [v|]; simpl; [|discriminate].
  destruct (section_set_block_spec s _ _ _
              (by_vanilla_id match block_map !! v with
                             | Some v0 => (v0 mod 2 ^ 64)%Z
                             | None => Z.of_nat v end) Hs Hx Hy' Hz)
    as (s2 & Hset & Hinv2 & _ & _ & Hk2 & Hy2 & _).
  rewrite Hset. intros [= <-]. split_and!; congruence.
Qed.

Lemma read_exact_length (buf : list Z) (c : list Byte.byte) :
  length (read_exact buf c).1.1 = length buf.
Proof.
  unfold read_exact. destruct (Nat.leb_spec (length buf) (length c)); simpl;
    rewrite ?length_map, ?length_app, ?length_drop, ?length_take, ?length_map; lia.
Qed.

Lemma load_section_inv (sec : Section) (data : list Byte.byte) :
  sec_inv sec ->
  match load_section sec data with
  | LOk s _ | LErr s _ => sec_place (sec_y sec) (sec_key sec) s
  | LPanic => True
  end.
Proof.
  intros Hinv. unfold load_section.
  set (sec0 := section_set_flags sec true (sec_building sec)).
  assert (H0 : sec_place (sec_y sec) (sec_key sec) sec0).
  { split_and!; [by apply sec_inv_set_flags|done|done]. }
  destruct (read_u8 data) as [[bs d1]|e]; [|exact H0].
  destruct (if Z.leb bs 8 then read_palette d1 else inl (∅, d1)) as [[bmap d2]|e];
    [|exact H0].
  destruct (read_lenprefixed_u64 d2) as [[bits d3]|e]; [|exact H0].
  destruct (fill_section (bitmap_from_raw bits bs) bmap sec0) as [s1|] eqn:Ef; [|done].
  pose proof (fill_section_inv _ _ _ _ (proj1 H0) Ef) as (Hi1 & Hy1 & Hk1).
  destruct H0 as (_ & Hy0 & Hk0).
  pose proof (read_exact_length (nib_data (sec_block_light s1)) d3) as Hl1.
  destruct (read_exact (nib_data (sec_block_light s1)) d3) as [[bl d4] r] eqn:Er1.
  simpl in Hl1. destruct (inv_light _ Hi1) as [Hbl Hsl].
  assert (H2 : sec_place (sec_y sec) (sec_key sec)
                 (section_set_lights s1 (mkNibble bl) (sec_sky_light s1))).
  { split_and!; [apply sec_inv_set_lights; simpl; congruence|simpl; congruence
                |simpl; congruence]. }
  destruct r as [e|]; [exact H2|].
  cbn [sec_sky_light section_set_lights].
  pose proof (read_exact_length (nib_data (sec_sky_light s1)) d4) as Hl2.
  destruct (read_exact (nib_data (sec_sky_light s1)) d4) as [[sl d5] r] eqn:Er2.
  simpl in Hl2. destruct H2 as (Hi2 & Hy2 & Hk2).
  destruct r as [e|]; (split_and!; [apply sec_inv_set_lights; simpl; try congruence;
                                   exact (proj1 (inv_light _ Hi2))
                                  |simpl; congruence|simpl; congruence]).
Qed.

Lemma load_sections_wf (x z mask : Z) (slots : list nat) (c : Chunk)
    (data : list Byte.byte) :
  chunk_wf (x, z) c ->
  match load_sections x z mask slots c data with
  | LOk c' _ | LErr c' _ => chunk_wf (x, z) c'
  | LPanic => True
  end.
Proof.
  revert c data. induction slots as [|i slots IH]; intros c data Hc; simpl; [done|].
  destruct (negb (mask_bit mask i)); [by apply IH|].
  destruct (chunk_sections c !! i) as [os|] eqn:Ei; [|done].
  set (sec := match os with Some sec => sec | None => section_new x (Z.of_nat i) z end).
  assert (Hsec : sec_place (Z.of_nat i) (x, Z.of_nat i, z) sec).
  { destruct os as [s|]; unfold sec.
    - destruct Hc as (_ & _ & Hs). exact (Hs _ _ Ei).
    - split_and!; [apply section_new_inv|reflexivity|reflexivity]. }
  destruct Hsec as (Hi & Hy & Hk).
  pose proof (load_section_inv sec data Hi) as Hl.
  destruct (load_section sec data) as [s' d'|s' e|]; [| |done];
    destruct Hl as (Hi' & Hy' & Hk'); rewrite Hy in Hy'; rewrite Hk in Hk'.
  - apply IH. apply chunk_set_section_wf; [exact Hc|exact Hi'|exact Hy'|exact Hk'].
  - apply chunk_set_section_wf; [exact Hc|exact Hi'|exact Hy'|exact Hk'].
Qed.

Lemma load_chunk_wf (w w' : World) (x z : Z) (new : bool) (mask : Z)
    (data : list Byte.byte) (r : LoadResult) :
  world_wf w -> load_chunk w x z new mask data = Some (w', r) -> world_wf w'.
Proof.
  intros Hwf. unfold load_chunk.
  assert (Htail : forall w1, world_wf w1 ->
            match w1 !! (x, z) with
            | None => None
            | Some chunk =>
                match load_sections x z mask (seq 0 16) chunk data with
                | LPanic => None
                | LErr chunk' e => Some (<[(x, z) := chunk']> w1, LoadErr e)
                | LOk chunk' _ =>
                    Some (flag_neighbours (<[(x, z) := chunk']> w1) x z mask, LoadOk)
                end
            end = Some (w', r) -> world_wf w').
  { intros w1 Hw1. destruct (w1 !! (x, z)) as [c|] eqn:Ec; [|discriminate].
    pose proof (load_sections_wf x z mask (seq 0 16) c data (Hw1 _ _ Ec)) as Hl.
    destruct (load_sections x z mask (seq 0 16) c data); [..|discriminate].
    - intros [= <- _]. apply flag_neighbours_wf. by apply world_wf_insert.
    - intros [= <- _]. by apply world_wf_insert. }
  destruct new.
  - apply Htail. apply world_wf_insert; [done|apply chunk_new_wf].
  - destruct (w !! (x, z)) eqn:E; [by apply Htail|]. by intros [= <- _].
Qed.

Lemma reachable_wf (w : World) : world_reachable w -> world_wf w.
Proof.
  induction 1.
  - apply world_new_wf.
  - destruct (world_set_block_spec w x y z b IHworld_reachable) as (w2 & E & Hw2 & _).
    assert (w2 = w') as <- by congruence. exact Hw2.
  - eapply load_chunk_wf; eauto.
  - eapply set_building_flag_wf; eauto.
  - eapply reset_building_flag_wf; eauto.
  - by apply flag_dirty_all_wf.
  - by apply unload_chunk_wf.
Qed.

(** ** Sums of reference counts *)

Lemma zsum_counts (bm : list (Block * Z)) (g : nat -> Z) (k : nat) :
  (forall i e, bm !! i = Some e -> e.2 = g (k + i)) ->
  fold_right (fun e acc => (e.2 + acc)%Z) 0%Z bm
  = fold_right (fun i acc => (g i + acc)%Z) 0%Z (seq k (length bm)).
Proof.
  revert k. induction bm as [|e bm IH]; intros k H; simpl; [done|].
  rewrite (H 0 e eq_refl), Nat.add_0_r. f_equal. apply IH.
  intros i e' Hi. rewrite (H (S i) e' Hi). f_equal. lia.
Qed.

Lemma zsum_ext (f g : nat -> Z) (l : list nat) :
  (forall i, f i = g i) ->
  fold_right (fun i acc => (f i + acc)%Z) 0%Z l = fold_right (fun i acc => (g i + acc)%Z) 0%Z l.
Proof. intros H. induction l as [|a l IH]; simpl; [done|]. by rewrite H, IH. Qed.

Lemma zsum_plus (f g : nat -> Z) (l : list nat) :
  fold_right (fun i acc => (f i + g i + acc)%Z) 0%Z l
  = (fold_right (fun i acc => (f i + acc)%Z) 0%Z l
     + fold_right (fun i acc => (g i + acc)%Z) 0%Z l)%Z.
Proof. induction l as [|a l IH]; simpl; lia. Qed.

Lemma zsum_indicator (v k n : nat) :
  fold_right (fun i acc => ((if Nat.eqb v i then 1 else 0) + acc)%Z) 0%Z (seq k n)
  = if (k <=? v) && (v <? k + n) then 1%Z else 0%Z.
Proof.
  revert k. induction n as [|n IH]; intros k; simpl.
  - destruct (Nat.leb_spec k v), (Nat.ltb_spec v (k + 0)); simpl; lia.
  - rewrite IH.
    destruct (Nat.eqb_spec v k), (Nat.leb_spec k v), (Nat.ltb_spec v (k + S n)),
      (Nat.leb_spec (S k) v), (Nat.ltb_spec v (S k + n)); simpl; lia.
Qed.

Lemma zsum_occ (l : list nat) (n : nat) :
  (forall v, In v l -> v < n) ->
  fold_right (fun i acc => (Z.of_nat (occ i l) + acc)%Z) 0%Z (seq 0 n)
  = Z.of_nat (length l).
Proof.
  induction l as [|v l IH]; intros Hl; simpl.
  - induction (seq 0 n); simpl; lia.
  - rewrite (zsum_ext _ (fun i => (if Nat.eqb v i then 1 else 0) + Z.of_nat (occ i l))%Z).
    2: { intros i. destruct (Nat.eqb v i); simpl; lia. }
    rewrite zsum_plus, zsum_indicator, IH by (intros; apply Hl; by right).
    pose proof (Hl v (or_introl eq_refl)).
    destruct (Nat.leb_spec 0 v), (Nat.ltb_spec v (0 + n)); simpl; lia.
Qed.

Lemma zsum_offset_S (k m : nat) :
  fold_right (fun i acc => (count_offset i + acc)%Z) 0%Z (seq (S k) m) = 0%Z.
Proof.
  revert k. induction m as [|m IH]; intros k; simpl; [done|].
  rewrite count_offset_S. rewrite (IH (S k)). done.
Qed.

Lemma sec_inv_count_sum (s : Section) : sec_inv s -> palette_count_sum s = u32_max.
Proof.
  intros Hinv. unfold palette_count_sum.
  rewrite (zsum_counts _ (fun i => Z.of_nat (occ i (bm_data (sec_blocks s))) + count_offset i)%Z 0)
    by (intros i e Hi; exact (inv_counts _ Hinv i e Hi)).
  rewrite zsum_plus, zsum_occ, (inv_len _ Hinv).
  2: { intros v Hv. apply list_elem_of_In, list_elem_of_lookup in Hv as [k Hk].
       exact (inv_data_lt _ Hinv k v Hk). }
  destruct (inv_air _ Hinv) as [c Hc].
  destruct (sec_block_map s) as [|e bm]; [done|]. simpl.
  rewrite zsum_offset_S, count_offset_0. lia.
Qed.

(** ** Sections of a world *)

Lemma section_at_wf (w : World) (cpos : Z * Z) (i : nat) (sec : Section) :
  world_wf w -> section_at w cpos i = Some sec ->
  sec_place (Z.of_nat i) (cpos.1, Z.of_nat i, cpos.2) sec /\ i < 16 /\
  exists c, w !! cpos = Some c /\ chunk_sections c !! i = Some (Some sec).
Proof.
  intros Hwf. unfold section_at.
  destruct (w !! cpos) as [c|] eqn:Ec; simpl; [|discriminate].
  destruct (chunk_sections c !! i) as [os|] eqn:Ei; simpl; [|discriminate].
  destruct os as [s|]; [|discriminate]. intros [= <-].
  destruct (Hwf _ _ Ec) as (Hp & Hl & Hs).
  split_and!; [exact (Hs _ _ Ei)|apply lookup_lt_Some in Ei; lia|eauto].
Qed.

Lemma section_at_insert (w : World) (cpos : Z * Z) (c : Chunk) (i : nat) (os : option Section)
    (s : Section) :
  chunk_sections c !! i = Some os ->
  section_at (<[cpos := chunk_set_section c i (Some s)]> w) cpos i = Some s.
Proof.
  intros Ei. unfold section_at. rewrite lookup_insert_eq. simpl.
  rewrite list_lookup_insert_eq; [done|]. by apply lookup_lt_Some in Ei.
Qed.

Lemma update_section_at (w : World) (cpos : Z * Z) (i : nat) (sec : Section)
    (f : Section -> Section) :
  section_at w cpos i = Some sec -> i < 16 ->
  exists c, w !! cpos = Some c /\ chunk_sections c !! i = Some (Some sec) /\
    update_section w (cpos.1, Z.of_nat i, cpos.2) f
    = Some (<[cpos := chunk_set_section c i (Some (f sec))]> w).
Proof.
  intros Hat Hi. unfold section_at in Hat.
  destruct (w !! cpos) as [c|] eqn:Ec; simpl in Hat; [|discriminate].
  destruct (chunk_sections c !! i) as [os|] eqn:Ei; simpl in Hat; [|discriminate].
  subst os. exists c. split_and!; [done|done|].
  destruct cpos as [cx cz]. unfold update_section. simpl. rewrite Ec.
  assert (Hr : slot_out_of_range (Z.of_nat i) = false).
  { apply slot_out_of_range_false. unfold in16. lia. }
  rewrite Hr, Nat2Z.id, Ei. done.
Qed.

Lemma section_get_block_set_flags (s : Section) (d b : bool) (x y z : Z) :
  section_get_block (section_set_flags s d b) x y z = section_get_block s x y z.
Proof. reflexivity. Qed.

Lemma world_set_block_at (w : World) (cpos : Z * Z) (i : nat) (sec : Section)
    (x y z : Z) (b : Block) :
  world_wf w -> section_at w cpos i = Some sec ->
  (Z.shiftr x 4, Z.shiftr z 4) = cpos -> Z.shiftr y 4 = Z.of_nat i ->
  world_get_block w x y z = section_get_block sec (Z.land x 15) (Z.land y 15) (Z.land z 15) /\
  exists c s', w !! cpos = Some c /\ chunk_sections c !! i = Some (Some sec) /\
    section_set_block sec (Z.land x 15) (Z.land y 15) (Z.land z 15) b = Some s' /\
    world_set_block w x y z b = Some (<[cpos := chunk_set_section c i (Some s')]> w).
Proof.
  intros Hwf Hat Hc Hy.
  destruct (section_at_wf w cpos i sec Hwf Hat) as ((Hinv & _ & _) & Hi & c & Ec & Ei).
  assert (Hr : slot_out_of_range (Z.shiftr y 4) = false).
  { apply slot_out_of_range_false. rewrite Hy. unfold in16. lia. }
  split.
  { unfold world_get_block. rewrite Hc, Ec. unfold chunk_get_block.
    rewrite Hr, Hy, Nat2Z.id, Ei. done. }
  destruct (section_set_block_spec sec (Z.land x 15) (Z.land y 15) (Z.land z 15) b Hinv
              (land15_in16 x) (land15_in16 y) (land15_in16 z)) as (s' & Hset & _).
  exists c, s'. split_and!; [done|done|done|].
  unfold world_set_block. rewrite Hc, Ec. simpl. rewrite Ec. simpl.
  unfold chunk_set_block. rewrite Hr, Hy, Nat2Z.id, Ei. simpl.
  rewrite Hset. done.
Qed.

Lemma in_get_dirty (w : World) (e : Z * Z * Z * (Z * Z * Z)) :
  In e (get_dirty_chunk_sections w) <->
  exists pos c j sec, w !! pos = Some c /\ chunk_sections c !! j = Some (Some sec) /\
    sec_building sec = false /\ sec_dirty sec = true /\
    e = ((chunk_position c).1, sec_y sec, (chunk_position c).2, sec_key sec).
Proof.
  unfold get_dirty_chunk_sections, dirty_entries_of_chunk. rewrite in_flat_map. split.
  - intros ([pos c] & Hin & He). apply list_elem_of_In, elem_of_map_to_list in Hin.
    simpl in He. rewrite in_flat_map in He. destruct He as (os & Hos & He').
    apply list_elem_of_In, list_elem_of_lookup in Hos as [j Hj].
    destruct os as [sec|]; [|contradiction].
    destruct (negb (sec_building sec) && sec_dirty sec) eqn:Eb; [|contradiction].
    destruct He' as [<-|[]]. apply andb_true_iff in Eb as [Hb Hd].
    apply negb_true_iff in Hb. exists pos, c, j, sec. done.
  - intros (pos & c & j & sec & Hc & Hj & Hb & Hd & ->). exists (pos, c). split.
    + apply list_elem_of_In, elem_of_map_to_list. done.
    + simpl. apply in_flat_map. exists (Some sec). split.
      * apply list_elem_of_In, list_elem_of_lookup. eauto.
      * rewrite Hb, Hd. simpl. by left.
Qed.

(** * The claims *)

(** C1 (counterexample): a fresh section has one palette entry, air, with the
    count 0xFFFFFFFF, so its palette counts sum to 4294967295, not 4096; after
    one write of another block the sum is still 4294967295. *)
Lemma palette_count_sum_not_4096 :
  palette_count_sum (section_new 0 0 0) = 4294967295%Z /\
  option_map palette_count_sum (section_at demo_world (0, 0)%Z 0) = Some 4294967295%Z.
Proof. split; vm_compute; reflexivity. Qed.

(** C1 (amended): in every section of a world reachable from [World::new]
    through [set_block], [load_chunk] and the flag and unload operations, the
    palette reference counts sum to 0xFFFFFFFF = 4294967295: the 4096 cell
    references plus the 0xFFFFFFFF - 4096 surplus of the air entry in slot 0,
    whose count starts at 0xFFFFFFFF. *)
Theorem palette_count_sum_reachable (w : World) (cpos : Z * Z) (i : nat) (sec : Section) :
  world_reachable w -> section_at w cpos i = Some sec ->
  palette_count_sum sec = u32_max.
Proof.
  intros Hr Hat.
  destruct (section_at_wf w cpos i sec (reachable_wf w Hr) Hat) as ((Hinv & _) & _).
  by apply sec_inv_count_sum.
Qed.

Lemma palette_count_sum_reachable_witness :
  palette_count_sum demo_section = u32_max.
Proof.
  apply (palette_count_sum_reachable demo_world (0, 0)%Z 0 demo_section).
  - apply (wr_set_block world_new 0 0 0 (Other 1)); [constructor|vm_compute; reflexivity].
  - vm_compute. reflexivity.
Defined.

(** C2: in a world reachable from [World::new], writing a block [v] at a
    position whose vertical slot [y >> 4] lies in [0, 16) and then reading the
    same position returns [v]. *)
Theorem world_set_get (w : World) (x y z : Z) (v : Block) :
  world_reachable w -> in16 (Z.shiftr y 4) ->
  exists w', world_set_block w x y z v = Some w' /\ world_get_block w' x y z = Some v.
Proof.
  intros Hr Hs.
  destruct (world_set_block_spec w x y z v (reachable_wf w Hr)) as (w' & E & _ & G).
  eauto.
Qed.

Lemma world_set_get_witness :
  exists w', world_set_block demo_world 21 37 (-5) (Other 7) = Some w' /\
             world_get_block w' 21 37 (-5) = Some (Other 7).
Proof.
  apply (world_set_get demo_world 21 37 (-5) (Other 7)).
  - apply (wr_set_block world_new 0 0 0 (Other 1)); [constructor|vm_compute; reflexivity].
  - unfold in16. change (Z.shiftr 37 4) with 2%Z. lia.
Defined.

(** C3 (counterexample): writing into a fresh, clean section the value its
    cell already holds (air) returns before the dirty flag is touched: the
    section stays clean. *)
Lemma set_block_same_value_stays_clean :
  option_map sec_dirty (section_set_block (section_new 0 0 0) 1 2 3 Air) = Some false.
Proof. vm_compute. reflexivity. Qed.

(** C3 (amended): [Section::set_block] sets the dirty flag (and leaves the
    building flag as it was) whenever the written value differs from the
    cell's current value; writing the value the cell already holds leaves
    the section unchanged, dirty flag included. *)
Theorem section_set_block_dirty (s : Section) (x y z : Z) (b : Block) :
  sec_inv s -> in16 x -> in16 y -> in16 z ->
  exists s', section_set_block s x y z b = Some s' /\
    (section_get_block s x y z <> Some b ->
       sec_dirty s' = true /\ sec_building s' = sec_building s) /\
    (section_get_block s x y z = Some b -> s' = s).
Proof.
  intros Hinv Hx Hy Hz.
  destruct (section_set_block_spec s x y z b Hinv Hx Hy Hz)
    as (s' & Hset & _ & _ & _ & _ & _ & Hb & _ & _ & Hcase).
  exists s'. split_and!; [done| |].
  - intros Hne. destruct Hcase as [[? _]|[_ Hd]]; [contradiction|done].
  - intros Heq. destruct Hcase as [[_ ?]|[Hne _]]; [done|contradiction].
Qed.

Lemma section_set_block_dirty_witness :
  exists s', section_set_block (section_new 0 0 0) 1 2 3 (Other 4) = Some s' /\
    (section_get_block (section_new 0 0 0) 1 2 3 <> Some (Other 4) ->
       sec_dirty s' = true /\ sec_building s' = sec_building (section_new 0 0 0)) /\
    (section_get_block (section_new 0 0 0) 1 2 3 = Some (Other 4) -> s' = section_new 0 0 0).
Proof.
  apply (section_set_block_dirty (section_new 0 0 0) 1 2 3 (Other 4)
           (section_new_inv 0 0 0)); unfold in16; lia.
Defined.

(** C4: take a section of a reachable world.  [set_building_flag] leaves it
    with dirty = false and building = true; a following [World::set_block]
    into it of a value different from the cell's current one sets dirty =
    true while building stays true, and [get_dirty_chunk_sections] does not
    list the section; after [reset_building_flag] it has dirty = true and
    building = false and is listed again. *)
Theorem building_flag_dirty_cycle (w : World) (cpos : Z * Z) (i : nat) (sec : Section)
    (x y z : Z) (b : Block) :
  world_reachable w -> section_at w cpos i = Some sec ->
  (Z.shiftr x 4, Z.shiftr z 4) = cpos -> Z.shiftr y 4 = Z.of_nat i ->
  world_get_block w x y z <> Some b ->
  exists w1 w2 w3 s1 s2 s3,
    set_building_flag w (cpos.1, Z.of_nat i, cpos.2) = Some w1 /\
    section_at w1 cpos i = Some s1 /\ sec_dirty s1 = false /\ sec_building s1 = true /\
    world_set_block w1 x y z b = Some w2 /\
    section_at w2 cpos i = Some s2 /\ sec_dirty s2 = true /\ sec_building s2 = true /\
    ~ In (cpos.1, Z.of_nat i, cpos.2, (cpos.1, Z.of_nat i, cpos.2))
         (get_dirty_chunk_sections w2) /\
    reset_building_flag w2 (cpos.1, Z.of_nat i, cpos.2) = Some w3 /\
    section_at w3 cpos i = Some s3 /\ sec_dirty s3 = true /\ sec_building s3 = false /\
    In (cpos.1, Z.of_nat i, cpos.2, (cpos.1, Z.of_nat i, cpos.2))
       (get_dirty_chunk_sections w3).
Proof.
  intros Hr Hat Hc Hy Hne.
  pose proof (reachable_wf w Hr) as Hwf.
  destruct (section_at_wf w cpos i sec Hwf Hat) as ((Hinv & Hsy & Hsk) & Hi & _).
  (* set_building_flag *)
  destruct (update_section_at w cpos i sec (fun sec => section_set_flags sec false true) Hat Hi)
    as (c & Ec & Ei & Hu1).
  set (s1 := section_set_flags sec false true).
  set (w1 := <[cpos := chunk_set_section c i (Some s1)]> w).
  assert (Hw1 : world_wf w1).
  { eapply set_building_flag_wf; [exact Hwf|exact Hu1]. }
  assert (Hat1 : section_at w1 cpos i = Some s1) by (eapply section_at_insert; exact Ei).
  (* set_block *)
  destruct (world_set_block_at w1 cpos i s1 x y z b Hw1 Hat1 Hc Hy)
    as (Hget1 & c1 & s2 & Ec1 & Ei1 & Hset & Hws).
  assert (Hget0 : world_get_block w x y z
                  = section_get_block sec (Z.land x 15) (Z.land y 15) (Z.land z 15)).
  { exact (proj1 (world_set_block_at w cpos i sec x y z b Hwf Hat Hc Hy)). }
  assert (Hinv1 : sec_inv s1) by (apply sec_inv_set_flags; done).
  destruct (section_set_block_spec s1 (Z.land x 15) (Z.land y 15) (Z.land z 15) b Hinv1
              (land15_in16 x) (land15_in16 y) (land15_in16 z))
    as (s2' & Hset' & _ & _ & _ & Hk2 & Hy2 & Hb2 & _ & _ & Hcase).
  rewrite Hset in Hset'. injection Hset' as <-.
  destruct Hcase as [[Hsame _]|[_ Hd2]].
  { exfalso. apply Hne. rewrite Hget0, <- Hsame. reflexivity. }
  set (w2 := <[cpos := chunk_set_section c1 i (Some s2)]> w1).
  assert (Hw2 : world_wf w2).
  { destruct (world_set_block_spec w1 x y z b Hw1) as (w2' & E & Hw2' & _).
    rewrite Hws in E. injection E as <-. exact Hw2'. }
  assert (Hat2 : section_at w2 cpos i = Some s2) by (eapply section_at_insert; exact Ei1).
  (* reset_building_flag *)
  destruct (update_section_at w2 cpos i s2 (fun sec => section_set_flags sec (sec_dirty sec) false)
              Hat2 Hi) as (c2 & Ec2 & Ei2 & Hu3).
  set (s3 := section_set_flags s2 (sec_dirty s2) false).
  set (w3 := <[cpos := chunk_set_section c2 i (Some s3)]> w2).
  assert (Hw3 : world_wf w3).
  { eapply reset_building_flag_wf; [exact Hw2|exact Hu3]. }
  assert (Hat3 : section_at w3 cpos i = Some s3) by (eapply section_at_insert; exact Ei2).
  exists w1, w2, w3, s1, s2, s3. split_and!; try done.
  - (* not listed while building *)
    rewrite in_get_dirty. intros (pos & c' & j & sec' & Ec' & Ej & Hb' & _ & He).
    destruct (Hw2 _ _ Ec') as (Hp & _ & Hs'). destruct (Hs' _ _ Ej) as (_ & Hy' & Hk').
    rewrite Hp, Hy' in He. injection He as E1 E2 E3 _.
    assert (pos = cpos) as ->. { destruct pos, cpos. simpl in *. congruence. }
    assert (j = i) as -> by lia.
    assert (section_at w2 cpos i = Some sec') as Hat'.
    { unfold section_at. rewrite Ec'. simpl. rewrite Ej. done. }
    rewrite Hat2 in Hat'. injection Hat' as <-. rewrite Hb2 in Hb'. discriminate Hb'.
  - (* listed again after the reset *)
    rewrite in_get_dirty.
    destruct (section_at_wf w3 cpos i s3 Hw3 Hat3) as ((_ & Hy3 & Hk3) & _ & c3 & Ec3 & Ei3).
    destruct (Hw3 _ _ Ec3) as (Hp3 & _).
    exists cpos, c3, i, s3. split_and!; try done.
    rewrite Hp3, Hy3, Hk3. done.
Qed.

Lemma building_flag_dirty_cycle_witness :
  exists w1 w2 w3 s1 s2 s3,
    set_building_flag demo_world (0, Z.of_nat 0, 0)%Z = Some w1 /\
    section_at w1 (0, 0)%Z 0 = Some s1 /\ sec_dirty s1 = false /\ sec_building s1 = true /\
    world_set_block w1 1 2 3 (Other 2) = Some w2 /\
    section_at w2 (0, 0)%Z 0 = Some s2 /\ sec_dirty s2 = true /\ sec_building s2 = true /\
    ~ In (0, Z.of_nat 0, 0, (0, Z.of_nat 0, 0))%Z (get_dirty_chunk_sections w2) /\
    reset_building_flag w2 (0, Z.of_nat 0, 0)%Z = Some w3 /\
    section_at w3 (0, 0)%Z 0 = Some s3 /\ sec_dirty s3 = true /\ sec_building s3 = false /\
    In (0, Z.of_nat 0, 0, (0, Z.of_nat 0, 0))%Z (get_dirty_chunk_sections w3).
Proof.
  apply (building_flag_dirty_cycle demo_world (0, 0)%Z 0 demo_section 1 2 3 (Other 2)).
  - apply (wr_set_block world_new 0 0 0 (Other 1)); [constructor|vm_compute; reflexivity].
  - vm_compute. reflexivity.
  - reflexivity.
  - reflexivity.
  - vm_compute. discriminate.
Defined.

(** C5 (counterexample): in a loaded column, a read whose vertical slot
    [y >> 4] lies outside [0, 16) returns the "missing" sentinel. *)
Lemma loaded_column_out_of_range_missing :
  is_chunk_loaded demo_world 0 0 = true /\
  world_get_block demo_world 0 300 0 = Some Missing /\
  world_get_block demo_world 0 (-1) 0 = Some Missing.
Proof. split_and!; vm_compute; reflexivity. Qed.

(** C5 (amended): [World::get_block] returns the "missing" sentinel when the
    column is not loaded, and also, in a loaded column, when the vertical
    slot [y >> 4] lies outside [0, 16); in a loaded column whose in-range
    slot holds no section it returns air. *)
Theorem world_get_block_sentinels (w : World) (x y z : Z) :
  (w !! (Z.shiftr x 4, Z.shiftr z 4) = None -> world_get_block w x y z = Some Missing) /\
  (forall c, w !! (Z.shiftr x 4, Z.shiftr z 4) = Some c -> ~ in16 (Z.shiftr y 4) ->
     world_get_block w x y z = Some Missing) /\
  (forall c, w !! (Z.shiftr x 4, Z.shiftr z 4) = Some c -> in16 (Z.shiftr y 4) ->
     chunk_sections c !! Z.to_nat (Z.shiftr y 4) = Some None ->
     world_get_block w x y z = Some Air).
Proof.
  unfold world_get_block, chunk_get_block. split_and!.
  - intros E. by rewrite E.
  - intros c E Hs. rewrite E.
    destruct (slot_out_of_range (Z.shiftr y 4)) eqn:Er; [done|].
    apply slot_out_of_range_false in Er. contradiction.
  - intros c E Hs Ei. rewrite E. apply slot_out_of_range_false in Hs. by rewrite Hs, Ei.
Qed.

Lemma world_get_block_sentinels_witness :
  world_get_block demo_world 0 40 0 = Some Air.
Proof.
  destruct (world_get_block_sentinels demo_world 0 40 0) as (_ & _ & H).
  apply (H (match demo_world !! (0, 0)%Z with Some c => c | None => chunk_new (0, 0)%Z end)).
  - vm_compute. reflexivity.
  - unfold in16. change (Z.shiftr 40 4) with 2%Z. lia.
  - vm_compute. reflexivity.
Defined.

(** C6: in every section of a reachable world, two palette slots that are
    both live (reference count > 0) and hold the same block are the same
    slot. *)
Theorem palette_no_live_duplicates (w : World) (cpos : Z * Z) (i : nat) (sec : Section)
    (j j' : nat) (b : Block) (cj cj' : Z) :
  world_reachable w -> section_at w cpos i = Some sec ->
  sec_block_map sec !! j = Some (b, cj) -> sec_block_map sec !! j' = Some (b, cj') ->
  (0 < cj)%Z -> (0 < cj')%Z -> j = j'.
Proof.
  intros Hr Hat Hj Hj' Hc Hc'.
  destruct (section_at_wf w cpos i sec (reachable_wf w Hr) Hat) as ((Hinv & _) & _).
  assert (H1 : sec_rev_block_map sec !! b = Some j) by (apply (inv_rev _ Hinv); by exists cj).
  assert (H2 : sec_rev_block_map sec !! b = Some j') by (apply (inv_rev _ Hinv); by exists cj').
  congruence.
Qed.

Lemma palette_no_live_duplicates_witness : 1 = 1.
Proof.
  apply (palette_no_live_duplicates demo_world (0, 0)%Z 0 demo_section 1 1 (Other 1) 1 1).
  - apply (wr_set_block world_new 0 0 0 (Other 1)); [constructor|vm_compute; reflexivity].
  - vm_compute. reflexivity.
  - vm_compute. reflexivity.
  - vm_compute. reflexivity.
  - lia.
  - lia.
Defined.

(** C10: [set_building_flag] on any existing section sets building = true
    and dirty = false whatever its flags were before, and changes nothing
    else of the section. *)
Theorem set_building_flag_unconditional (w : World) (cpos : Z * Z) (i : nat) (sec : Section) :
  section_at w cpos i = Some sec -> i < 16 ->
  exists w' s', set_building_flag w (cpos.1, Z.of_nat i, cpos.2) = Some w' /\
    section_at w' cpos i = Some s' /\
    sec_building s' = true /\ sec_dirty s' = false /\
    s' = mkSection (sec_key sec) (sec_y sec) (sec_blocks sec) (sec_block_map sec)
           (sec_rev_block_map sec) (sec_block_light sec) (sec_sky_light sec) false true.
Proof.
  intros Hat Hi.
  destruct (update_section_at w cpos i sec (fun sec => section_set_flags sec false true) Hat Hi)
    as (c & Ec & Ei & Hu).
  eexists _, _. split_and!; [exact Hu|eapply section_at_insert; exact Ei|done|done|done].
Qed.

Lemma set_building_flag_unconditional_witness :
  exists w' s', set_building_flag demo_world (0, Z.of_nat 0, 0)%Z = Some w' /\
    section_at w' (0, 0)%Z 0 = Some s' /\
    sec_building s' = true /\ sec_dirty s' = false /\
    s' = mkSection (sec_key demo_section) (sec_y demo_section) (sec_blocks demo_section)
           (sec_block_map demo_section) (sec_rev_block_map demo_section)
           (sec_block_light demo_section) (sec_sky_light demo_section) false true.
Proof.
  apply (set_building_flag_unconditional demo_world (0, 0)%Z 0 demo_section).
  - vm_compute. reflexivity.
  - lia.
Defined.

(** ** Filling a fresh section with distinct values *)

Lemma find_free_ones (l : list (Z * Z * Z * Block)) :
  find_free (map (fun op => (op.2, 1%Z)) l) = None.
Proof. induction l as [|op l IH]; simpl; [done|]. by rewrite IH. Qed.

Lemma insert_last {A} (l : list A) (x y : A) : <[length l := x]> (l ++ [y]) = l ++ [x].
Proof. induction l as [|a l IH]; simpl; [done|]. by rewrite IH. Qed.

Lemma lookup_repeat_lt {A} (a : A) (n i : nat) : i < n -> repeat a n !! i = Some a.
Proof. revert i. induction n as [|n IH]; intros [|i] Hi; simpl; try lia; auto with lia. Qed.

Lemma section_new_get (x y z cx cy cz : Z) :
  in16 cx -> in16 cy -> in16 cz -> section_get_block (section_new x y z) cx cy cz = Some Air.
Proof.
  intros Hx Hy Hz. unfold section_get_block, bitmap_get, section_new, bitmap_new.
  cbn [sec_blocks bm_data sec_block_map].
  rewrite lookup_repeat_lt by (apply sec_index_lt; done). reflexivity.
Qed.

Lemma fill_step (pre : list (Z * Z * Z * Block)) (s : Section) (cx cy cz : Z) (b : Block) :
  sec_inv s ->
  sec_block_map s = (Air, u32_max - Z.of_nat (length pre))%Z :: map (fun op => (op.2, 1%Z)) pre ->
  bit_size (sec_blocks s) = width_after (length pre) ->
  section_get_block s cx cy cz = Some Air ->
  b <> Air -> ~ In b (map snd pre) -> length pre < 255 ->
  exists s', section_set_block s cx cy cz b = Some s' /\
    sec_block_map s' = (Air, u32_max - Z.of_nat (S (length pre)))%Z
                       :: map (fun op => (op.2, 1%Z)) (pre ++ [(cx, cy, cz, b)]) /\
    bit_size (sec_blocks s') = width_after (S (length pre)).
Proof.
  intros Hinv Hbm Hbs Hget Hb Hnew Hlen.
  assert (Hlive0 : live (sec_block_map s) Air 0).
  { rewrite Hbm. exists (u32_max - Z.of_nat (length pre))%Z. split; [done|unfold u32_max; lia]. }
  assert (Hrb : sec_rev_block_map s !! b = None).
  { destruct (sec_rev_block_map s !! b) as [j|] eqn:E; [|done]. exfalso.
    apply (inv_rev _ Hinv) in E as (c & Hc & _). rewrite Hbm in Hc.
    destruct j as [|j]; simpl in Hc; [congruence|].
    rewrite lookup_map_list in Hc.
    destruct (pre !! j) as [op|] eqn:Ej; simpl in Hc; [|discriminate].
    injection Hc as Hb' _. apply Hnew. apply in_map_iff. exists op. split; [done|].
    apply list_elem_of_In, list_elem_of_lookup. eauto. }
  assert (Hw : wrap32 (u32_max - Z.of_nat (length pre) - 1)
               = (u32_max - Z.of_nat (length pre) - 1)%Z).
  { unfold wrap32, u32_max. apply Z.mod_small. lia. }
  assert (Hnz : Z.eqb (u32_max - Z.of_nat (length pre) - 1) 0 = false).
  { apply Z.eqb_neq. unfold u32_max. lia. }
  assert (Hw1 : wrap32 (0 + 1) = 1%Z) by reflexivity.
  unfold section_set_block. rewrite Hget. simpl.
  rewrite decide_False by congruence.
  rewrite (proj2 (inv_rev _ Hinv Air 0) Hlive0). simpl.
  rewrite Hbm. simpl. rewrite Hw, Hnz.
  unfold palette_alloc. rewrite Hrb. simpl. rewrite Hnz, find_free_ones. simpl.
  rewrite lookup_insert_eq. simpl.
  rewrite list_lookup_middle by done. simpl.
  eexists. split; [reflexivity|]. simpl. split.
  - rewrite Hw1, insert_last, map_app. simpl. f_equal. f_equal. lia.
  - rewrite length_map, Hbs. unfold width_after.
    destruct (Nat.leb_spec (length pre) 15) as [H1|H1];
      destruct (Nat.leb_spec (S (length pre)) 15) as [H2|H2]; try lia;
      destruct (decide _) as [Hd|Hd]; cbn [bit_size bitmap_resize];
      rewrite ?Hbs; unfold width_after;
      rewrite ?(proj2 (Nat.leb_le _ _) H1), ?(proj2 (Nat.leb_gt _ _) H1); try reflexivity;
      exfalso; cbn [Nat.pow Nat.mul Nat.add] in Hd; lia.
Qed.

Lemma fill_run (rest : list (Z * Z * Z * Block)) :
  forall pre s,
  sec_inv s ->
  sec_block_map s = (Air, u32_max - Z.of_nat (length pre))%Z :: map (fun op => (op.2, 1%Z)) pre ->
  bit_size (sec_blocks s) = width_after (length pre) ->
  Forall (fun op => op_cell_ok op /\ op.2 <> Air /\
                    section_get_block s op.1.1.1 op.1.1.2 op.1.2 = Some Air) rest ->
  NoDup (map snd (pre ++ rest)) ->
  NoDup (map op_index rest) ->
  length pre + length rest <= 255 ->
  exists s', section_set_blocks s rest
             = Some (map width_after (seq (S (length pre)) (length rest)), s') /\
    Forall (fun op => section_get_block s' op.1.1.1 op.1.1.2 op.1.2 = Some op.2) rest /\
    (forall cx cy cz, in16 cx -> in16 cy -> in16 cz -> ~ In (sec_index cx cy cz) (map op_index rest) ->
       section_get_block s' cx cy cz = section_get_block s cx cy cz).
Proof.
  induction rest as [|op rest IH]; intros pre s Hinv Hbm Hbs Hall Hnd Hidx Hlen.
  - exists s. split; [done|]. split; [constructor|done].
  - destruct op as [[[cx cy] cz] b]. cbn [fst snd] in *.
    apply Forall_cons in Hall as [[Hok [Hb Hget]] Hall'].
    destruct Hok as (Hx & Hy & Hz). cbn [fst snd] in *.
    assert (Hnew : ~ In b (map snd pre)).
    { rewrite map_app in Hnd. apply NoDup_app in Hnd as (_ & Hd & _).
      intros Hin. apply (Hd b); [by apply list_elem_of_In|]. simpl. left. }
    simpl in Hlen.
    destruct (fill_step pre s cx cy cz b Hinv Hbm Hbs Hget Hb Hnew ltac:(lia))
      as (s1 & Hset & Hbm1 & Hbs1).
    destruct (section_set_block_spec s cx cy cz b Hinv Hx Hy Hz)
      as (s1' & Hset' & Hinv1 & Hget1 & Hother & _).
    rewrite Hset in Hset'. injection Hset' as <-.
    simpl in Hidx. apply NoDup_cons in Hidx as [Hnin Hidx]. rewrite list_elem_of_In in Hnin.
    assert (Hall1 : Forall (fun op => op_cell_ok op /\ op.2 <> Air /\
                    section_get_block s1 op.1.1.1 op.1.1.2 op.1.2 = Some Air) rest).
    { apply Forall_forall. intros op Hop.
      apply Forall_forall with (x := op) in Hall' as (Hok & Hb' & Hg); [|done].
      split; [done|]. split; [done|].
      destruct Hok as (Hx' & Hy' & Hz').
      rewrite Hother; [done..|]. intros He. apply Hnin.
      change (op_index (cx, cy, cz, b)) with (sec_index cx cy cz).
      rewrite <- He. change (sec_index _ _ _) with (op_index op).
      apply in_map, list_elem_of_In. done. }
    assert (Hlen1 : length (pre ++ [(cx, cy, cz, b)]) = S (length pre))
      by (rewrite length_app; simpl; lia).
    destruct (IH (pre ++ [(cx, cy, cz, b)]) s1 Hinv1) as (s' & Hrun & Hback & Hkeep).
    + by rewrite Hlen1.
    + by rewrite Hlen1.
    + done.
    + by rewrite <- app_assoc.
    + done.
    + rewrite Hlen1. lia.
    + exists s'. rewrite Hlen1 in Hrun. simpl. rewrite Hset. simpl. rewrite Hrun. simpl.
      rewrite Hbs1. split; [done|]. split.
      * constructor; [|done]. cbn [fst snd]. rewrite Hkeep; [done..|].
        unfold op_index in Hnin. exact Hnin.
      * intros ex ey ez Hex Hey Hez Hn. simpl in Hn.
        rewrite Hkeep by (try done; intros Hi; apply Hn; right; done).
        apply Hother; [done..|]. intros He. apply Hn. left. unfold op_index. simpl. done.
Qed.

Lemma width_trace_17 : map width_after (seq 1 17) = repeat 4 15 ++ [8; 8].
Proof. reflexivity. Qed.

Lemma map_fmap {A B} (f : A -> B) (l : list A) : map f l = f <$> l.
Proof. induction l as [|a l IH]; simpl; [done|]. by rewrite IH. Qed.

Lemma set_blocks_last (ops : list (Z * Z * Z * Block)) :
  forall s tr s', section_set_blocks s ops = Some (tr, s') -> ops <> [] ->
  last tr = Some (bit_size (sec_blocks s')).
Proof.
  induction ops as [|[[[a b] c] v] l IH]; intros s tr s' Hr Hne; [done|].
  simpl in Hr. destruct (section_set_block s a b c v) as [s1|]; [|discriminate].
  simpl in Hr. destruct (section_set_blocks s1 l) as [[tr1 s2]|] eqn:E; [|discriminate].
  simpl in Hr. injection Hr as <- <-.
  destruct l as [|op l].
  - simpl in E. by injection E as <- <-.
  - rewrite last_cons. rewrite (IH s1 tr1 s2 E) by done. done.
Qed.

(** C7: starting from [Section::new], writing 17 pairwise distinct non-air
    values into 17 distinct in-range cells leaves the packed array at width 4
    for the first 15 writes and at width 8 after the 16th and 17th: exactly
    one doubling, from 4 to 8.  Afterwards every written cell reads back the
    value written to it. *)
Theorem section_fill_17_one_resize (x y z : Z) (ops : list (Z * Z * Z * Block)) :
  length ops = 17 ->
  NoDup (snd <$> ops) ->
  Forall (fun op => op.2 <> Air) ops ->
  NoDup (op_cell <$> ops) ->
  Forall op_cell_ok ops ->
  exists s', section_set_blocks (section_new x y z) ops = Some (repeat 4 15 ++ [8; 8], s') /\
    bit_size (sec_blocks s') = 8 /\
    Forall (fun op => section_get_block s' op.1.1.1 op.1.1.2 op.1.2 = Some op.2) ops.
Proof.
  intros Hlen Hvals Hna Hcells Hok.
  assert (Hidx : NoDup (map op_index ops)).
  { assert (Heq : map op_index ops
                  = (fun c : Z * Z * Z => sec_index c.1.1 c.1.2 c.2) <$> (op_cell <$> ops)).
    { rewrite map_fmap, <- list_fmap_compose. reflexivity. }
    rewrite Heq.
    apply NoDup_fmap_2_strong; [|done].
    intros [[a1 a2] a3] [[b1 b2] b3] Ha Hb He; cbn [fst snd] in *.
    apply list_elem_of_fmap in Ha as ([[[a1' a2'] a3'] va] & Ea & Ha).
    apply list_elem_of_fmap in Hb as ([[[b1' b2'] b3'] vb] & Eb & Hb).
    unfold op_cell in Ea, Eb. cbn [fst] in Ea, Eb.
    injection Ea as -> -> ->. injection Eb as -> -> ->.
    rewrite Forall_forall in Hok.
    destruct (Hok _ Ha) as (? & ? & ?), (Hok _ Hb) as (? & ? & ?). cbn [fst snd] in *.
    destruct (sec_index_inj a1' a2' a3' b1' b2' b3') as (-> & -> & ->); done. }
  destruct (fill_run ops [] (section_new x y z) (section_new_inv x y z))
    as (s' & Hrun & Hback & _).
  - reflexivity.
  - reflexivity.
  - apply Forall_forall. intros op Hop.
    rewrite Forall_forall in Hok, Hna.
    destruct (Hok op Hop) as (Hx & Hy & Hz).
    split; [done|]. split; [by apply Hna|]. by apply section_new_get.
  - by rewrite map_fmap.
  - done.
  - simpl. lia.
  - exists s'. rewrite Hlen in Hrun. simpl length in Hrun.
    rewrite width_trace_17 in Hrun. split; [done|]. split; [|done].
    apply set_blocks_last in Hrun; [|by rewrite <- length_zero_iff_nil, Hlen].
    simpl in Hrun. congruence.
Qed.

Lemma section_fill_17_one_resize_witness :
  exists s', section_set_blocks (section_new 0 0 0) fill17_ops
             = Some (repeat 4 15 ++ [8; 8], s') /\
    bit_size (sec_blocks s') = 8 /\
    Forall (fun op => section_get_block s' op.1.1.1 op.1.1.2 op.1.2 = Some op.2) fill17_ops.
Proof.
  apply (section_fill_17_one_resize 0 0 0 fill17_ops).
  - reflexivity.
  - refine (bool_decide_eq_true_1 _ _). vm_compute. reflexivity.
  - unfold fill17_ops. simpl. repeat constructor; discriminate.
  - refine (bool_decide_eq_true_1 _ _). vm_compute. reflexivity.
  - unfold fill17_ops, op_cell_ok, in16. simpl.
    repeat (constructor; [simpl; lia|]). constructor.
Defined.

(** ** [load_chunk]: the slot loop *)

Section load_loop.
Variables (x z mask : Z).

Lemma load_sections_app (l1 l2 : list nat) (c : Chunk) (d : list Byte.byte) :
  load_sections x z mask (l1 ++ l2) c d =
  match load_sections x z mask l1 c d with
  | LOk c1 d1 => load_sections x z mask l2 c1 d1
  | r => r
  end.
Proof.
  revert c d. induction l1 as [|i l1 IH]; intros c d; simpl; [done|].
  destruct (negb (mask_bit mask i)); [apply IH|].
  destruct (chunk_sections c !! i) as [os|]; [|done].
  destruct (load_section _ d); [apply IH|done|done].
Qed.

Lemma load_sections_err (l : list nat) :
  forall c d c' e, load_sections x z mask l c d = LErr c' e ->
  exists l1 k l2 ck dk os sk,
    l = l1 ++ k :: l2 /\
    load_sections x z mask l1 c d = LOk ck dk /\
    mask_bit mask k = true /\
    chunk_sections ck !! k = Some os /\
    load_section (match os with Some sec => sec | None => section_new x (Z.of_nat k) z end) dk
      = LErr sk e /\
    c' = chunk_set_section ck k (Some sk).
Proof.
  induction l as [|i l IH]; intros c d c' e H; simpl in H; [discriminate|].
  destruct (mask_bit mask i) eqn:Hm; simpl in H.
  - destruct (chunk_sections c !! i) as [os|] eqn:Hos; [|discriminate].
    destruct (load_section _ d) as [sec' d'|sec' e'|] eqn:Hl.
    + destruct (IH _ _ _ _ H) as (l1 & k & l2 & ck & dk & os' & sk & -> & H1 & Hk & Hos' & Hsk & ->).
      exists (i :: l1), k, l2, ck, dk, os', sk. simpl. rewrite Hm, Hos, Hl. simpl. done.
    + injection H as <- <-.
      exists [], i, l, c, d, os, sec'. done.
    + discriminate.
  - destruct (IH _ _ _ _ H) as (l1 & k & l2 & ck & dk & os' & sk & -> & H1 & Hk & Hos' & Hsk & ->).
    exists (i :: l1), k, l2, ck, dk, os', sk. simpl. rewrite Hm. simpl. done.
Qed.

Lemma load_sections_ok_other (l : list nat) :
  forall c d c' d' j, load_sections x z mask l c d = LOk c' d' -> ~ In j l ->
  chunk_sections c' !! j = chunk_sections c !! j.
Proof.
  induction l as [|i l IH]; intros c d c' d' j H Hj; simpl in H.
  - by injection H as <- _.
  - destruct (negb (mask_bit mask i)); [apply (IH _ _ _ _ _ H); simpl in Hj; tauto|].
    destruct (chunk_sections c !! i) as [os|]; [|discriminate].
    destruct (load_section _ d) as [sec' d1| |]; try discriminate.
    rewrite (IH _ _ _ _ _ H) by (simpl in Hj; tauto).
    simpl. rewrite list_lookup_insert_ne; [done|]. simpl in Hj. intros ->. tauto.
Qed.

End load_loop.

Lemma seq_split (n : nat) (l1 l2 : list nat) (k : nat) :
  seq 0 n = l1 ++ k :: l2 -> k < n /\ l1 = seq 0 k /\ l2 = seq (S k) (n - S k).
Proof.
  intros H.
  assert (Hk : seq 0 n !! length l1 = Some k) by (rewrite H; apply list_lookup_middle; done).
  apply lookup_seq in Hk as [Hk Hlt]. simpl in Hk. subst k.
  split; [done|]. split.
  - assert (Ht : take (length l1) (seq 0 n) = l1) by (rewrite H; apply take_app_length).
    rewrite take_seq, Nat.min_l in Ht by lia. done.
  - assert (Hd : drop (S (length l1)) (seq 0 n) = l2).
    { rewrite H, drop_app_ge by (simpl; lia). rewrite Nat.sub_succ_l, Nat.sub_diag by lia. done. }
    rewrite <- Hd, drop_seq. done.
Qed.

(** C9: when [load_chunk] returns an error, the error came from slot [k]
    of the slot loop: the slots [0 .. k-1] were all decoded successfully
    into [ck], slot [k] is a selected slot whose decoding failed (leaving
    the partially decoded section [sk]), and the stored column is [ck] with
    only slot [k] replaced by [sk]: the sections populated by the earlier
    slots stay in the world (no rollback), and the slots after [k] keep the
    contents they had before the call (they are not processed). *)
Theorem load_chunk_error_no_rollback (w : World) (x z : Z) (new : bool) (mask : Z)
    (data : list Byte.byte) (w' : World) (e : Error) :
  load_chunk w x z new mask data = Some (w', LoadErr e) ->
  exists w1 c0 k ck dk os sk,
    w1 = (if new then <[(x, z) := chunk_new (x, z)]> w else w) /\
    w1 !! (x, z) = Some c0 /\
    k < 16 /\ mask_bit mask k = true /\
    load_sections x z mask (seq 0 k) c0 data = LOk ck dk /\
    chunk_sections ck !! k = Some os /\
    load_section (match os with Some sec => sec | None => section_new x (Z.of_nat k) z end) dk
      = LErr sk e /\
    w' = <[(x, z) := chunk_set_section ck k (Some sk)]> w1 /\
    (forall j, k < j -> chunk_sections (chunk_set_section ck k (Some sk)) !! j
                        = chunk_sections c0 !! j).
Proof.
  intros H. unfold load_chunk in H.
  set (w1 := if new then <[(x, z) := chunk_new (x, z)]> w else w).
  assert (Hstart : (if new then Some (<[(x, z) := chunk_new (x, z)]> w)
                    else match w !! (x, z) with Some _ => Some w | None => None end)
                   = Some w1 \/
                   (if new then Some (<[(x, z) := chunk_new (x, z)]> w)
                    else match w !! (x, z) with Some _ => Some w | None => None end)
                   = None).
  { destruct new; [by left|]. destruct (w !! (x, z)); [by left|by right]. }
  destruct Hstart as [Hs|Hs]; rewrite Hs in H; [|discriminate].
  destruct (w1 !! (x, z)) as [c0|] eqn:Hc0; [|discriminate].
  destruct (load_sections x z mask (seq 0 16) c0 data) as [c' d'|c' e'|] eqn:Hl;
    [discriminate| |discriminate].
  injection H as <- <-.
  destruct (load_sections_err x z mask _ _ _ _ _ Hl)
    as (l1 & k & l2 & ck & dk & os & sk & Hsplit & H1 & Hk & Hos & Hsk & ->).
  destruct (seq_split 16 l1 l2 k Hsplit) as (Hlt & -> & _).
  exists w1, c0, k, ck, dk, os, sk. split_and!; try done.
  intros j Hj. simpl. rewrite list_lookup_insert_ne by lia.
  apply (load_sections_ok_other x z mask _ _ _ _ _ _ H1).
  rewrite in_seq. lia.
Qed.

Lemma load_chunk_error_no_rollback_witness :
  exists w1 c0 k ck dk os sk,
    w1 = <[(0%Z, 0%Z) := chunk_new (0%Z, 0%Z)]> world_new /\
    w1 !! (0%Z, 0%Z) = Some c0 /\
    k < 16 /\ mask_bit 3 k = true /\
    load_sections 0 0 3 (seq 0 k) c0 demo_slot = LOk ck dk /\
    chunk_sections ck !! k = Some os /\
    load_section (match os with Some sec => sec | None => section_new 0 (Z.of_nat k) 0 end) dk
      = LErr sk UnexpectedEof /\
    demo_err_world = <[(0%Z, 0%Z) := chunk_set_section ck k (Some sk)]> w1 /\
    (forall j, k < j -> chunk_sections (chunk_set_section ck k (Some sk)) !! j
                        = chunk_sections c0 !! j).
Proof.
  apply (load_chunk_error_no_rollback world_new 0 0 true 3 demo_slot demo_err_world UnexpectedEof).
  vm_compute. reflexivity.
Defined.

(** ** Nibble arrays whose bytes stay in [0, 256) *)

Lemma nib_table :
  forallb (fun old => forallb (fun t =>
      bool_decide (Z.shiftr (Z.lor (Z.land old 240) t) 4 = Z.shiftr old 4) &&
      bool_decide (Z.land (Z.lor (Z.land old 15) (Z.shiftl t 4)) 15 = Z.land old 15) &&
      bool_decide (Z.land (Z.lor (Z.land old 240) t) 15 = t) &&
      bool_decide (Z.shiftr (Z.lor (Z.land old 15) (Z.shiftl t 4)) 4 = t) &&
      bool_decide (0 <= Z.lor (Z.land old 240) t < 256)%Z &&
      bool_decide (0 <= Z.lor (Z.land old 15) (Z.shiftl t 4) < 256)%Z)
    (zrange 0 16)) (zrange 0 256) = true.
Proof. vm_compute. reflexivity. Qed.

Lemma zrange_In (lo hi a : Z) : In a (zrange lo hi) <-> (lo <= a < hi)%Z.
Proof.
  unfold zrange. rewrite in_map_iff. split.
  - intros (n & <- & Hn). apply in_seq in Hn. lia.
  - intros Ha. exists (Z.to_nat (a - lo)). split; [lia|]. apply in_seq. lia.
Qed.

Lemma zrange_elem (lo hi a : Z) : a ∈ zrange lo hi <-> (lo <= a < hi)%Z.
Proof. rewrite list_elem_of_In. apply zrange_In. Qed.

Lemma land15_bound (v : Z) : (0 <= Z.land v 15 < 16)%Z.
Proof.
  change 15%Z with (Z.ones 4). rewrite Z.land_ones by lia.
  apply Z.mod_pos_bound. lia.
Qed.

Lemma nib_facts (old v : Z) : (0 <= old < 256)%Z ->
  let t := Z.land v 15 in
  Z.shiftr (Z.lor (Z.land old 240) t) 4 = Z.shiftr old 4 /\
  Z.land (Z.lor (Z.land old 15) (Z.shiftl t 4)) 15 = Z.land old 15 /\
  Z.land (Z.lor (Z.land old 240) t) 15 = t /\
  Z.shiftr (Z.lor (Z.land old 15) (Z.shiftl t 4)) 4 = t /\
  (0 <= Z.lor (Z.land old 240) t < 256)%Z /\
  (0 <= Z.lor (Z.land old 15) (Z.shiftl t 4) < 256)%Z.
Proof.
  intros Hold t. pose proof nib_table as T.
  apply forallb_forall with (x := old) in T; [|apply zrange_In; lia].
  apply forallb_forall with (x := t) in T; [|apply zrange_In; apply land15_bound].
  rewrite !andb_true_iff, !bool_decide_eq_true in T. tauto.
Qed.

Lemma nib_ok_new (n : nat) : nib_ok (nibble_new n).
Proof. unfold nib_ok, nibble_new. simpl. apply Forall_forall. intros v Hv.
  apply list_elem_of_In, repeat_spec in Hv. lia. Qed.

Lemma nib_ok_set (a : NibbleArray) (i : nat) (v : Z) : nib_ok a -> nib_ok (nibble_set a i v).
Proof.
  unfold nib_ok, nibble_set. intros Ha.
  destruct (nib_data a !! Nat.div2 i) as [old|] eqn:E; simpl; [|done].
  pose proof (Forall_lookup_1 _ _ _ _ Ha E) as Hold.
  destruct (nib_facts old v Hold) as (_ & _ & _ & _ & H1 & H2).
  apply Forall_insert; [done|]. by destruct (Nat.even i).
Qed.

Lemma div2_eq_even (i j : nat) : Nat.div2 i = Nat.div2 j -> Nat.even i = Nat.even j -> i = j.
Proof.
  intros Hd He. rewrite (Nat.div2_odd i), (Nat.div2_odd j).
  rewrite <- !Nat.negb_even, He, Hd. done.
Qed.

Lemma nibble_get_set_other (a : NibbleArray) (i j : nat) (v : Z) :
  nib_ok a -> i <> j -> nibble_get (nibble_set a j v) i = nibble_get a i.
Proof.
  unfold nib_ok, nibble_get, nibble_set. intros Ha Hij.
  destruct (nib_data a !! Nat.div2 j) as [old|] eqn:E; simpl; [|done].
  destruct (decide (Nat.div2 j = Nat.div2 i)) as [Hd|Hd].
  - rewrite <- Hd, list_lookup_insert_eq, E by (eapply lookup_lt_Some; done). simpl.
    pose proof (Forall_lookup_1 _ _ _ _ Ha E) as Hold.
    destruct (nib_facts old v Hold) as (H1 & H2 & _).
    destruct (Nat.even i) eqn:Ei, (Nat.even j) eqn:Ej;
      try (exfalso; apply Hij, div2_eq_even; congruence); f_equal; assumption.
  - rewrite list_lookup_insert_ne by done. done.
Qed.

Lemma nibble_get_set_same (a : NibbleArray) (i : nat) (v : Z) :
  nib_ok a -> is_Some (nib_data a !! Nat.div2 i) ->
  nibble_get (nibble_set a i v) i = Some (Z.land v 15).
Proof.
  unfold nib_ok, nibble_get, nibble_set. intros Ha [old E].
  rewrite E. simpl. rewrite list_lookup_insert_eq by (eapply lookup_lt_Some; done). simpl.
  pose proof (Forall_lookup_1 _ _ _ _ Ha E) as Hold.
  destruct (nib_facts old v Hold) as (_ & _ & H3 & H4 & _).
  destruct (Nat.even i); f_equal; assumption.
Qed.

Lemma div2_lt (i n : nat) : i < n -> Nat.div2 i < Nat.div2 (n + 1).
Proof.
  intros H. rewrite !Nat.div2_div.
  assert (Hm : (i + 1 * 2) / 2 <= (n + 1) / 2) by (apply Nat.Div0.div_le_mono; lia).
  rewrite Nat.div_add in Hm by lia. lia.
Qed.

Lemma nibble_new_get (n i : nat) : i < n -> nibble_get (nibble_new n) i = Some 0%Z.
Proof.
  intros H. unfold nibble_get, nibble_new. simpl.
  rewrite lookup_repeat_lt by (by apply div2_lt). simpl. by destruct (Nat.even i).
Qed.

Lemma nibble_new_some (n i : nat) : i < n -> is_Some (nib_data (nibble_new n) !! Nat.div2 i).
Proof. intros H. simpl. rewrite lookup_repeat_lt by (by apply div2_lt). eauto. Qed.

(** ** Folds with a distinguished step *)

Lemma fold_opt_app {A S} (f : S -> A -> option S) (l1 l2 : list A) (s : S) :
  fold_opt f (l1 ++ l2) s = match fold_opt f l1 s with Some s1 => fold_opt f l2 s1 | None => None end.
Proof.
  unfold fold_opt. rewrite fold_left_app.
  destruct (fold_left _ l1 (Some s)) as [s1|]; [done|]. apply fold_opt_none.
Qed.

Lemma fold_opt_visit {A S} (P1 P2 : S -> Prop) (f : S -> A -> option S) (l : list A)
    (a : A) (s s' : S) :
  (forall s b s', b ∈ l -> P1 s -> f s b = Some s' -> P1 s') ->
  (forall s b s', b ∈ l -> P2 s -> f s b = Some s' -> P2 s') ->
  a ∈ l -> (forall s s', P1 s -> f s a = Some s' -> P2 s') ->
  P1 s -> fold_opt f l s = Some s' -> P2 s'.
Proof.
  intros H1 H2 Ha Hstep Hs Hf.
  apply list_elem_of_split in Ha as (l1 & l2 & ->).
  rewrite fold_opt_app in Hf.
  destruct (fold_opt f l1 s) as [s1|] eqn:E1; [|discriminate].
  assert (Hs1 : P1 s1).
  { refine (fold_opt_inv P1 f l1 s s1 _ Hs E1).
    intros t b t' Hb. apply H1. set_solver. }
  unfold fold_opt in Hf. simpl in Hf.
  destruct (f s1 a) as [s2|] eqn:E2; [|rewrite fold_opt_none in Hf; discriminate].
  refine (fold_opt_inv P2 f l2 s2 s' _ (Hstep _ _ Hs1 E2) Hf).
  intros t b t' Hb. apply H2. set_solver.
Qed.

Lemma fold_left_visit {A S} (P1 P2 : S -> Prop) (f : S -> A -> S) (l : list A) (a : A) (s : S) :
  (forall s b, b ∈ l -> P1 s -> P1 (f s b)) ->
  (forall s b, b ∈ l -> P2 s -> P2 (f s b)) ->
  a ∈ l -> (forall s, P1 s -> P2 (f s a)) ->
  P1 s -> P2 (fold_left f l s).
Proof.
  intros H1 H2 Ha Hstep Hs.
  apply list_elem_of_split in Ha as (l1 & l2 & ->).
  rewrite fold_left_app. simpl.
  assert (Hinv : forall (P : S -> Prop) l' t, (forall s b, b ∈ l' -> P s -> P (f s b)) ->
                 P t -> P (fold_left f l' t)).
  { intros P l'. induction l' as [|b l' IH]; intros t HP Ht; simpl; [done|].
    apply IH; [intros; apply HP; set_solver|]. apply HP; [set_solver|done]. }
  apply (Hinv P2); [intros; apply H2; set_solver|].
  apply Hstep. apply (Hinv P1); [intros; apply H1; set_solver|done].
Qed.

(** ** Geometry of a capture region *)

Lemma mixed_inj (w a a' k k' : Z) :
  (0 <= a < w)%Z -> (0 <= a' < w)%Z -> (a + w * k = a' + w * k')%Z -> a = a' /\ k = k'.
Proof.
  intros Ha Ha' H.
  assert (k = k') by (destruct (Z.lt_trichotomy k k') as [Hk|[Hk|Hk]]; [nia|done|nia]).
  subst. lia.
Qed.

Lemma shiftr_cell (xx c : Z) : in16 xx -> Z.shiftr (xx + Z.shiftl c 4) 4 = c.
Proof.
  intros Hxx. unfold in16 in Hxx.
  rewrite Z.shiftl_mul_pow2, Z.shiftr_div_pow2 by lia. change (2 ^ 4)%Z with 16%Z.
  rewrite Z.div_add by lia. rewrite Z.div_small by lia. lia.
Qed.

Section region.
Variables (x y z w h d : Z).
Hypotheses (Hw : (0 < w)%Z) (Hh : (0 < h)%Z) (Hd : (0 < d)%Z).

Lemma idx_inj (X Y Z X' Y' Z' : Z) :
  in_region x y z w h d X Y Z -> in_region x y z w h d X' Y' Z' -> idx x y z w d X Y Z = idx x y z w d X' Y' Z' ->
  X = X' /\ Y = Y' /\ Z = Z'.
Proof using Hw Hh Hd.
  unfold in_region, idx. intros (HX & HY & HZ) (HX' & HY' & HZ') H.
  assert (Hnn : (0 <= (Z - z) * w)%Z /\ (0 <= (Y - y) * w * d)%Z
             /\ (0 <= (Z' - z) * w)%Z /\ (0 <= (Y' - y) * w * d)%Z) by (split_and!; repeat apply Z.mul_nonneg_nonneg; lia).
  assert (H0 : (X - x + (Z - z) * w + (Y - y) * w * d =
                X' - x + (Z' - z) * w + (Y' - y) * w * d)%Z)
    by (apply Z2Nat.inj; [nia|nia|exact H]).
  assert (H' : ((X - x) + w * ((Z - z) + d * (Y - y)) = (X' - x) + w * ((Z' - z) + d * (Y' - y)))%Z)
    by nia.
  apply mixed_inj in H' as [H1 H2]; [|lia|lia].
  assert (H2' : ((Z - z) + d * (Y - y) = (Z' - z) + d * (Y' - y))%Z) by nia.
  apply mixed_inj in H2' as [H3 H4]; [|lia|lia].
  split_and!; nia.
Qed.

Lemma idx_lt (X Y Z : Z) : in_region x y z w h d X Y Z -> idx x y z w d X Y Z < Z.to_nat (w * h * d).
Proof using Hw Hh Hd.
  unfold in_region, idx. intros (HX & HY & HZ).
  assert (H1 : (0 <= (d - 1 - (Z - z)) * w)%Z) by nia.
  assert (H2 : (0 <= (h - 1 - (Y - y)) * (w * d))%Z) by (apply Z.mul_nonneg_nonneg; nia).
  assert (H3 : (0 <= (Z - z) * w)%Z /\ (0 <= (Y - y) * w * d)%Z)
    by (split; repeat apply Z.mul_nonneg_nonneg; lia).
  apply Z2Nat.inj_lt; nia.
Qed.

End region.

(** ** The loops of [World::capture_snapshot] *)

Section capture.
Variables (wd : World) (x y z w h d : Z).

Lemma snapshot_index_geom (s : Snapshot) (X Y Z : Z) :
  snap_geom x y z w d s -> snapshot_index s X Y Z = idx x y z w d X Y Z.
Proof. intros (Hx & Hy & Hz & Hw & Hd). unfold snapshot_index, idx. by rewrite Hx, Hy, Hz, Hw, Hd. Qed.

Lemma capture_cell_frame (section : option Section) (cx cy cz yy zz xx : Z) (s s' : Snapshot) :
  snap_good x y z w d s -> capture_cell section cx cy cz yy zz s xx = Some s' ->
  snap_good x y z w d s' /\
  forall i, i <> idx x y z w d (xx + Z.shiftl cx 4) (yy + Z.shiftl cy 4) (zz + Z.shiftl cz 4) ->
    cell_view s' i = cell_view s i.
Proof.
  intros (Hg & Hbl & Hsl) H. unfold capture_cell in H.
  destruct section as [sec|].
  - destruct (section_get_block sec xx yy zz) as [b|]; [|discriminate]. simpl in H.
    destruct (section_get_block_light sec xx yy zz) as [bl|]; [|discriminate]. simpl in H.
    destruct (section_get_sky_light sec xx yy zz) as [sl|]; [|discriminate]. simpl in H.
    injection H as <-.
    unfold snapshot_set_sky_light, snapshot_set_block_light, snapshot_set_block, snap_with.
    cbn [snap_x snap_y snap_z snap_w snap_d snap_blocks snap_block_light snap_sky_light snapshot_index].
    destruct Hg as (Hx & Hy & Hz & Hw & Hd).
    unfold snapshot_index. cbn [snap_x snap_y snap_z snap_w snap_d]. rewrite Hx, Hy, Hz, Hw, Hd.
    split.
    + split; [split_and!; cbn; done|]. split; apply nib_ok_set; done.
    + intros i Hi. unfold cell_view. cbn [snap_blocks snap_block_light snap_sky_light].
      rewrite list_lookup_insert_ne by (unfold idx in Hi; lia).
      rewrite !nibble_get_set_other by (try apply nib_ok_set; try done; unfold idx in Hi; lia).
      done.
  - injection H as <-.
    unfold snapshot_set_block, snap_with.
    destruct Hg as (Hx & Hy & Hz & Hw & Hd).
    unfold snapshot_index. rewrite Hx, Hy, Hz, Hw, Hd.
    split.
    + split; [split_and!; cbn; done|]. cbn. done.
    + intros i Hi. unfold cell_view. cbn [snap_blocks snap_block_light snap_sky_light].
      rewrite list_lookup_insert_ne by (unfold idx in Hi; lia). done.
Qed.

Lemma zrange_clamp (v c lo len : Z) :
  v ∈ zrange (Z.min 16 (Z.max 0 (lo - c))) (Z.min 16 (Z.max 0 (lo + len - c))) ->
  in16 v /\ (lo <= v + c < lo + len)%Z.
Proof. rewrite zrange_elem. unfold in16. lia. Qed.

Section pres.
Variable P : Snapshot -> Prop.
Hypothesis HP : forall cx cy cz section yy zz xx s s',
  valid_call wd x y z w h d cx cy cz section yy zz xx -> P s ->
  capture_cell section cx cy cz yy zz s xx = Some s' -> P s'.

Local Abbreviation x1 cx := (Z.min 16 (Z.max 0 (x - Z.shiftl cx 4))).
Local Abbreviation x2 cx := (Z.min 16 (Z.max 0 (x + w - Z.shiftl cx 4))).
Local Abbreviation z1 cz := (Z.min 16 (Z.max 0 (z - Z.shiftl cz 4))).
Local Abbreviation z2 cz := (Z.min 16 (Z.max 0 (z + d - Z.shiftl cz 4))).
Local Abbreviation y1 cy := (Z.min 16 (Z.max 0 (y - Z.shiftl cy 4))).
Local Abbreviation y2 cy := (Z.min 16 (Z.max 0 (y + h - Z.shiftl cy 4))).

(** The [for zz] body: one row of cells along x. *)
Lemma row_pres (chunk : Chunk) (cx cz cy : Z) (section : option Section) (yy zz : Z)
    (s s' : Snapshot) :
  wd !! (cx, cz) = Some chunk -> in16 cy -> chunk_sections chunk !! Z.to_nat cy = Some section ->
  yy ∈ zrange (y1 cy) (y2 cy) -> zz ∈ zrange (z1 cz) (z2 cz) -> P s ->
  fold_opt (capture_cell section cx cy cz yy zz) (zrange (x1 cx) (x2 cx)) s = Some s' -> P s'.
Proof using HP.
  intros Hc Hcy Hsec Hyy Hzz Hs H.
  refine (fold_opt_inv P _ _ s s' _ Hs H). intros s5 xx s6 Hxx Hs5 H5.
  apply zrange_clamp in Hyy, Hzz, Hxx.
  refine (HP cx cy cz section yy zz xx s5 s6 _ Hs5 H5).
  split; [eauto|]. unfold in_region. split_and!; tauto.
Qed.

(** The [for yy] body: one layer of rows. *)
Lemma layer_pres (chunk : Chunk) (cx cz cy : Z) (section : option Section) (yy : Z)
    (s s' : Snapshot) :
  wd !! (cx, cz) = Some chunk -> in16 cy -> chunk_sections chunk !! Z.to_nat cy = Some section ->
  yy ∈ zrange (y1 cy) (y2 cy) -> P s ->
  fold_opt (fun snap zz =>
    fold_opt (capture_cell section cx cy cz yy zz) (zrange (x1 cx) (x2 cx)) snap)
    (zrange (z1 cz) (z2 cz)) s = Some s' -> P s'.
Proof using HP.
  intros Hc Hcy Hsec Hyy Hs H.
  refine (fold_opt_inv P _ _ s s' _ Hs H). intros s3 zz s4 Hzz Hs3 H3.
  exact (row_pres chunk cx cz cy section yy zz s3 s4 Hc Hcy Hsec Hyy Hzz Hs3 H3).
Qed.

Lemma capture_slot_pres (chunk : Chunk) (cx cz cy : Z) (s s' : Snapshot) :
  wd !! (cx, cz) = Some chunk -> P s ->
  capture_slot chunk x y z w h d cx cz s cy = Some s' -> P s'.
Proof using HP.
  intros Hc Hs H. unfold capture_slot in H.
  destruct (slot_out_of_range cy) eqn:Er; [by injection H as <-|].
  apply slot_out_of_range_false in Er.
  destruct (chunk_sections chunk !! Z.to_nat cy) as [section|] eqn:Es; [|discriminate].
  simpl in H.
  refine (fold_opt_inv P _ _ s s' _ Hs H). intros s1 yy s2 Hyy Hs1 H1.
  exact (layer_pres chunk cx cz cy section yy s1 s2 Hc Er Es Hyy Hs1 H1).
Qed.

(** The [for cz] body. *)
Lemma column_pres (cx cz : Z) (s s' : Snapshot) :
  P s ->
  match wd !! (cx, cz) with
  | None => Some s
  | Some chunk =>
      fold_opt (capture_slot chunk x y z w h d cx cz)
        (zrange (Z.shiftr y 4) (Z.shiftr (y + h + 15) 4)) s
  end = Some s' -> P s'.
Proof using HP.
  intros Hs H.
  destruct (wd !! (cx, cz)) as [chunk|] eqn:Hc; [|by injection H as <-].
  refine (fold_opt_inv P _ _ s s' _ Hs H). intros s5 cy s6 _ Hs5 H5.
  exact (capture_slot_pres chunk cx cz cy s5 s6 Hc Hs5 H5).
Qed.

(** The [for cx] body. *)
Lemma strip_pres (cx : Z) (s s' : Snapshot) :
  P s ->
  fold_opt (fun snap cz =>
    match wd !! (cx, cz) with
    | None => Some snap
    | Some chunk =>
        fold_opt (capture_slot chunk x y z w h d cx cz)
          (zrange (Z.shiftr y 4) (Z.shiftr (y + h + 15) 4)) snap
    end) (zrange (Z.shiftr z 4) (Z.shiftr (z + d + 15) 4)) s = Some s' -> P s'.
Proof using HP.
  intros Hs H.
  refine (fold_opt_inv P _ _ s s' _ Hs H). intros s3 cz s4 _ Hs3 H3.
  exact (column_pres cx cz s3 s4 Hs3 H3).
Qed.

Lemma capture_loops_pres (s s' : Snapshot) :
  P s ->
  fold_opt (fun snap cx =>
    fold_opt (fun snap cz =>
      match wd !! (cx, cz) with
      | None => Some snap
      | Some chunk =>
          fold_opt (capture_slot chunk x y z w h d cx cz)
            (zrange (Z.shiftr y 4) (Z.shiftr (y + h + 15) 4)) snap
      end) (zrange (Z.shiftr z 4) (Z.shiftr (z + d + 15) 4)) snap)
    (zrange (Z.shiftr x 4) (Z.shiftr (x + w + 15) 4)) s = Some s' -> P s'.
Proof using HP.
  intros Hs H.
  refine (fold_opt_inv P _ _ s s' _ Hs H). intros s1 cx s2 _ Hs1 H1.
  exact (strip_pres cx s1 s2 Hs1 H1).
Qed.

End pres.
Lemma coord_split (lo len X : Z) :
  (lo <= X < lo + len)%Z ->
  Z.shiftr X 4 ∈ zrange (Z.shiftr lo 4) (Z.shiftr (lo + len + 15) 4) /\
  (X - Z.shiftl (Z.shiftr X 4) 4)%Z
    ∈ zrange (Z.min 16 (Z.max 0 (lo - Z.shiftl (Z.shiftr X 4) 4)))
             (Z.min 16 (Z.max 0 (lo + len - Z.shiftl (Z.shiftr X 4) 4))) /\
  in16 (X - Z.shiftl (Z.shiftr X 4) 4)%Z.
Proof.
  intros HX. rewrite !zrange_elem. unfold in16.
  rewrite !Z.shiftl_mul_pow2, !Z.shiftr_div_pow2 by lia. change (2 ^ 4)%Z with 16%Z.
  pose proof (Z.div_mod X 16 ltac:(lia)) as Hq.
  pose proof (Z.mod_pos_bound X 16 ltac:(lia)) as Hr.
  assert (H1 : (lo / 16 <= X / 16)%Z) by (apply Z.div_le_mono; lia).
  assert (H2 : ((X + 1 * 16) / 16 <= (lo + len + 15) / 16)%Z) by (apply Z.div_le_mono; lia).
  rewrite Z.div_add in H2 by lia.
  split_and!; lia.
Qed.

Lemma valid_call_of (chunk : Chunk) (cx cz cy : Z) (section : option Section) (yy zz xx : Z) :
  wd !! (cx, cz) = Some chunk -> in16 cy -> chunk_sections chunk !! Z.to_nat cy = Some section ->
  yy ∈ zrange (Z.min 16 (Z.max 0 (y - Z.shiftl cy 4))) (Z.min 16 (Z.max 0 (y + h - Z.shiftl cy 4))) ->
  zz ∈ zrange (Z.min 16 (Z.max 0 (z - Z.shiftl cz 4))) (Z.min 16 (Z.max 0 (z + d - Z.shiftl cz 4))) ->
  xx ∈ zrange (Z.min 16 (Z.max 0 (x - Z.shiftl cx 4))) (Z.min 16 (Z.max 0 (x + w - Z.shiftl cx 4))) ->
  valid_call wd x y z w h d cx cy cz section yy zz xx.
Proof.
  intros Hc Hcy Hsec Hyy Hzz Hxx. apply zrange_clamp in Hyy, Hzz, Hxx.
  split; [eauto|]. unfold in_region. split_and!; tauto.
Qed.

Section visit.
Variables (P1 P2 : Snapshot -> Prop).
Hypothesis HP1 : forall cx cy cz section yy zz xx s s',
  valid_call wd x y z w h d cx cy cz section yy zz xx -> P1 s ->
  capture_cell section cx cy cz yy zz s xx = Some s' -> P1 s'.
Hypothesis HP2 : forall cx cy cz section yy zz xx s s',
  valid_call wd x y z w h d cx cy cz section yy zz xx -> P2 s ->
  capture_cell section cx cy cz yy zz s xx = Some s' -> P2 s'.
Variables (X Y Z : Z) (chunkC : Chunk) (secC : option Section).
Hypotheses (HC : in_region x y z w h d X Y Z)
  (Hchunk : wd !! (Z.shiftr X 4, Z.shiftr Z 4) = Some chunkC)
  (HcyC : in16 (Z.shiftr Y 4))
  (HsecC : chunk_sections chunkC !! Z.to_nat (Z.shiftr Y 4) = Some secC).
Hypothesis Hhit : forall s s', P1 s ->
  capture_cell secC (Z.shiftr X 4) (Z.shiftr Y 4) (Z.shiftr Z 4)
    (Y - Z.shiftl (Z.shiftr Y 4) 4)%Z (Z - Z.shiftl (Z.shiftr Z 4) 4)%Z s
    (X - Z.shiftl (Z.shiftr X 4) 4)%Z = Some s' -> P2 s'.

Lemma capture_loops_visit (s s' : Snapshot) :
  P1 s ->
  fold_opt (fun snap cx =>
    fold_opt (fun snap cz =>
      match wd !! (cx, cz) with
      | None => Some snap
      | Some chunk =>
          fold_opt (capture_slot chunk x y z w h d cx cz)
            (zrange (Z.shiftr y 4) (Z.shiftr (y + h + 15) 4)) snap
      end) (zrange (Z.shiftr z 4) (Z.shiftr (z + d + 15) 4)) snap)
    (zrange (Z.shiftr x 4) (Z.shiftr (x + w + 15) 4)) s = Some s' -> P2 s'.
Proof using HP1 HP2 HC Hchunk HcyC HsecC Hhit.
  intros Hs H.
  destruct HC as (HX & HY & HZ).
  destruct (coord_split x w X HX) as (HmX & HxX & HiX).
  destruct (coord_split y h Y HY) as (HmY & HyY & HiY).
  destruct (coord_split z d Z HZ) as (HmZ & HzZ & HiZ).
  refine (fold_opt_visit P1 P2 _ _ (Z.shiftr X 4) s s' _ _ HmX _ Hs H).
  { intros t b t' _. apply (strip_pres P1 HP1). }
  { intros t b t' _. apply (strip_pres P2 HP2). }
  intros t t' Ht Ht'.
  refine (fold_opt_visit P1 P2 _ _ (Z.shiftr Z 4) t t' _ _ HmZ _ Ht Ht').
  { intros u b u' _. apply (column_pres P1 HP1). }
  { intros u b u' _. apply (column_pres P2 HP2). }
  intros u u' Hu Hu'. rewrite Hchunk in Hu'.
  refine (fold_opt_visit P1 P2 _ _ (Z.shiftr Y 4) u u' _ _ HmY _ Hu Hu').
  { intros v b v' _. apply (capture_slot_pres P1 HP1 chunkC _ _ _ _ _ Hchunk). }
  { intros v b v' _. apply (capture_slot_pres P2 HP2 chunkC _ _ _ _ _ Hchunk). }
  intros v v' Hv Hv'. unfold capture_slot in Hv'.
  rewrite (proj2 (slot_out_of_range_false _) HcyC), HsecC in Hv'. simpl in Hv'.
  refine (fold_opt_visit P1 P2 _ _ (Y - Z.shiftl (Z.shiftr Y 4) 4)%Z v v' _ _ HyY _ Hv Hv').
  { intros q b q' Hb. apply (layer_pres P1 HP1 chunkC _ _ _ _ _ _ _ Hchunk HcyC HsecC Hb). }
  { intros q b q' Hb. apply (layer_pres P2 HP2 chunkC _ _ _ _ _ _ _ Hchunk HcyC HsecC Hb). }
  intros q q' Hq Hq'.
  refine (fold_opt_visit P1 P2 _ _ (Z - Z.shiftl (Z.shiftr Z 4) 4)%Z q q' _ _ HzZ _ Hq Hq').
  { intros r b r' Hb. apply (row_pres P1 HP1 chunkC _ _ _ _ _ _ _ _ Hchunk HcyC HsecC HyY Hb). }
  { intros r b r' Hb. apply (row_pres P2 HP2 chunkC _ _ _ _ _ _ _ _ Hchunk HcyC HsecC HyY Hb). }
  intros r r' Hr Hr'.
  refine (fold_opt_visit P1 P2 _ _ (X - Z.shiftl (Z.shiftr X 4) 4)%Z r r' _ _ HxX _ Hr Hr').
  { intros o b o' Hb. apply HP1. exact (valid_call_of chunkC _ _ _ _ _ _ _ Hchunk HcyC HsecC HyY HzZ Hb). }
  { intros o b o' Hb. apply HP2. exact (valid_call_of chunkC _ _ _ _ _ _ _ Hchunk HcyC HsecC HyY HzZ Hb). }
  exact Hhit.
Qed.

End visit.
End capture.

Lemma call_hits (wd : World) (x y z w h d : Z) (cx cy cz : Z) (section : option Section)
    (yy zz xx X Y Z : Z) :
  (0 < w)%Z -> (0 < h)%Z -> (0 < d)%Z ->
  valid_call wd x y z w h d cx cy cz section yy zz xx ->
  in_region x y z w h d X Y Z ->
  idx x y z w d (xx + Z.shiftl cx 4) (yy + Z.shiftl cy 4) (zz + Z.shiftl cz 4) = idx x y z w d X Y Z ->
  (xx + Z.shiftl cx 4 = X /\ yy + Z.shiftl cy 4 = Y /\ zz + Z.shiftl cz 4 = Z)%Z /\
  cx = Z.shiftr X 4 /\ cy = Z.shiftr Y 4 /\ cz = Z.shiftr Z 4.
Proof.
  intros Hw Hh Hd (_ & _ & Hxx & Hyy & Hzz & Hreg) HC Hi.
  destruct (idx_inj x y z w h d Hw Hh Hd _ _ _ _ _ _ Hreg HC Hi) as (<- & <- & <-).
  split; [done|]. rewrite !shiftr_cell by done. done.
Qed.

Lemma fill_defaults_view (x y z w h d : Z) (n i : nat) :
  i < n ->
  snap_good x y z w d (snapshot_fill_defaults
    (mkSnapshot (repeat 0 n) (nibble_new n) (nibble_new n) (repeat 0%Z (Z.to_nat (w * d)))
       x y z w h d) n) /\
  cell_view (snapshot_fill_defaults
    (mkSnapshot (repeat 0 n) (nibble_new n) (nibble_new n) (repeat 0%Z (Z.to_nat (w * d)))
       x y z w h d) n) i
  = (Some (get_steven_id Missing mod 2 ^ 16), Some 0%Z, Some 15%Z).
Proof.
  intros Hi.
  set (P1 := fun t : Snapshot => snap_good x y z w d t /\ length (snap_blocks t) = n /\
               length (nib_data (snap_sky_light t)) = Nat.div2 (n + 1) /\
               snap_block_light t = nibble_new n).
  set (P2 := fun t : Snapshot => P1 t /\
               snap_blocks t !! i = Some (get_steven_id Missing mod 2 ^ 16) /\
               nibble_get (snap_sky_light t) i = Some 15%Z).
  assert (Hstep1 : forall t j, P1 t ->
    P1 (snap_with t (<[j := get_steven_id Missing mod 2 ^ 16]> (snap_blocks t))
          (snap_block_light t) (nibble_set (snap_sky_light t) j 15))).
  { intros t j Ht. unfold P1 in *. destruct Ht as ((Hg & Hbl & Hsl) & Hlen & Hslen & Hbl0).
    unfold snap_good, snap_geom, snap_with in *.
    cbn [snap_blocks snap_block_light snap_sky_light snap_x snap_y snap_z snap_w snap_d].
    split_and!; try tauto.
    - by apply nib_ok_set.
    - by rewrite length_insert.
    - by rewrite nibble_set_length. }
  assert (Hsame : forall t, P1 t ->
    P2 (snap_with t (<[i := get_steven_id Missing mod 2 ^ 16]> (snap_blocks t))
          (snap_block_light t) (nibble_set (snap_sky_light t) i 15))).
  { intros t Ht. split; [by apply Hstep1|].
    destruct Ht as ((Hg & Hbl & Hsl) & Hlen & Hslen & Hbl0). unfold snap_with.
    cbn [snap_blocks snap_sky_light]. split.
    - apply list_lookup_insert_eq. lia.
    - rewrite nibble_get_set_same by (try done; apply lookup_lt_is_Some_2; rewrite Hslen;
                                       by apply div2_lt).
      reflexivity. }
  assert (H2 : P2 (snapshot_fill_defaults
    (mkSnapshot (repeat 0 n) (nibble_new n) (nibble_new n) (repeat 0%Z (Z.to_nat (w * d)))
       x y z w h d) n)).
  { unfold snapshot_fill_defaults.
    refine (fold_left_visit P1 P2 _ (seq 0 n) i _ _ _ _ _ _).
    - intros t j _ Ht. by apply Hstep1.
    - intros t j _ Ht. destruct (decide (j = i)) as [->|Hji]; [apply Hsame, Ht|].
      split; [apply Hstep1, Ht|].
      destruct Ht as (((Hg & Hbl & Hsl) & _) & Hb & Hs). unfold snap_with.
      cbn [snap_blocks snap_sky_light].
      rewrite list_lookup_insert_ne by done.
      rewrite nibble_get_set_other by done. done.
    - apply list_elem_of_In, in_seq. lia.
    - exact Hsame.
    - unfold P1, snap_good, snap_geom. cbn.
      split_and!; try done; try apply nib_ok_new; apply repeat_length. }
  destruct H2 as (((Hg & Hbl & Hsl) & _ & _ & Hbl0) & Hb & Hs).
  split; [done|]. unfold cell_view. rewrite Hb, Hs, Hbl0, nibble_new_get by done. done.
Qed.

Lemma capture_cell_air (cx cy cz yy zz xx : Z) (x y z w d : Z) (s s' : Snapshot) :
  snap_good x y z w d s ->
  capture_cell None cx cy cz yy zz s xx = Some s' ->
  forall b0 bl sl,
  cell_view s (idx x y z w d (xx + Z.shiftl cx 4) (yy + Z.shiftl cy 4) (zz + Z.shiftl cz 4))
    = (Some b0, bl, sl) ->
  cell_view s' (idx x y z w d (xx + Z.shiftl cx 4) (yy + Z.shiftl cy 4) (zz + Z.shiftl cz 4))
    = (Some (get_steven_id Air mod 2 ^ 16), bl, sl).
Proof.
  intros Hg H b0 bl sl Hv. injection H as <-.
  set (a := get_steven_id Air mod 2 ^ 16).
  set (i := idx x y z w d _ _ _) in *.
  unfold snapshot_set_block, snap_with, cell_view in *.
  cbn [snap_blocks snap_block_light snap_sky_light].
  rewrite (snapshot_index_geom x y z w d) by apply Hg. fold i.
  destruct (snap_blocks s !! i) eqn:Hb; [|discriminate].
  rewrite list_lookup_insert_eq by (eapply lookup_lt_Some; exact Hb).
  injection Hv as _ -> ->. reflexivity.
Qed.

(** C8: let [snap] be the snapshot captured for the box of origin
    [(x, y, z)] and size [w * h * d] (all three positive), and [(X, Y, Z)]
    a cell of that box.  If the column holding the cell is not loaded, the
    snapshot holds the missing block at the cell, with sky light 15 and
    block light 0.  If the column is loaded, the cell's vertical slot
    [Y >> 4] lies in [0, 16) and that slot holds no section, the snapshot
    holds air at the cell, again with sky light 15 and block light 0. *)
Theorem capture_snapshot_sentinels (wd : World) (x y z w h d X Y Z : Z) (snap : Snapshot) :
  (0 < w)%Z -> (0 < h)%Z -> (0 < d)%Z ->
  in_region x y z w h d X Y Z ->
  capture_snapshot wd x y z w h d = Some snap ->
  (wd !! (Z.shiftr X 4, Z.shiftr Z 4) = None ->
     snapshot_get_block snap X Y Z = Some Missing /\
     snapshot_get_sky_light snap X Y Z = Some 15%Z /\
     snapshot_get_block_light snap X Y Z = Some 0%Z) /\
  (forall chunk, wd !! (Z.shiftr X 4, Z.shiftr Z 4) = Some chunk ->
     in16 (Z.shiftr Y 4) -> chunk_sections chunk !! Z.to_nat (Z.shiftr Y 4) = Some None ->
     snapshot_get_block snap X Y Z = Some Air /\
     snapshot_get_sky_light snap X Y Z = Some 15%Z /\
     snapshot_get_block_light snap X Y Z = Some 0%Z).
Proof.
  intros Hw Hh Hd HC H. unfold capture_snapshot in H. cbv zeta in H.
  set (iC := idx x y z w d X Y Z).
  pose proof (idx_lt x y z w h d Hw Hh Hd X Y Z HC) as Hlt.
  destruct (fill_defaults_view x y z w h d (Z.to_nat (w * h * d)) iC Hlt) as (Hg0 & Hv0).
  set (s0 := snapshot_fill_defaults _ _) in H, Hg0, Hv0.
  assert (Hget : forall t v bl sl, snap_good x y z w d t ->
            cell_view t iC = (Some v, Some bl, Some sl) ->
            snapshot_get_block t X Y Z = Some (by_steven_id v) /\
            snapshot_get_sky_light t X Y Z = Some sl /\
            snapshot_get_block_light t X Y Z = Some bl).
  { intros t b bl sl (Hg & _) Hv. unfold cell_view in Hv. injection Hv as Hb Hbl Hsl.
    unfold snapshot_get_block, snapshot_get_sky_light, snapshot_get_block_light.
    rewrite (snapshot_index_geom x y z w d t X Y Z Hg). fold iC. rewrite Hb, Hbl, Hsl. done. }
  split.
  - intros Hnone.
    set (Pa := fun t => snap_good x y z w d t /\
                 cell_view t iC = (Some (get_steven_id Missing mod 2 ^ 16), Some 0%Z, Some 15%Z)).
    assert (Ha : Pa snap).
    { refine (capture_loops_pres wd x y z w h d Pa _ s0 snap (conj Hg0 Hv0) H).
      intros cx cy cz section yy zz xx s s' Hcall (Hs & Hvs) Hcell.
      destruct (capture_cell_frame x y z w d section cx cy cz yy zz xx s s' Hs Hcell)
        as (Hs' & Hkeep).
      split; [done|]. rewrite Hkeep; [done|]. intros Hi. symmetry in Hi.
      destruct (call_hits wd x y z w h d cx cy cz section yy zz xx X Y Z Hw Hh Hd Hcall HC Hi)
        as (_ & -> & _ & ->).
      destruct Hcall as ((chunk & Hc & _) & _). congruence. }
    destruct Ha as (Hg & Hv). apply (Hget snap) in Hv as (-> & -> & ->); [|done].
    split; [vm_compute; reflexivity|done].
  - intros chunkC Hchunk HcyC HsecC.
    set (vA := (Some (get_steven_id Air mod 2 ^ 16), Some 0%Z, Some 15%Z)).
    set (P1 := fun t => snap_good x y z w d t /\
                 (cell_view t iC = (Some (get_steven_id Missing mod 2 ^ 16), Some 0%Z, Some 15%Z)
                  \/ cell_view t iC = vA)).
    set (P2 := fun t => snap_good x y z w d t /\ cell_view t iC = vA).
    assert (Hstep : forall cx cy cz section yy zz xx s s',
      valid_call wd x y z w h d cx cy cz section yy zz xx -> P1 s ->
      capture_cell section cx cy cz yy zz s xx = Some s' ->
      snap_good x y z w d s' /\
      (idx x y z w d (xx + Z.shiftl cx 4) (yy + Z.shiftl cy 4) (zz + Z.shiftl cz 4) = iC ->
       cell_view s' iC = vA) /\
      (idx x y z w d (xx + Z.shiftl cx 4) (yy + Z.shiftl cy 4) (zz + Z.shiftl cz 4) <> iC ->
       cell_view s' iC = cell_view s iC)).
    { intros cx cy cz section yy zz xx s s' Hcall (Hs & Hvs) Hcell.
      destruct (capture_cell_frame x y z w d section cx cy cz yy zz xx s s' Hs Hcell)
        as (Hs' & Hkeep).
      split; [done|]. split; [|intros Hi; apply Hkeep; congruence].
      intros Hi.
      destruct (call_hits wd x y z w h d cx cy cz section yy zz xx X Y Z Hw Hh Hd Hcall HC Hi)
        as (_ & -> & -> & ->).
      destruct Hcall as ((chunk & Hc & Hsec) & _).
      rewrite Hchunk in Hc. injection Hc as <-. rewrite HsecC in Hsec. injection Hsec as <-.
      rewrite <- Hi. unfold vA.
      rewrite <- Hi in Hvs. unfold vA in Hvs.
      destruct Hvs as [Hvs|Hvs];
        exact (capture_cell_air _ _ _ _ _ _ x y z w d s s' Hs Hcell _ _ _ Hvs). }
    assert (H2 : P2 snap).
    { refine (capture_loops_visit wd x y z w h d P1 P2 _ _ X Y Z chunkC None
                HC Hchunk HcyC HsecC _ s0 snap _ H).
      - intros cx cy cz section yy zz xx s s' Hcall Hs Hcell.
        destruct (Hstep _ _ _ _ _ _ _ _ _ Hcall Hs Hcell) as (Hs' & Hhit & Hmiss).
        split; [done|].
        destruct (decide (idx x y z w d (xx + Z.shiftl cx 4) (yy + Z.shiftl cy 4)
                            (zz + Z.shiftl cz 4) = iC)) as [Hi|Hi].
        + right. by apply Hhit.
        + rewrite Hmiss by done. apply Hs.
      - intros cx cy cz section yy zz xx s s' Hcall Hs Hcell.
        assert (Hs1 : P1 s) by (destruct Hs as [? ?]; split; [done|by right]).
        destruct (Hstep _ _ _ _ _ _ _ _ _ Hcall Hs1 Hcell) as (Hs' & Hhit & Hmiss).
        split; [done|].
        destruct (decide (idx x y z w d (xx + Z.shiftl cx 4) (yy + Z.shiftl cy 4)
                            (zz + Z.shiftl cz 4) = iC)) as [Hi|Hi].
        + by apply Hhit.
        + rewrite Hmiss by done. apply Hs.
      - intros s s' (Hs & Hvs) Hcell.
        assert (Ho : (X - Z.shiftl (Z.shiftr X 4) 4 + Z.shiftl (Z.shiftr X 4) 4 = X /\
                      Y - Z.shiftl (Z.shiftr Y 4) 4 + Z.shiftl (Z.shiftr Y 4) 4 = Y /\
                      Z - Z.shiftl (Z.shiftr Z 4) 4 + Z.shiftl (Z.shiftr Z 4) 4 = Z)%Z) by lia.
        destruct Ho as (HoX & HoY & HoZ).
        pose proof (capture_cell_air _ _ _ _ _ _ x y z w d s s' Hs Hcell) as Hair.
        rewrite HoX, HoY, HoZ in Hair.
        split.
        + exact (proj1 (capture_cell_frame x y z w d None _ _ _ _ _ _ s s' Hs Hcell)).
        + unfold vA in *. destruct Hvs as [Hvs|Hvs]; exact (Hair _ _ _ Hvs).
      - split; [done|]. left. exact Hv0. }
    destruct H2 as (Hg & Hv). apply (Hget snap) in Hv as (-> & -> & ->); [|done].
    split; [vm_compute; reflexivity|done].
Qed.

Lemma capture_snapshot_sentinels_witness :
  capture_snapshot demo_world 0 40 0 2 2 2 = Some demo_capture /\
  demo_world !! (Z.shiftr 0 4, Z.shiftr 0 4) <> None /\
  ((demo_world !! (Z.shiftr 0 4, Z.shiftr 0 4) = None ->
     snapshot_get_block demo_capture 0 40 0 = Some Missing /\
     snapshot_get_sky_light demo_capture 0 40 0 = Some 15%Z /\
     snapshot_get_block_light demo_capture 0 40 0 = Some 0%Z) /\
  (forall chunk, demo_world !! (Z.shiftr 0 4, Z.shiftr 0 4) = Some chunk ->
     in16 (Z.shiftr 40 4) -> chunk_sections chunk !! Z.to_nat (Z.shiftr 40 4) = Some None ->
     snapshot_get_block demo_capture 0 40 0 = Some Air /\
     snapshot_get_sky_light demo_capture 0 40 0 = Some 15%Z /\
     snapshot_get_block_light demo_capture 0 40 0 = Some 0%Z)).
Proof.
  split; [vm_compute; reflexivity|]. split; [vm_compute; discriminate|].
  apply (capture_snapshot_sentinels demo_world 0 40 0 2 2 2 0 40 0 demo_capture).
  - lia.
  - lia.
  - lia.
  - unfold in_region. lia.
  - vm_compute. reflexivity.
Defined.

(** * Further properties of the world module *)

(** ** Cells and columns *)

Lemma cell_split (X : Z) : X = (Z.shiftl (Z.shiftr X 4) 4 + Z.land X 15)%Z.
Proof.
  rewrite Z.shiftl_mul_pow2, Z.shiftr_div_pow2 by lia.
  change 15%Z with (Z.ones 4). rewrite Z.land_ones by lia.
  pose proof (Z.div_mod X (2 ^ 4) ltac:(lia)). lia.
Qed.

Lemma cell_eq (X x : Z) :
  Z.shiftr X 4 = Z.shiftr x 4 -> Z.land X 15 = Z.land x 15 -> X = x.
Proof. intros H1 H2. rewrite (cell_split X), (cell_split x), H1, H2. done. Qed.

Lemma world_get_block_insert_other (w : World) (cpos : Z * Z) (c : Chunk) (X Y Z : Z) :
  (Z.shiftr X 4, Z.shiftr Z 4) <> cpos ->
  world_get_block (<[cpos := c]> w) X Y Z = world_get_block w X Y Z.
Proof. intros H. unfold world_get_block. by rewrite lookup_insert_ne by congruence. Qed.

Lemma world_get_block_insert_same (w : World) (c : Chunk) (X Y Z : Z) :
  world_get_block (<[(Z.shiftr X 4, Z.shiftr Z 4) := c]> w) X Y Z =
  chunk_get_block c (Z.land X 15) Y (Z.land Z 15).
Proof. unfold world_get_block. by rewrite lookup_insert_eq. Qed.

Lemma to_nat_in16_inj (a b : Z) : in16 a -> in16 b -> Z.to_nat a = Z.to_nat b -> a = b.
Proof. unfold in16. lia. Qed.

(** [Chunk::set_block] changes no other cell of the column. *)
Lemma chunk_set_block_frame (pos : Z * Z) (c c' : Chunk) (x y z X Y Z : Z) (b : Block) :
  chunk_wf pos c -> in16 x -> in16 z -> in16 X -> in16 Z ->
  chunk_set_block c x y z b = Some c' -> (X, Y, Z) <> (x, y, z) ->
  chunk_get_block c' X Y Z = chunk_get_block c X Y Z.
Proof.
  intros Hwf Hx Hz HX HZ H Hne. unfold chunk_set_block in H.
  destruct (slot_out_of_range (Z.shiftr y 4)) eqn:Er; [by injection H as <-|].
  apply slot_out_of_range_false in Er as Hs.
  destruct (chunk_slot_lookup pos c _ Hwf Hs) as [os Hos]. rewrite Hos in H.
  destruct Hwf as (Hp & Hlen & Hsec).
  (* the slot of [y] receives [sec']; any other slot is untouched *)
  assert (Hput : forall sec sec', sec_inv sec ->
            (forall X' Z', in16 X' -> in16 Z' -> Z.shiftr Y 4 = Z.shiftr y 4 ->
               chunk_get_block c X' Y Z' = section_get_block sec X' (Z.land Y 15) Z') ->
            section_set_block sec x (Z.land y 15) z b = Some sec' ->
            chunk_get_block (chunk_set_section c (Z.to_nat (Z.shiftr y 4)) (Some sec')) X Y Z
            = chunk_get_block c X Y Z).
  { intros sec sec' Hinv Hold Hset.
    unfold chunk_get_block at 1. cbn [chunk_sections chunk_set_section].
    destruct (slot_out_of_range (Z.shiftr Y 4)) eqn:ErY.
    { unfold chunk_get_block. by rewrite ErY. }
    apply slot_out_of_range_false in ErY as HsY.
    destruct (decide (Z.shiftr Y 4 = Z.shiftr y 4)) as [Heq|Hneq].
    - rewrite Heq, list_lookup_insert_eq by (unfold in16 in Hs; lia).
      rewrite Hold by done.
      destruct (section_set_block_spec sec x (Z.land y 15) z b Hinv Hx (land15_in16 y) Hz)
        as (s2 & Hset2 & _ & _ & Hframe & _).
      rewrite Hset in Hset2. injection Hset2 as <-.
      apply Hframe; [done|apply land15_in16|done|].
      intros Hi. apply sec_index_inj in Hi as (-> & HY & ->);
        [|done|apply land15_in16|done|done|apply land15_in16|done].
      apply Hne. by rewrite (cell_eq Y y Heq HY).
    - rewrite list_lookup_insert_ne.
      + unfold chunk_get_block. by rewrite ErY.
      + intros E. apply Hneq. symmetry. by apply to_nat_in16_inj. }
  destruct os as [sec|].
  - destruct (Hsec _ _ Hos) as (Hinv & _ & _). simpl in H.
    destruct (section_set_block sec x (Z.land y 15) z b) as [sec'|] eqn:Eset;
      [|discriminate]. simpl in H. injection H as <-.
    apply (Hput sec); [done| |done].
    intros X' Z' _ _ E. unfold chunk_get_block.
    rewrite E. apply slot_out_of_range_false in Hs as ->. by rewrite Hos.
  - assert (Hnew : forall sec', section_set_block
                (section_new (chunk_position c).1 (Z.shiftr y 4) (chunk_position c).2)
                x (Z.land y 15) z b = Some sec' ->
              chunk_get_block (chunk_set_section c (Z.to_nat (Z.shiftr y 4)) (Some sec')) X Y Z
              = chunk_get_block c X Y Z).
    { intros sec' Eset.
      apply (Hput _ sec' (section_new_inv (chunk_position c).1 (Z.shiftr y 4) (chunk_position c).2)); [|done].
      intros X' Z' HX' HZ' E. unfold chunk_get_block.
      rewrite E. apply slot_out_of_range_false in Hs as ->. rewrite Hos.
      symmetry. apply section_new_get; [done|apply land15_in16|done]. }
    destruct b as [| |n]; simpl in H.
    + by injection H as <-.
    + destruct (section_set_block _ _ _ _ Missing) as [sec'|] eqn:Eset; [|discriminate].
      simpl in H. injection H as <-. by apply Hnew.
    + destruct (section_set_block _ _ _ _ (Other n)) as [sec'|] eqn:Eset; [|discriminate].
      simpl in H. injection H as <-. by apply Hnew.
Qed.

(** X1: in a well-formed world, [World::set_block] at [(x, y, z)] changes
    the block read at no other position [(X, Y, Z)], provided the column of
    [(x, y, z)] was already loaded or [(X, Y, Z)] lies in another column. *)
Theorem world_set_block_frame (w w' : World) (x y z X Y Z : Z) (b : Block) :
  world_wf w ->
  (is_chunk_loaded w (Z.shiftr x 4) (Z.shiftr z 4) = true \/
   (Z.shiftr X 4, Z.shiftr Z 4) <> (Z.shiftr x 4, Z.shiftr z 4)) ->
  world_set_block w x y z b = Some w' -> (X, Y, Z) <> (x, y, z) ->
  world_get_block w' X Y Z = world_get_block w X Y Z.
Proof.
  intros Hwf Hcase H Hne. unfold world_set_block in H.
  set (cpos := (Z.shiftr x 4, Z.shiftr z 4)) in *.
  destruct (decide ((Z.shiftr X 4, Z.shiftr Z 4) = cpos)) as [Hc|Hc].
  - destruct Hcase as [Hl|Hl]; [|done].
    unfold is_chunk_loaded in Hl. apply bool_decide_eq_true in Hl as [c Ec].
    fold cpos in Ec. rewrite Ec in H. simpl in H. rewrite Ec in H. simpl in H.
    destruct (chunk_set_block c (Z.land x 15) y (Z.land z 15) b) as [c'|] eqn:Es;
      [|discriminate]. simpl in H. injection H as <-.
    rewrite <- Hc, world_get_block_insert_same.
    unfold world_get_block. rewrite Hc, Ec.
    apply (chunk_set_block_frame cpos c c' (Z.land x 15) y (Z.land z 15)
             (Z.land X 15) Y (Z.land Z 15) b (Hwf _ _ Ec)); try apply land15_in16; [done|].
    intros E. injection E as E1 E2 E3. apply Hne. injection Hc as Hc1 Hc2.
    f_equal; [f_equal|]; [by apply cell_eq|done|by apply cell_eq].
  - destruct (w !! cpos) as [c0|] eqn:E0; simpl in H.
    + rewrite E0 in H. simpl in H.
      destruct (chunk_set_block c0 _ _ _ _) as [c'|]; [|discriminate]. simpl in H.
      injection H as <-. by apply world_get_block_insert_other.
    + rewrite lookup_insert_eq in H. simpl in H.
      destruct (chunk_set_block _ _ _ _ _) as [c'|]; [|discriminate]. simpl in H.
      injection H as <-. rewrite insert_insert_eq.
      by apply world_get_block_insert_other.
Qed.

(** X2: [World::set_block] into a column that is not loaded creates it: the
    column is loaded afterwards, and every other cell of it whose vertical
    slot lies in [0, 16) reads air (before the call it read "missing"). *)
Theorem world_set_block_unloaded_column (w w' : World) (x y z : Z) (b : Block) :
  is_chunk_loaded w (Z.shiftr x 4) (Z.shiftr z 4) = false ->
  world_set_block w x y z b = Some w' ->
  is_chunk_loaded w' (Z.shiftr x 4) (Z.shiftr z 4) = true /\
  forall X Y Z, (Z.shiftr X 4, Z.shiftr Z 4) = (Z.shiftr x 4, Z.shiftr z 4) ->
    (X, Y, Z) <> (x, y, z) -> in16 (Z.shiftr Y 4) ->
    world_get_block w X Y Z = Some Missing /\ world_get_block w' X Y Z = Some Air.
Proof.
  intros Hl H. unfold is_chunk_loaded in Hl. apply bool_decide_eq_false in Hl.
  unfold world_set_block in H. set (cpos := (Z.shiftr x 4, Z.shiftr z 4)) in *.
  destruct (w !! cpos) as [c0|] eqn:E0; [by destruct Hl|].
  rewrite lookup_insert_eq in H. simpl in H.
  destruct (chunk_set_block (chunk_new cpos) (Z.land x 15) y (Z.land z 15) b) as [c'|] eqn:Es;
    [|discriminate]. simpl in H. injection H as <-. rewrite insert_insert_eq.
  split.
  - unfold is_chunk_loaded. apply bool_decide_eq_true. fold cpos. rewrite lookup_insert_eq. by eexists.
  - intros X Y Z Hc Hne HY. split.
    + unfold world_get_block. rewrite Hc. fold cpos. by rewrite E0.
    + rewrite <- Hc, world_get_block_insert_same.
      rewrite (chunk_set_block_frame cpos (chunk_new cpos) c' (Z.land x 15) y (Z.land z 15)
                 (Z.land X 15) Y (Z.land Z 15) b (chunk_new_wf cpos)); try apply land15_in16.
      * unfold chunk_get_block. rewrite (proj2 (slot_out_of_range_false _) HY).
        unfold chunk_new. cbn [chunk_sections].
        rewrite lookup_repeat_lt by (unfold in16 in HY; lia). done.
      * done.
      * intros E. injection E as E1 E2 E3. apply Hne. injection Hc as Hc1 Hc2.
        f_equal; [f_equal|]; [by apply cell_eq|done|by apply cell_eq].
Qed.

(** X3: [World::set_block] with a vertical slot [y >> 4] outside [0, 16)
    writes nothing; it still loads a fresh column when the column was not
    loaded. *)
Theorem world_set_block_out_of_range (w : World) (x y z : Z) (b : Block) :
  ~ in16 (Z.shiftr y 4) ->
  world_set_block w x y z b =
  Some (if is_chunk_loaded w (Z.shiftr x 4) (Z.shiftr z 4) then w
        else <[(Z.shiftr x 4, Z.shiftr z 4) := chunk_new (Z.shiftr x 4, Z.shiftr z 4)]> w).
Proof.
  intros Hy. assert (Er : slot_out_of_range (Z.shiftr y 4) = true).
  { destruct (slot_out_of_range _) eqn:E; [done|]. by apply slot_out_of_range_false in E. }
  unfold world_set_block, is_chunk_loaded.
  destruct (w !! (Z.shiftr x 4, Z.shiftr z 4)) as [c|] eqn:E.
  - rewrite E. simpl. unfold chunk_set_block. rewrite Er. simpl.
    try (case_bool_decide as Hb; [|by destruct Hb]). by rewrite insert_id.
  - rewrite lookup_insert_eq. simpl. unfold chunk_set_block. rewrite Er. simpl.
    try (case_bool_decide as Hb; [by destruct Hb as [? ?]|]). by rewrite insert_insert_eq.
Qed.

(** X4: writing air at a position of a loaded column whose vertical slot
    holds no section leaves the world unchanged: no section is created. *)
Theorem world_set_block_air_empty_slot (w : World) (x y z : Z) (c : Chunk) :
  w !! (Z.shiftr x 4, Z.shiftr z 4) = Some c -> in16 (Z.shiftr y 4) ->
  chunk_sections c !! Z.to_nat (Z.shiftr y 4) = Some None ->
  world_set_block w x y z Air = Some w.
Proof.
  intros Ec Hy Hs. unfold world_set_block. rewrite Ec. simpl. rewrite Ec. simpl.
  unfold chunk_set_block. apply slot_out_of_range_false in Hy as ->. rewrite Hs. simpl.
  by rewrite insert_id.
Qed.

(** X5: after [World::unload_chunk x z] the column [(x, z)] is not loaded,
    every cell in it reads "missing", and every cell of another column
    reads as before. *)
Theorem unload_chunk_spec (w : World) (x z : Z) :
  is_chunk_loaded (unload_chunk w x z) x z = false /\
  (forall X Y Z, (Z.shiftr X 4, Z.shiftr Z 4) = (x, z) ->
     world_get_block (unload_chunk w x z) X Y Z = Some Missing) /\
  (forall X Y Z, (Z.shiftr X 4, Z.shiftr Z 4) <> (x, z) ->
     world_get_block (unload_chunk w x z) X Y Z = world_get_block w X Y Z).
Proof.
  unfold unload_chunk, is_chunk_loaded, world_get_block. split_and!.
  - apply bool_decide_eq_false. rewrite lookup_delete_eq. by intros [? ?].
  - intros X Y Z ->. by rewrite lookup_delete_eq.
  - intros X Y Z Hne. by rewrite lookup_delete_ne by congruence.
Qed.

Lemma chunk_get_block_flag_dirty_all (c : Chunk) (X Y Z : Z) :
  chunk_get_block (chunk_flag_dirty_all c) X Y Z = chunk_get_block c X Y Z.
Proof.
  unfold chunk_get_block, chunk_flag_dirty_all. cbn [chunk_sections].
  destruct (slot_out_of_range _); [done|]. rewrite lookup_map_list.
  destruct (chunk_sections c !! _) as [[sec|]|]; simpl; [|done|done].
  apply section_get_block_set_flags.
Qed.

(** X6: [World::flag_dirty_all] sets the dirty flag of every section of
    every loaded column, keeping its building flag and everything else, and
    creates or removes no section or column, nor changes any block read. *)
Theorem flag_dirty_all_spec (w : World) :
  (forall cpos i, section_at (flag_dirty_all w) cpos i =
     (fun s => section_set_flags s true (sec_building s)) <$> section_at w cpos i) /\
  (forall x z, is_chunk_loaded (flag_dirty_all w) x z = is_chunk_loaded w x z) /\
  (forall X Y Z, world_get_block (flag_dirty_all w) X Y Z = world_get_block w X Y Z).
Proof.
  unfold flag_dirty_all. split_and!.
  - intros cpos i. unfold section_at. rewrite lookup_fmap.
    destruct (w !! cpos) as [c|]; simpl; [|done].
    unfold chunk_flag_dirty_all. cbn [chunk_sections]. rewrite lookup_map_list.
    by destruct (chunk_sections c !! i) as [[sec|]|].
  - intros x z. unfold is_chunk_loaded. rewrite lookup_fmap.
    by destruct (w !! (x, z)).
  - intros X Y Z. unfold world_get_block. rewrite lookup_fmap.
    destruct (w !! _) as [c|]; simpl; [|done]. apply chunk_get_block_flag_dirty_all.
Qed.

(** X7: right after [World::flag_dirty_all], [get_dirty_chunk_sections]
    lists exactly the sections of the world whose building flag is
    false. *)
Theorem flag_dirty_all_get_dirty (w : World) (e : Z * Z * Z * (Z * Z * Z)) :
  In e (get_dirty_chunk_sections (flag_dirty_all w)) <->
  exists pos c j sec, w !! pos = Some c /\ chunk_sections c !! j = Some (Some sec) /\
    sec_building sec = false /\
    e = ((chunk_position c).1, sec_y sec, (chunk_position c).2, sec_key sec).
Proof.
  rewrite in_get_dirty. split.
  - intros (pos & c & j & sec & Hc & Hs & Hb & Hd & ->).
    unfold flag_dirty_all in Hc. rewrite lookup_fmap in Hc.
    destruct (w !! pos) as [c0|] eqn:E0; simpl in Hc; [|discriminate]. injection Hc as <-.
    unfold chunk_flag_dirty_all in Hs. cbn [chunk_sections] in Hs.
    rewrite lookup_map_list in Hs.
    destruct (chunk_sections c0 !! j) as [[sec0|]|] eqn:Es; simpl in Hs; try discriminate.
    injection Hs as <-. exists pos, c0, j, sec0. split_and!; done.
  - intros (pos & c & j & sec & Hc & Hs & Hb & ->).
    exists pos, (chunk_flag_dirty_all c), j, (section_set_flags sec true (sec_building sec)).
    split_and!.
    + unfold flag_dirty_all. by rewrite lookup_fmap, Hc.
    + unfold chunk_flag_dirty_all. cbn [chunk_sections]. by rewrite lookup_map_list, Hs.
    + done.
    + done.
    + done.
Qed.

(** X8: [set_building_flag] and [reset_building_flag] do nothing when the
    column is not loaded or the addressed slot holds no section, and panic
    ([chunk.sections[pos.1 as usize]] out of bounds) when the column is
    loaded and the slot index lies outside [0, 16). *)
Theorem building_flags_edges (w : World) (px py pz : Z) :
  (w !! (px, pz) = None ->
     set_building_flag w (px, py, pz) = Some w /\ reset_building_flag w (px, py, pz) = Some w) /\
  (forall c, w !! (px, pz) = Some c -> ~ in16 py ->
     set_building_flag w (px, py, pz) = None /\ reset_building_flag w (px, py, pz) = None) /\
  (forall c, w !! (px, pz) = Some c -> in16 py -> chunk_sections c !! Z.to_nat py = Some None ->
     set_building_flag w (px, py, pz) = Some w /\ reset_building_flag w (px, py, pz) = Some w).
Proof.
  unfold set_building_flag, reset_building_flag, update_section. split_and!.
  - intros E. by rewrite E.
  - intros c E Hy. rewrite E.
    destruct (slot_out_of_range py) eqn:Er; [done|]. by apply slot_out_of_range_false in Er.
  - intros c E Hy Hs. rewrite E. apply slot_out_of_range_false in Hy as ->. by rewrite Hs.
Qed.

Lemma section_at_insert_other (w : World) (cpos cpos' : Z * Z) (c : Chunk) (i i' : nat)
    (os : option Section) :
  (cpos', i') <> (cpos, i) ->
  w !! cpos = Some c ->
  section_at (<[cpos := chunk_set_section c i os]> w) cpos' i' = section_at w cpos' i'.
Proof.
  intros Hne Ec. unfold section_at. rewrite lookup_insert.
  destruct (decide (cpos = cpos')) as [<-|Hc]; [|done].
  rewrite Ec. simpl. rewrite list_lookup_insert_ne; [done|]. congruence.
Qed.

(** X9: [reset_building_flag] on an existing section clears its building
    flag, keeps its dirty flag and the rest of it, and changes no other
    section of the world. *)
Theorem reset_building_flag_spec (w : World) (cpos : Z * Z) (i : nat) (sec : Section) :
  section_at w cpos i = Some sec -> i < 16 ->
  exists w', reset_building_flag w (cpos.1, Z.of_nat i, cpos.2) = Some w' /\
    section_at w' cpos i = Some (section_set_flags sec (sec_dirty sec) false) /\
    forall cpos' i', (cpos', i') <> (cpos, i) -> section_at w' cpos' i' = section_at w cpos' i'.
Proof.
  intros Hat Hi.
  destruct (update_section_at w cpos i sec (fun s => section_set_flags s (sec_dirty s) false) Hat Hi)
    as (c & Ec & Ei & Hu).
  eexists. split_and!; [exact Hu| |].
  - eapply section_at_insert. exact Ei.
  - intros cpos' i' Hne. by apply section_at_insert_other.
Qed.

(** ** [World::load_chunk] *)

(** X10: [load_chunk] with [new = false] on a column that is not loaded
    returns [Ok] at once and leaves the world as it was, whatever the mask
    and the payload. *)
Theorem load_chunk_absent_not_new (w : World) (x z mask : Z) (data : list Byte.byte) :
  is_chunk_loaded w x z = false ->
  load_chunk w x z false mask data = Some (w, LoadOk).
Proof.
  intros Hl. unfold is_chunk_loaded in Hl. apply bool_decide_eq_false in Hl.
  unfold load_chunk. destruct (w !! (x, z)); [by destruct Hl|done].
Qed.

Lemma section_set_block_dirty_mono (s s' : Section) (x y z : Z) (b : Block) :
  section_set_block s x y z b = Some s' -> sec_dirty s = true -> sec_dirty s' = true.
Proof.
  unfold section_set_block.
  destruct (section_get_block s x y z) as [old|]; simpl; [|discriminate].
  destruct (decide (old = b)); [by intros [= <-]|].
  destruct (sec_rev_block_map s !! old) as [i|]; simpl; [|discriminate].
  destruct (sec_block_map s !! i) as [info|]; simpl; [|discriminate].
  destruct (palette_alloc _ _ _ _) as [[bm2 rev2] blocks2].
  destruct (rev2 !! b) as [i2|]; simpl; [|discriminate].
  destruct (bm2 !! i2) as [info2|]; simpl; [|discriminate].
  by intros [= <-].
Qed.

Lemma load_section_ok_dirty (sec sec' : Section) (d d' : list Byte.byte) :
  load_section sec d = LOk sec' d' -> sec_dirty sec' = true.
Proof.
  unfold load_section.
  destruct (read_u8 d) as [[bs d1]|e]; [|discriminate].
  destruct (if Z.leb bs 8 then read_palette d1 else inl (∅, d1)) as [[bmap d2]|e];
    [|discriminate].
  destruct (read_lenprefixed_u64 d2) as [[bits d3]|e]; [|discriminate].
  destruct (fill_section _ _ _) as [sec1|] eqn:Ef; [|discriminate].
  assert (Hd1 : sec_dirty sec1 = true).
  { unfold fill_section in Ef.
    refine (fold_opt_inv (fun s => sec_dirty s = true) _ _ _ _ _ _ Ef); [|done].
    intros s i s2 _ Hs Hc. unfold fill_cell in Hc.
    destruct (bitmap_get _ i) as [v|]; simpl in Hc; [|discriminate].
    exact (section_set_block_dirty_mono _ _ _ _ _ _ Hc Hs). }
  destruct (read_exact _ d3) as [[bl d4] [e|]]; [discriminate|].
  destruct (read_exact _ d4) as [[sl d5] [e|]]; [discriminate|].
  by intros [= <- _].
Qed.

Lemma load_sections_skip (x z mask : Z) (l : list nat) :
  forall c d c' d' j, load_sections x z mask l c d = LOk c' d' -> mask_bit mask j = false ->
  chunk_sections c' !! j = chunk_sections c !! j.
Proof.
  induction l as [|i l IH]; intros c d c' d' j H Hj; simpl in H.
  - by injection H as <- _.
  - destruct (mask_bit mask i) eqn:Hi; simpl in H; [|exact (IH _ _ _ _ _ H Hj)].
    destruct (chunk_sections c !! i) as [os|] eqn:Eos; [|discriminate].
    destruct (load_section _ d) as [sec' d1| |]; try discriminate.
    rewrite (IH _ _ _ _ _ H Hj). cbn [chunk_sections chunk_set_section].
    rewrite list_lookup_insert_ne; [done|]. intros ->. congruence.
Qed.

Lemma load_sections_dirty (x z mask : Z) (l : list nat) :
  forall c d c' d', NoDup l -> load_sections x z mask l c d = LOk c' d' ->
  forall j, In j l -> mask_bit mask j = true ->
  exists s, chunk_sections c' !! j = Some (Some s) /\ sec_dirty s = true.
Proof.
  induction l as [|i l IH]; intros c d c' d' Hnd H j Hj Hm; [destruct Hj|].
  apply NoDup_cons in Hnd as [Hni Hnd]. simpl in H.
  destruct (mask_bit mask i) eqn:Hi; simpl in H.
  - destruct (chunk_sections c !! i) as [os|] eqn:Eos; [|discriminate].
    destruct (load_section _ d) as [sec' d1| |] eqn:El; try discriminate.
    destruct (decide (j = i)) as [->|Hji].
    + exists sec'. split; [|exact (load_section_ok_dirty _ _ _ _ El)].
      rewrite (load_sections_ok_other x z mask l _ _ _ _ i H)
        by (intros Hin; apply Hni, list_elem_of_In, Hin).
      cbn [chunk_sections chunk_set_section].
      apply list_lookup_insert_eq. by apply lookup_lt_Some in Eos.
    + destruct Hj as [<-|Hj]; [done|]. exact (IH _ _ _ _ Hnd H j Hj Hm).
  - destruct Hj as [<-|Hj]; [congruence|]. exact (IH _ _ _ _ Hnd H j Hj Hm).
Qed.

(** [flag_section_dirty] only sets the dirty flag of one existing section. *)
Lemma flag_section_dirty_at (w : World) (a b c : Z) (cpos : Z * Z) (i : nat) :
  section_at (flag_section_dirty w a b c) cpos i = section_at w cpos i \/
  exists s, section_at w cpos i = Some s /\
    section_at (flag_section_dirty w a b c) cpos i = Some (section_set_flags s true (sec_building s)).
Proof.
  unfold flag_section_dirty.
  destruct (slot_out_of_range b); [by left|].
  destruct (w !! (a, c)) as [ch|] eqn:Ec; [|by left].
  destruct (chunk_sections ch !! Z.to_nat b) as [[sec|]|] eqn:Es; [|by left|by left].
  destruct (decide ((cpos, i) = ((a, c), Z.to_nat b))) as [E|Hne].
  - injection E as -> ->. right. exists sec. split.
    + unfold section_at. rewrite Ec. simpl. by rewrite Es.
    + by eapply section_at_insert.
  - left. by apply section_at_insert_other.
Qed.

Lemma flag_section_dirty_loaded (w : World) (a b c : Z) (cpos : Z * Z) :
  is_Some (flag_section_dirty w a b c !! cpos) <-> is_Some (w !! cpos).
Proof.
  unfold flag_section_dirty.
  destruct (slot_out_of_range b); [done|].
  destruct (w !! (a, c)) as [ch|] eqn:Ec; [|done].
  destruct (chunk_sections ch !! Z.to_nat b) as [[sec|]|]; [|done|done].
  rewrite lookup_insert. destruct (decide _) as [<-|]; [|done].
  rewrite Ec. split; intros _; by eexists.
Qed.

Lemma chunk_get_block_set_flags_at (ch : Chunk) (j : nat) (sec : Section) (d bd : bool)
    (X Y Z : Z) :
  chunk_sections ch !! j = Some (Some sec) ->
  chunk_get_block (chunk_set_section ch j (Some (section_set_flags sec d bd))) X Y Z =
  chunk_get_block ch X Y Z.
Proof.
  intros Es. unfold chunk_get_block. cbn [chunk_sections chunk_set_section].
  destruct (slot_out_of_range _); [done|].
  destruct (decide (j = Z.to_nat (Z.shiftr Y 4))) as [<-|Hne].
  - rewrite list_lookup_insert_eq by (by apply lookup_lt_Some in Es).
    rewrite Es. apply section_get_block_set_flags.
  - by rewrite list_lookup_insert_ne by done.
Qed.

Lemma flag_section_dirty_get (w : World) (a b c X Y Z : Z) :
  world_get_block (flag_section_dirty w a b c) X Y Z = world_get_block w X Y Z.
Proof.
  unfold flag_section_dirty.
  destruct (slot_out_of_range b); [done|].
  destruct (w !! (a, c)) as [ch|] eqn:Ec; [|done].
  destruct (chunk_sections ch !! Z.to_nat b) as [[sec|]|] eqn:Es; [|done|done].
  unfold world_get_block. rewrite lookup_insert.
  destruct (decide _) as [E|]; [|done]. rewrite <- E, Ec.
  by apply chunk_get_block_set_flags_at.
Qed.

Lemma flag_neighbours_inv (P : World -> Prop) (w : World) (x z mask : Z) :
  (forall w a b c, P w -> P (flag_section_dirty w a b c)) -> P w ->
  P (flag_neighbours w x z mask).
Proof.
  intros HP Hw. unfold flag_neighbours. apply fold_left_inv; [|done].
  intros w1 i Hw1. destruct (negb (mask_bit mask i)); [done|].
  apply fold_left_inv; [|done]. intros w2 [[dx dy] dz] Hw2. by apply HP.
Qed.

(** X11: a [load_chunk] that returns [Ok] on a column that was loaded or
    with [new = true] leaves the column loaded, with a section marked dirty
    in every slot selected by [mask]; with [new = true] the column is
    replaced by a fresh one, so every slot not selected by [mask] holds no
    section afterwards, whatever it held before. *)
Theorem load_chunk_ok_slots (w w' : World) (x z mask : Z) (new : bool) (data : list Byte.byte) :
  load_chunk w x z new mask data = Some (w', LoadOk) ->
  is_chunk_loaded w x z = true \/ new = true ->
  is_chunk_loaded w' x z = true /\
  (forall j, j < 16 -> mask_bit mask j = true ->
     exists s, section_at w' (x, z) j = Some s /\ sec_dirty s = true) /\
  (new = true -> forall j, j < 16 -> mask_bit mask j = false -> section_at w' (x, z) j = None).
Proof.
  intros H Hcase. unfold load_chunk in H.
  set (w1 := if new then Some (<[(x, z) := chunk_new (x, z)]> w) else
             match w !! (x, z) with Some _ => Some w | None => None end) in H.
  assert (Hw1 : exists w1' c0, w1 = Some w1' /\ w1' !! (x, z) = Some c0 /\
                  (new = true -> c0 = chunk_new (x, z))).
  { unfold w1. destruct new.
    - eexists _, _. split_and!; [done|apply lookup_insert_eq|done].
    - destruct Hcase as [Hl|]; [|discriminate].
      unfold is_chunk_loaded in Hl. apply bool_decide_eq_true in Hl as [c0 Ec0].
      rewrite Ec0. exists w, c0. split_and!; done. }
  destruct Hw1 as (w1' & c0 & -> & Ec0 & Hnew). rewrite Ec0 in H.
  destruct (load_sections x z mask (seq 0 16) c0 data) as [c' d'|c' e|] eqn:El;
    [|discriminate|discriminate].
  injection H as <-.
  set (P := fun v : World =>
    is_Some (v !! (x, z)) /\
    (forall j, j < 16 -> mask_bit mask j = true ->
       exists s, section_at v (x, z) j = Some s /\ sec_dirty s = true) /\
    (new = true -> forall j, j < 16 -> mask_bit mask j = false -> section_at v (x, z) j = None)).
  assert (HP : P (flag_neighbours (<[(x, z) := c']> w1') x z mask)).
  { apply flag_neighbours_inv.
    - intros v a b c (Hl & Hd & Hn). split_and!.
      + by apply flag_section_dirty_loaded.
      + intros j Hj Hm. destruct (Hd j Hj Hm) as (s & Hs & Hds).
        destruct (flag_section_dirty_at v a b c (x, z) j) as [->|(s0 & Hs0 & ->)].
        * by exists s.
        * rewrite Hs in Hs0. injection Hs0 as <-. by eexists.
      + intros Hn' j Hj Hm.
        destruct (flag_section_dirty_at v a b c (x, z) j) as [->|(s0 & Hs0 & _)].
        * by apply Hn.
        * by rewrite (Hn Hn' j Hj Hm) in Hs0.
    - split_and!.
      + rewrite lookup_insert_eq. by eexists.
      + intros j Hj Hm.
        destruct (load_sections_dirty x z mask (seq 0 16) c0 data c' d' (NoDup_seq 0 16) El j
                    ltac:(apply in_seq; lia) Hm) as (s & Hs & Hds).
        exists s. split; [|done]. unfold section_at. rewrite lookup_insert_eq. simpl.
        by rewrite Hs.
      + intros Hn' j Hj Hm. unfold section_at. rewrite lookup_insert_eq. simpl.
        rewrite (load_sections_skip x z mask _ _ _ _ _ j El Hm), (Hnew Hn').
        unfold chunk_new. cbn [chunk_sections]. by rewrite lookup_repeat_lt by lia. }
  destruct HP as (Hl & Hd & Hn). split_and!; [|done|done].
  unfold is_chunk_loaded. by apply bool_decide_eq_true.
Qed.

(** X12: whatever [load_chunk x z] returns, no column other than [(x, z)]
    is loaded or unloaded by it, and no block of another column changes. *)
Theorem load_chunk_other_columns (w w' : World) (x z mask : Z) (new : bool)
    (data : list Byte.byte) (r : LoadResult) :
  load_chunk w x z new mask data = Some (w', r) ->
  (forall a b, (a, b) <> (x, z) -> is_chunk_loaded w' a b = is_chunk_loaded w a b) /\
  (forall X Y Z, (Z.shiftr X 4, Z.shiftr Z 4) <> (x, z) ->
     world_get_block w' X Y Z = world_get_block w X Y Z).
Proof.
  intros H. unfold load_chunk in H.
  set (P := fun v : World =>
    (forall a b, (a, b) <> (x, z) -> is_Some (v !! (a, b)) <-> is_Some (w !! (a, b))) /\
    (forall X Y Z, (Z.shiftr X 4, Z.shiftr Z 4) <> (x, z) ->
       world_get_block v X Y Z = world_get_block w X Y Z)).
  assert (Hins : forall c, P (<[(x, z) := c]> w)).
  { intros c. split.
    - intros a b Hne. by rewrite lookup_insert_ne by congruence.
    - intros X Y Z Hne. by apply world_get_block_insert_other. }
  assert (Hins2 : forall v c, P v -> P (<[(x, z) := c]> v)).
  { intros v c (Hl & Hg). split.
    - intros a b Hne. rewrite lookup_insert_ne by congruence. by apply Hl.
    - intros X Y Z Hne. rewrite world_get_block_insert_other by done. by apply Hg. }
  assert (HP : P w').
  { destruct (if new then Some (<[(x, z) := chunk_new (x, z)]> w) else
              match w !! (x, z) with Some _ => Some w | None => None end) as [w1|] eqn:Ew1.
    2: { injection H as <- _. split; done. }
    assert (Hw1 : P w1).
    { destruct new; [injection Ew1 as <-; apply Hins|].
      destruct (w !! (x, z)); [injection Ew1 as <-; split; done|discriminate]. }
    destruct (w1 !! (x, z)) as [c|]; [|discriminate].
    destruct (load_sections x z mask (seq 0 16) c data) as [c' d'|c' e|]; [| |discriminate].
    - injection H as <- _. apply flag_neighbours_inv; [|by apply Hins2].
      intros v a b c0 (Hl & Hg). split.
      + intros a' b' Hne. rewrite flag_section_dirty_loaded. by apply Hl.
      + intros X Y Z Hne. rewrite flag_section_dirty_get. by apply Hg.
    - injection H as <- _. by apply Hins2. }
  destruct HP as (Hl & Hg). split; [|done].
  intros a b Hne. unfold is_chunk_loaded. apply bool_decide_ext. by apply Hl.
Qed.

(** ** Snapshots *)

Lemma snap_index_idx (s : Snapshot) (X Y Z : Z) :
  snapshot_index s X Y Z = idx (snap_x s) (snap_y s) (snap_z s) (snap_w s) (snap_d s) X Y Z.
Proof. reflexivity. Qed.

Lemma snap_index_lt (s : Snapshot) (X Y Z : Z) :
  snap_sized s -> snap_in s X Y Z -> snapshot_index s X Y Z < length (snap_blocks s).
Proof.
  intros (Hw & Hh & Hd & Hl & _) Hin. rewrite snap_index_idx, Hl.
  by apply idx_lt.
Qed.

Lemma snap_index_inj (s : Snapshot) (X Y Z X' Y' Z' : Z) :
  snap_sized s -> snap_in s X Y Z -> snap_in s X' Y' Z' ->
  snapshot_index s X Y Z = snapshot_index s X' Y' Z' -> (X, Y, Z) = (X', Y', Z').
Proof.
  intros (Hw & Hh & Hd & _) Hin Hin' E. rewrite !snap_index_idx in E.
  destruct (idx_inj _ _ _ _ _ _ Hw Hh Hd _ _ _ _ _ _ Hin Hin' E) as (-> & -> & ->). done.
Qed.

Lemma by_get_steven_id (b : Block) : by_steven_id (get_steven_id b) = b.
Proof. by destruct b as [| |n]. Qed.

(** X13: in a snapshot of the shape [capture_snapshot] gives, setting the
    block of a cell of its box and reading it back gives the block whose
    id is the written block's id truncated to 16 bits ([as u16]), which is
    the written block when its id is below 2^16; no other cell of the box
    changes. *)
Theorem snapshot_set_get_block (s : Snapshot) (X Y Z : Z) (b : Block) :
  snap_sized s -> snap_in s X Y Z ->
  snapshot_get_block (snapshot_set_block s X Y Z b) X Y Z =
    Some (by_steven_id (get_steven_id b mod 2 ^ 16)) /\
  (get_steven_id b < 2 ^ 16 -> snapshot_get_block (snapshot_set_block s X Y Z b) X Y Z = Some b) /\
  (forall X' Y' Z', snap_in s X' Y' Z' -> (X', Y', Z') <> (X, Y, Z) ->
     snapshot_get_block (snapshot_set_block s X Y Z b) X' Y' Z' = snapshot_get_block s X' Y' Z').
Proof.
  intros Hs Hin. pose proof (snap_index_lt s X Y Z Hs Hin) as Hlt.
  assert (Hsame : snapshot_get_block (snapshot_set_block s X Y Z b) X Y Z =
                  Some (by_steven_id (get_steven_id b mod 2 ^ 16))).
  { unfold snapshot_get_block, snapshot_set_block, snap_with.
    change (snapshot_index (mkSnapshot _ _ _ _ (snap_x s) (snap_y s) (snap_z s)
              (snap_w s) (snap_h s) (snap_d s)) X Y Z) with (snapshot_index s X Y Z).
    cbn [snap_blocks]. by rewrite list_lookup_insert_eq by done. }
  split_and!; [done| |].
  - intros Hb. rewrite Hsame, Nat.mod_small by exact Hb. by rewrite by_get_steven_id.
  - intros X' Y' Z' Hin' Hne. unfold snapshot_get_block, snapshot_set_block, snap_with.
    change (snapshot_index (mkSnapshot _ _ _ _ (snap_x s) (snap_y s) (snap_z s)
              (snap_w s) (snap_h s) (snap_d s)) X' Y' Z') with (snapshot_index s X' Y' Z').
    cbn [snap_blocks]. rewrite list_lookup_insert_ne; [done|].
    intros E. apply Hne. symmetry. exact (snap_index_inj s X Y Z X' Y' Z' Hs Hin Hin' E).
Qed.

(** X14: in a snapshot of the shape [capture_snapshot] gives, setting the
    block light (or the sky light) of a cell of its box to [l] and reading
    it back gives the low four bits of [l]; the other cells' values of that
    array, the other light array and the blocks do not change. *)
Theorem snapshot_set_get_light (s : Snapshot) (X Y Z l : Z) :
  snap_sized s -> snap_in s X Y Z ->
  snapshot_get_block_light (snapshot_set_block_light s X Y Z l) X Y Z = Some (Z.land l 15) /\
  snapshot_get_sky_light (snapshot_set_sky_light s X Y Z l) X Y Z = Some (Z.land l 15) /\
  (forall X' Y' Z', snap_in s X' Y' Z' -> (X', Y', Z') <> (X, Y, Z) ->
     snapshot_get_block_light (snapshot_set_block_light s X Y Z l) X' Y' Z' =
       snapshot_get_block_light s X' Y' Z' /\
     snapshot_get_sky_light (snapshot_set_sky_light s X Y Z l) X' Y' Z' =
       snapshot_get_sky_light s X' Y' Z') /\
  (forall X' Y' Z',
     snapshot_get_sky_light (snapshot_set_block_light s X Y Z l) X' Y' Z' =
       snapshot_get_sky_light s X' Y' Z' /\
     snapshot_get_block_light (snapshot_set_sky_light s X Y Z l) X' Y' Z' =
       snapshot_get_block_light s X' Y' Z' /\
     snapshot_get_block (snapshot_set_block_light s X Y Z l) X' Y' Z' =
       snapshot_get_block s X' Y' Z' /\
     snapshot_get_block (snapshot_set_sky_light s X Y Z l) X' Y' Z' =
       snapshot_get_block s X' Y' Z').
Proof.
  intros Hs Hin. pose proof (snap_index_lt s X Y Z Hs Hin) as Hlt.
  pose proof Hs as (_ & _ & _ & _ & Hlb & Hls & Hob & Hos).
  assert (Hsome : forall a : NibbleArray, length (nib_data a) = Nat.div2 (length (snap_blocks s) + 1) ->
            is_Some (nib_data a !! Nat.div2 (snapshot_index s X Y Z))).
  { intros a Ha. apply lookup_lt_is_Some_2. rewrite Ha. by apply div2_lt. }
  unfold snapshot_get_block_light, snapshot_get_sky_light, snapshot_get_block,
    snapshot_set_block_light, snapshot_set_sky_light, snap_with.
  assert (Hix : forall (bl sl : NibbleArray) (bs : list nat) X' Y' Z',
            snapshot_index (mkSnapshot bs bl sl (snap_biomes s) (snap_x s) (snap_y s) (snap_z s)
              (snap_w s) (snap_h s) (snap_d s)) X' Y' Z' = snapshot_index s X' Y' Z')
    by reflexivity.
  rewrite !Hix. cbn [snap_blocks snap_block_light snap_sky_light].
  split_and!.
  - by apply nibble_get_set_same; [|apply Hsome].
  - by apply nibble_get_set_same; [|apply Hsome].
  - intros X' Y' Z' Hin' Hne. rewrite !Hix. cbn [snap_block_light snap_sky_light].
    assert (Hi : snapshot_index s X' Y' Z' <> snapshot_index s X Y Z).
    { intros E. apply Hne. exact (snap_index_inj s X' Y' Z' X Y Z Hs Hin' Hin E). }
    split; by apply nibble_get_set_other.
  - intros X' Y' Z'. rewrite !Hix. done.
Qed.

(** X15: [Snapshot::make_relative] moves the origin of the box and nothing
    else: after it, the cell [(X, Y, Z)] reads what the cell
    [(X - x + x0, Y - y + y0, Z - z + z0)] read before, [(x0, y0, z0)] being
    the former origin; this holds for the block and both lights. *)
Theorem snapshot_make_relative_get (s : Snapshot) (x y z X Y Z : Z) :
  let X0 := (X - x + snap_x s)%Z in
  let Y0 := (Y - y + snap_y s)%Z in
  let Z0 := (Z - z + snap_z s)%Z in
  snapshot_get_block (snapshot_make_relative s x y z) X Y Z = snapshot_get_block s X0 Y0 Z0 /\
  snapshot_get_block_light (snapshot_make_relative s x y z) X Y Z =
    snapshot_get_block_light s X0 Y0 Z0 /\
  snapshot_get_sky_light (snapshot_make_relative s x y z) X Y Z =
    snapshot_get_sky_light s X0 Y0 Z0.
Proof.
  intros X0 Y0 Z0.
  assert (E : snapshot_index (snapshot_make_relative s x y z) X Y Z = snapshot_index s X0 Y0 Z0).
  { unfold snapshot_index, snapshot_make_relative, X0, Y0, Z0. cbn. f_equal. ring. }
  unfold snapshot_get_block, snapshot_get_block_light, snapshot_get_sky_light.
  rewrite E. done.
Qed.

(** ** Section lights and [Section::new] *)

(** The light arrays a section is created with: one nibble per cell. *)
Lemma section_new_sky_data (x y z : Z) :
  nib_data (sec_sky_light (section_new x y z)) = repeat 255%Z 2048.
Proof. vm_compute. reflexivity. Qed.

Lemma sec_light_arrays_new (x y z : Z) :
  nib_ok (sec_block_light (section_new x y z)) /\ nib_ok (sec_sky_light (section_new x y z)) /\
  length (nib_data (sec_block_light (section_new x y z))) = 2048 /\
  length (nib_data (sec_sky_light (section_new x y z))) = 2048.
Proof.
  split_and!.
  - apply nib_ok_new.
  - unfold nib_ok. rewrite section_new_sky_data. apply Forall_forall.
    intros v Hv. apply list_elem_of_In, repeat_spec in Hv. lia.
  - reflexivity.
  - by rewrite section_new_sky_data, repeat_length.
Qed.

(** X19: a section fresh from [Section::new] holds air in every cell, with
    block light 0 and sky light 15, and is neither dirty nor building. *)
Theorem section_new_defaults (x y z cx cy cz : Z) :
  in16 cx -> in16 cy -> in16 cz ->
  section_get_block (section_new x y z) cx cy cz = Some Air /\
  section_get_block_light (section_new x y z) cx cy cz = Some 0%Z /\
  section_get_sky_light (section_new x y z) cx cy cz = Some 15%Z /\
  sec_dirty (section_new x y z) = false /\ sec_building (section_new x y z) = false.
Proof.
  intros Hx Hy Hz. pose proof (sec_index_lt cx cy cz Hx Hy Hz) as Hlt.
  split_and!; [by apply section_new_get| | |done|done].
  - unfold section_get_block_light. by apply nibble_new_get.
  - unfold section_get_sky_light, nibble_get. rewrite section_new_sky_data.
    rewrite lookup_repeat_lt by (apply (div2_lt _ 4096) in Hlt; exact Hlt).
    simpl. by destruct (Nat.even (sec_index cx cy cz)).
Qed.

(** X18: on a section whose light arrays have one nibble per cell (as
    [Section::new] makes them), setting the block light (or the sky light)
    of a cell to [l] and reading it back gives the low four bits of [l];
    the other cells of that array, the other array and the blocks are left
    as they were. *)
Theorem section_set_get_light (s : Section) (x y z l : Z) :
  nib_ok (sec_block_light s) -> nib_ok (sec_sky_light s) ->
  length (nib_data (sec_block_light s)) = 2048 ->
  length (nib_data (sec_sky_light s)) = 2048 ->
  in16 x -> in16 y -> in16 z ->
  section_get_block_light (section_set_block_light s x y z l) x y z = Some (Z.land l 15) /\
  section_get_sky_light (section_set_sky_light s x y z l) x y z = Some (Z.land l 15) /\
  (forall x' y' z', in16 x' -> in16 y' -> in16 z' -> (x', y', z') <> (x, y, z) ->
     section_get_block_light (section_set_block_light s x y z l) x' y' z' =
       section_get_block_light s x' y' z' /\
     section_get_sky_light (section_set_sky_light s x y z l) x' y' z' =
       section_get_sky_light s x' y' z') /\
  (forall x' y' z',
     section_get_sky_light (section_set_block_light s x y z l) x' y' z' =
       section_get_sky_light s x' y' z' /\
     section_get_block_light (section_set_sky_light s x y z l) x' y' z' =
       section_get_block_light s x' y' z' /\
     section_get_block (section_set_block_light s x y z l) x' y' z' =
       section_get_block s x' y' z' /\
     section_get_block (section_set_sky_light s x y z l) x' y' z' =
       section_get_block s x' y' z').
Proof.
  intros Hob Hos Hlb Hls Hx Hy Hz. pose proof (sec_index_lt x y z Hx Hy Hz) as Hlt.
  assert (Hsome : forall a : NibbleArray, length (nib_data a) = 2048 ->
            is_Some (nib_data a !! Nat.div2 (sec_index x y z))).
  { intros a Ha. apply lookup_lt_is_Some_2. rewrite Ha. exact (div2_lt _ 4096 Hlt). }
  unfold section_get_block_light, section_get_sky_light, section_get_block,
    section_set_block_light, section_set_sky_light. cbn [sec_block_light sec_sky_light sec_blocks sec_block_map].
  split_and!.
  - by apply nibble_get_set_same; [|apply Hsome].
  - by apply nibble_get_set_same; [|apply Hsome].
  - intros x' y' z' Hx' Hy' Hz' Hne.
    assert (Hi : sec_index x' y' z' <> sec_index x y z).
    { intros E. apply Hne. destruct (sec_index_inj x' y' z' x y z) as (-> & -> & ->); done. }
    split; by apply nibble_get_set_other.
  - done.
Qed.

(** ** Invariants of reachable worlds *)

(** X20: in every world reachable from [World::new] through the public
    operations, the column stored under key [(cx, cz)] has position
    [(cx, cz)] and sixteen section slots, and a section in slot [i] has
    [y = i], key [(cx, i, cz)] and light arrays of 2048 bytes. *)
Theorem world_reachable_layout (w : World) (cx cz : Z) (c : Chunk) :
  world_reachable w -> w !! (cx, cz) = Some c ->
  chunk_position c = (cx, cz) /\ length (chunk_sections c) = 16 /\
  (forall i sec, chunk_sections c !! i = Some (Some sec) ->
     sec_y sec = Z.of_nat i /\ sec_key sec = (cx, Z.of_nat i, cz) /\
     length (nib_data (sec_block_light sec)) = 2048 /\
     length (nib_data (sec_sky_light sec)) = 2048).
Proof.
  intros Hr Hc. destruct (reachable_wf w Hr _ _ Hc) as (Hp & Hl & Hs).
  split_and!; [done|done|]. intros i sec Hi.
  destruct (Hs i sec Hi) as (Hinv & Hy & Hk). split_and!; [done|done| |];
    apply (inv_light _ Hinv).
Qed.

(** X21: in a reachable world, [get_dirty_chunk_sections] lists exactly
    the sections that are dirty and not building, each as
    [(cx, i, cz, (cx, i, cz))] for the section in slot [i] of column
    [(cx, cz)]. *)
Theorem get_dirty_reachable (w : World) (e : Z * Z * Z * (Z * Z * Z)) :
  world_reachable w ->
  In e (get_dirty_chunk_sections w) <->
  exists cx cz i sec, section_at w (cx, cz) i = Some sec /\
    sec_dirty sec = true /\ sec_building sec = false /\
    e = (cx, Z.of_nat i, cz, (cx, Z.of_nat i, cz)).
Proof.
  intros Hr. pose proof (reachable_wf w Hr) as Hwf. rewrite in_get_dirty. split.
  - intros ([cx cz] & c & j & sec & Hc & Hj & Hb & Hd & ->).
    destruct (Hwf _ _ Hc) as (Hp & _ & Hs). destruct (Hs j sec Hj) as (_ & Hy & Hk).
    exists cx, cz, j, sec. unfold section_at. rewrite Hc. simpl. rewrite Hj.
    split_and!; try done. rewrite Hp, Hy, Hk. done.
  - intros (cx & cz & i & sec & Hat & Hd & Hb & ->).
    destruct (section_at_wf w (cx, cz) i sec Hwf Hat) as ((_ & Hy & Hk) & _ & c & Hc & Hi).
    destruct (Hwf _ _ Hc) as (Hp & _ & _).
    exists (cx, cz), c, i, sec. split_and!; try done. rewrite Hp, Hy, Hk. done.
Qed.

(** ** [FNVHash] *)




(** ** What [capture_snapshot] copies from the world *)

Lemma fill_defaults_lens (x y z w h d : Z) (n : nat) :
  snap_lens n (snapshot_fill_defaults
    (mkSnapshot (repeat 0 n) (nibble_new n) (nibble_new n) (repeat 0%Z (Z.to_nat (w * d)))
       x y z w h d) n).
Proof.
  unfold snapshot_fill_defaults. apply fold_left_inv.
  - intros t j (Hb & Hbl & Hsl). unfold snap_lens, snap_with.
    cbn [snap_blocks snap_block_light snap_sky_light].
    by rewrite length_insert, nibble_set_length.
  - unfold snap_lens. cbn. by rewrite repeat_length, repeat_length.
Qed.

Lemma capture_cell_lens (n : nat) (section : option Section) (cx cy cz yy zz xx : Z)
    (s s' : Snapshot) :
  snap_lens n s -> capture_cell section cx cy cz yy zz s xx = Some s' -> snap_lens n s'.
Proof.
  intros (Hb & Hbl & Hsl) H. unfold capture_cell in H. destruct section as [sec|].
  - destruct (section_get_block sec xx yy zz) as [b|]; [|discriminate]. simpl in H.
    destruct (section_get_block_light sec xx yy zz) as [bl|]; [|discriminate]. simpl in H.
    destruct (section_get_sky_light sec xx yy zz) as [sl|]; [|discriminate]. simpl in H.
    injection H as <-. unfold snap_lens, snapshot_set_sky_light, snapshot_set_block_light,
      snapshot_set_block, snap_with. cbn [snap_blocks snap_block_light snap_sky_light].
    by rewrite length_insert, !nibble_set_length.
  - injection H as <-. unfold snap_lens, snapshot_set_block, snap_with.
    cbn [snap_blocks snap_block_light snap_sky_light]. by rewrite length_insert.
Qed.

(** The cell written by one [capture_cell] call with a section. *)
Lemma capture_cell_hit_some (x y z w d : Z) (n : nat) (sec : Section)
    (cx cy cz yy zz xx : Z) (s s' : Snapshot) :
  snap_good x y z w d s -> snap_lens n s ->
  idx x y z w d (xx + Z.shiftl cx 4) (yy + Z.shiftl cy 4) (zz + Z.shiftl cz 4) < n ->
  capture_cell (Some sec) cx cy cz yy zz s xx = Some s' ->
  exists bb bl sl, section_get_block sec xx yy zz = Some bb /\
    section_get_block_light sec xx yy zz = Some bl /\
    section_get_sky_light sec xx yy zz = Some sl /\
    cell_view s' (idx x y z w d (xx + Z.shiftl cx 4) (yy + Z.shiftl cy 4) (zz + Z.shiftl cz 4))
      = (Some (get_steven_id bb mod 2 ^ 16), Some (Z.land bl 15), Some (Z.land sl 15)).
Proof.
  intros (Hg & Hob & Hos) (Hb & Hbl & Hsl) Hi H. unfold capture_cell in H.
  destruct (section_get_block sec xx yy zz) as [bb|] eqn:Eb; [|discriminate]. simpl in H.
  destruct (section_get_block_light sec xx yy zz) as [bl|] eqn:Ebl; [|discriminate]. simpl in H.
  destruct (section_get_sky_light sec xx yy zz) as [sl|] eqn:Esl; [|discriminate]. simpl in H.
  injection H as <-. exists bb, bl, sl. split_and!; [done|done|done|].
  set (i := idx x y z w d _ _ _) in *.
  unfold cell_view, snapshot_set_sky_light, snapshot_set_block_light, snapshot_set_block, snap_with.
  cbn [snap_blocks snap_block_light snap_sky_light].
  assert (Hix : forall (bs : list nat) (bl' sl' : NibbleArray),
            snapshot_index (mkSnapshot bs bl' sl' (snap_biomes s) (snap_x s) (snap_y s) (snap_z s)
              (snap_w s) (snap_h s) (snap_d s)) (xx + Z.shiftl cx 4) (yy + Z.shiftl cy 4)
              (zz + Z.shiftl cz 4) = i).
  { intros bs bl' sl'. exact (snapshot_index_geom x y z w d s _ _ _ Hg). }
  rewrite !Hix, (snapshot_index_geom x y z w d s _ _ _ Hg). fold i.
  rewrite list_lookup_insert_eq by lia.
  rewrite nibble_get_set_same; [|done|apply lookup_lt_is_Some_2; rewrite Hbl; by apply div2_lt].
  rewrite nibble_get_set_same; [|done|apply lookup_lt_is_Some_2; rewrite Hsl; by apply div2_lt].
  done.
Qed.

(** The cell written by one [capture_cell] call without a section. *)
Lemma capture_cell_hit_none (x y z w d : Z) (n : nat) (cx cy cz yy zz xx : Z) (s s' : Snapshot) :
  snap_good x y z w d s -> snap_lens n s ->
  idx x y z w d (xx + Z.shiftl cx 4) (yy + Z.shiftl cy 4) (zz + Z.shiftl cz 4) < n ->
  capture_cell None cx cy cz yy zz s xx = Some s' ->
  snap_blocks s' !! idx x y z w d (xx + Z.shiftl cx 4) (yy + Z.shiftl cy 4) (zz + Z.shiftl cz 4)
    = Some (get_steven_id Air mod 2 ^ 16).
Proof.
  intros (Hg & _) (Hb & _) Hi H. injection H as <-.
  set (a := get_steven_id Air mod 2 ^ 16).
  set (i := idx x y z w d _ _ _) in *.
  unfold snapshot_set_block, snap_with. cbn [snap_blocks].
  rewrite (snapshot_index_geom x y z w d s _ _ _ Hg). fold i.
  apply list_lookup_insert_eq. lia.
Qed.

Lemma hit_view_frame (secC : option Section) (X Y Z : Z) (iC : nat) (t t' : Snapshot) :
  cell_view t' iC = cell_view t iC -> hit_view secC X Y Z iC t -> hit_view secC X Y Z iC t'.
Proof.
  intros E. destruct secC as [sec|]; unfold hit_view; cbv beta iota.
  - intros (bb & bl & sl & H1 & H2 & H3 & H4). exists bb, bl, sl. by rewrite E.
  - unfold cell_view in E. injection E as E _ _. by rewrite E.
Qed.

Lemma capture_hit_view (wd : World) (x y z w h d X Y Z : Z) (snap : Snapshot)
    (chunkC : Chunk) (secC : option Section) :
  (0 < w)%Z -> (0 < h)%Z -> (0 < d)%Z ->
  in_region x y z w h d X Y Z ->
  capture_snapshot wd x y z w h d = Some snap ->
  wd !! (Z.shiftr X 4, Z.shiftr Z 4) = Some chunkC -> in16 (Z.shiftr Y 4) ->
  chunk_sections chunkC !! Z.to_nat (Z.shiftr Y 4) = Some secC ->
  snap_good x y z w d snap /\ hit_view secC X Y Z (idx x y z w d X Y Z) snap.
Proof.
  intros Hw Hh Hd HC H Hchunk HcyC HsecC. unfold capture_snapshot in H. cbv zeta in H.
  set (n := Z.to_nat (w * h * d)) in H.
  set (iC := idx x y z w d X Y Z).
  pose proof (idx_lt x y z w h d Hw Hh Hd X Y Z HC) as Hlt. fold n iC in Hlt.
  destruct (fill_defaults_view x y z w h d n iC Hlt) as (Hg0 & _).
  pose proof (fill_defaults_lens x y z w h d n) as Hl0.
  set (s0 := snapshot_fill_defaults _ _) in H, Hg0, Hl0.
  set (P1 := fun t => snap_good x y z w d t /\ snap_lens n t).
  set (P2 := fun t => P1 t /\ hit_view secC X Y Z iC t).
  assert (HP1 : forall cx cy cz section yy zz xx s s',
    valid_call wd x y z w h d cx cy cz section yy zz xx -> P1 s ->
    capture_cell section cx cy cz yy zz s xx = Some s' -> P1 s').
  { intros cx cy cz section yy zz xx s s' _ (Hs & Hl) Hcell. split.
    - exact (proj1 (capture_cell_frame x y z w d section cx cy cz yy zz xx s s' Hs Hcell)).
    - exact (capture_cell_lens n section cx cy cz yy zz xx s s' Hl Hcell). }
  assert (Hox : (X - Z.shiftl (Z.shiftr X 4) 4 + Z.shiftl (Z.shiftr X 4) 4 = X /\
                 Y - Z.shiftl (Z.shiftr Y 4) 4 + Z.shiftl (Z.shiftr Y 4) 4 = Y /\
                 Z - Z.shiftl (Z.shiftr Z 4) 4 + Z.shiftl (Z.shiftr Z 4) 4 = Z)%Z) by lia.
  assert (Hhit : forall s s', P1 s ->
    capture_cell secC (Z.shiftr X 4) (Z.shiftr Y 4) (Z.shiftr Z 4)
      (Y - Z.shiftl (Z.shiftr Y 4) 4)%Z (Z - Z.shiftl (Z.shiftr Z 4) 4)%Z s
      (X - Z.shiftl (Z.shiftr X 4) 4)%Z = Some s' -> P2 s').
  { intros s s' Hs Hcell. split; [|].
    { destruct Hs as (Hs & Hl). split.
      - exact (proj1 (capture_cell_frame x y z w d _ _ _ _ _ _ _ s s' Hs Hcell)).
      - exact (capture_cell_lens n _ _ _ _ _ _ _ s s' Hl Hcell). }
    destruct Hs as (Hs & Hl). destruct Hox as (HoX & HoY & HoZ).
    destruct secC as [sec|]; unfold hit_view; cbv beta iota.
    - pose proof (capture_cell_hit_some x y z w d n sec (Z.shiftr X 4) (Z.shiftr Y 4) (Z.shiftr Z 4) (Y - Z.shiftl (Z.shiftr Y 4) 4)%Z
        (Z - Z.shiftl (Z.shiftr Z 4) 4)%Z (X - Z.shiftl (Z.shiftr X 4) 4)%Z s s' Hs Hl) as Hv.
      rewrite HoX, HoY, HoZ in Hv. exact (Hv Hlt Hcell).
    - pose proof (capture_cell_hit_none x y z w d n (Z.shiftr X 4) (Z.shiftr Y 4) (Z.shiftr Z 4) (Y - Z.shiftl (Z.shiftr Y 4) 4)%Z
        (Z - Z.shiftl (Z.shiftr Z 4) 4)%Z (X - Z.shiftl (Z.shiftr X 4) 4)%Z s s' Hs Hl) as Hv.
      rewrite HoX, HoY, HoZ in Hv. exact (Hv Hlt Hcell). }
  assert (HP2 : forall cx cy cz section yy zz xx s s',
    valid_call wd x y z w h d cx cy cz section yy zz xx -> P2 s ->
    capture_cell section cx cy cz yy zz s xx = Some s' -> P2 s').
  { intros cx cy cz section yy zz xx s s' Hcall (Hs1 & Hv) Hcell.
    destruct (decide (idx x y z w d (xx + Z.shiftl cx 4) (yy + Z.shiftl cy 4)
                        (zz + Z.shiftl cz 4) = iC)) as [Hi|Hi].
    - destruct (call_hits wd x y z w h d cx cy cz section yy zz xx X Y Z Hw Hh Hd Hcall HC Hi)
        as ((HxX & HyY & HzZ) & -> & -> & ->).
      pose proof Hcall as ((chunk & Hc & Hsec) & _).
      rewrite Hchunk in Hc. injection Hc as <-. rewrite HsecC in Hsec. injection Hsec as <-.
      assert (Exx : xx = (X - Z.shiftl (Z.shiftr X 4) 4)%Z) by lia.
      assert (Eyy : yy = (Y - Z.shiftl (Z.shiftr Y 4) 4)%Z) by lia.
      assert (Ezz : zz = (Z - Z.shiftl (Z.shiftr Z 4) 4)%Z) by lia.
      rewrite Exx, Eyy, Ezz in Hcell. exact (Hhit s s' Hs1 Hcell).
    - split; [exact (HP1 _ _ _ _ _ _ _ _ _ Hcall Hs1 Hcell)|].
      destruct Hs1 as (Hs & _).
      destruct (capture_cell_frame x y z w d section cx cy cz yy zz xx s s' Hs Hcell)
        as (_ & Hkeep).
      apply (hit_view_frame secC X Y Z iC s s'); [|done].
      apply Hkeep. congruence. }
  assert (Hfin : P2 snap).
  { exact (capture_loops_visit wd x y z w h d P1 P2 HP1 HP2 X Y Z chunkC secC
             HC Hchunk HcyC HsecC Hhit s0 snap (conj Hg0 Hl0) H). }
  destruct Hfin as ((Hg & _) & Hv). done.
Qed.

(** The cell of a column that is not loaded, or of a slot outside [0, 16),
    keeps the default the capture starts from. *)
Lemma capture_untouched (wd : World) (x y z w h d X Y Z : Z) (snap : Snapshot) :
  (0 < w)%Z -> (0 < h)%Z -> (0 < d)%Z ->
  in_region x y z w h d X Y Z ->
  capture_snapshot wd x y z w h d = Some snap ->
  (forall chunk, wd !! (Z.shiftr X 4, Z.shiftr Z 4) = Some chunk -> ~ in16 (Z.shiftr Y 4)) ->
  snap_good x y z w d snap /\
  cell_view snap (idx x y z w d X Y Z) = cell_view
    (snapshot_fill_defaults
      (mkSnapshot (repeat 0 (Z.to_nat (w * h * d))) (nibble_new (Z.to_nat (w * h * d)))
         (nibble_new (Z.to_nat (w * h * d))) (repeat 0%Z (Z.to_nat (w * d))) x y z w h d)
      (Z.to_nat (w * h * d))) (idx x y z w d X Y Z).
Proof.
  intros Hw Hh Hd HC H Hout. unfold capture_snapshot in H. cbv zeta in H.
  set (iC := idx x y z w d X Y Z).
  pose proof (idx_lt x y z w h d Hw Hh Hd X Y Z HC) as Hlt.
  destruct (fill_defaults_view x y z w h d (Z.to_nat (w * h * d)) iC Hlt) as (Hg0 & _).
  set (s0 := snapshot_fill_defaults _ _) in H, Hg0 |- *.
  set (P := fun t => snap_good x y z w d t /\ cell_view t iC = cell_view s0 iC).
  refine (capture_loops_pres wd x y z w h d P _ s0 snap (conj Hg0 eq_refl) H).
  intros cx cy cz section yy zz xx s s' Hcall (Hs & Hvs) Hcell.
  destruct (capture_cell_frame x y z w d section cx cy cz yy zz xx s s' Hs Hcell)
    as (Hs' & Hkeep).
  split; [done|]. rewrite Hkeep; [done|]. intros Hi. symmetry in Hi.
  destruct (call_hits wd x y z w h d cx cy cz section yy zz xx X Y Z Hw Hh Hd Hcall HC Hi)
    as (_ & -> & -> & ->).
  destruct Hcall as ((chunk & Hc & _) & Hcy & _). exact (Hout chunk Hc Hcy).
Qed.

Lemma cell_view_blocks (t : Snapshot) (i : nat) (v : option nat) (bl sl : option Z) :
  cell_view t i = (v, bl, sl) -> snap_blocks t !! i = v.
Proof. unfold cell_view. intros E. by injection E. Qed.

Lemma cell_view_lights (t : Snapshot) (i : nat) (v : option nat) (bl sl : option Z) :
  cell_view t i = (v, bl, sl) ->
  nibble_get (snap_block_light t) i = bl /\ nibble_get (snap_sky_light t) i = sl.
Proof. unfold cell_view. intros E. by injection E. Qed.

Lemma sub_shiftl_shiftr (X : Z) : (X - Z.shiftl (Z.shiftr X 4) 4)%Z = Z.land X 15.
Proof. pose proof (cell_split X). lia. Qed.

Lemma by_get_steven_id_small (b : Block) :
  get_steven_id b < 2 ^ 16 -> by_steven_id (get_steven_id b mod 2 ^ 16) = b.
Proof. intros Hb. rewrite Nat.mod_small by exact Hb. by destruct b as [| |k]. Qed.

(** X16: a snapshot captured from the world agrees with the world.  For
    every cell of the box, if [World::get_block] reads a block whose id
    fits in 16 bits, the snapshot holds that block at the cell; and where
    the cell's slot holds a section, the snapshot's block light and sky
    light at the cell are the low four bits of the section's. *)
Theorem capture_snapshot_agrees (wd : World) (x y z w h d X Y Z : Z) (snap : Snapshot) :
  (0 < w)%Z -> (0 < h)%Z -> (0 < d)%Z ->
  in_region x y z w h d X Y Z ->
  capture_snapshot wd x y z w h d = Some snap ->
  (forall b, world_get_block wd X Y Z = Some b -> get_steven_id b < 2 ^ 16 ->
     snapshot_get_block snap X Y Z = Some b) /\
  (forall chunk sec, wd !! (Z.shiftr X 4, Z.shiftr Z 4) = Some chunk -> in16 (Z.shiftr Y 4) ->
     chunk_sections chunk !! Z.to_nat (Z.shiftr Y 4) = Some (Some sec) ->
     snapshot_get_block_light snap X Y Z =
       (fun l => Z.land l 15) <$> section_get_block_light sec (Z.land X 15) (Z.land Y 15) (Z.land Z 15) /\
     snapshot_get_sky_light snap X Y Z =
       (fun l => Z.land l 15) <$> section_get_sky_light sec (Z.land X 15) (Z.land Y 15) (Z.land Z 15)).
Proof.
  intros Hw Hh Hd HC H.
  set (iC := idx x y z w d X Y Z).
  assert (Hread : forall t, snap_good x y z w d t ->
            snapshot_get_block t X Y Z = by_steven_id <$> snap_blocks t !! iC /\
            snapshot_get_block_light t X Y Z = nibble_get (snap_block_light t) iC /\
            snapshot_get_sky_light t X Y Z = nibble_get (snap_sky_light t) iC).
  { intros t (Hg & _). unfold snapshot_get_block, snapshot_get_block_light, snapshot_get_sky_light.
    rewrite (snapshot_index_geom x y z w d t X Y Z Hg). fold iC.
    split_and!; [|done|done]. by destruct (snap_blocks t !! iC). }
  rewrite <- !sub_shiftl_shiftr.
  split.
  - intros b Hb Hsmall. unfold world_get_block in Hb.
    destruct (wd !! (Z.shiftr X 4, Z.shiftr Z 4)) as [chunkC|] eqn:Hc.
    + unfold chunk_get_block in Hb.
      destruct (slot_out_of_range (Z.shiftr Y 4)) eqn:Hr.
      * injection Hb as <-.
        assert (Hout : forall chunk, wd !! (Z.shiftr X 4, Z.shiftr Z 4) = Some chunk ->
                  ~ in16 (Z.shiftr Y 4)).
        { intros chunk _ Hin. apply slot_out_of_range_false in Hin. congruence. }
        destruct (capture_untouched wd x y z w h d X Y Z snap Hw Hh Hd HC H Hout) as (Hg & Hv).
        pose proof (idx_lt x y z w h d Hw Hh Hd X Y Z HC) as Hlt.
        pose proof (cell_view_blocks _ _ _ _ _
          (eq_trans Hv (proj2 (fill_defaults_view x y z w h d _ _ Hlt)))) as Hb'.
        rewrite (proj1 (Hread snap Hg)). fold iC in Hb'. rewrite Hb'. vm_compute. reflexivity.
      * apply slot_out_of_range_false in Hr.
        destruct (chunk_sections chunkC !! Z.to_nat (Z.shiftr Y 4)) as [secC|] eqn:Hs;
          [|discriminate].
        destruct (capture_hit_view wd x y z w h d X Y Z snap chunkC secC Hw Hh Hd HC H Hc Hr Hs)
          as (Hg & Hv).
        rewrite (proj1 (Hread snap Hg)). fold iC in Hv.
        destruct secC as [sec|]; unfold hit_view in Hv; cbv beta iota in Hv.
        -- destruct Hv as (bb & bl & sl & Hbb & _ & _ & Hv).
           rewrite !sub_shiftl_shiftr in Hbb. rewrite Hb in Hbb. injection Hbb as <-.
           apply cell_view_blocks in Hv. rewrite Hv.
           change (Some (by_steven_id (get_steven_id b mod 2 ^ 16)) = Some b).
           by rewrite by_get_steven_id_small.
        -- injection Hb as <-. rewrite Hv. vm_compute. reflexivity.
    + injection Hb as <-.
      assert (Hout : forall chunk, wd !! (Z.shiftr X 4, Z.shiftr Z 4) = Some chunk ->
                ~ in16 (Z.shiftr Y 4)) by congruence.
      destruct (capture_untouched wd x y z w h d X Y Z snap Hw Hh Hd HC H Hout) as (Hg & Hv).
      pose proof (idx_lt x y z w h d Hw Hh Hd X Y Z HC) as Hlt.
      pose proof (cell_view_blocks _ _ _ _ _
        (eq_trans Hv (proj2 (fill_defaults_view x y z w h d _ _ Hlt)))) as Hb'.
      rewrite (proj1 (Hread snap Hg)). fold iC in Hb'. rewrite Hb'. vm_compute. reflexivity.
  - intros chunk sec Hc Hcy Hs.
    destruct (capture_hit_view wd x y z w h d X Y Z snap chunk (Some sec) Hw Hh Hd HC H Hc Hcy Hs)
      as (Hg & bb & bl & sl & _ & Hbl & Hsl & Hv).
    destruct (Hread snap Hg) as (_ & -> & ->). fold iC in Hv.
    destruct (cell_view_lights _ _ _ _ _ Hv) as (Hv1 & Hv2). rewrite Hv1, Hv2, Hbl, Hsl. done.
Qed.

(** ** Runs of the properties above on concrete worlds *)

Lemma world_set_block_frame_witness :
  exists w', world_set_block world_new 100 0 0 Air = Some w' /\
    world_get_block w' 0 0 0 = world_get_block world_new 0 0 0.
Proof.
  exists (<[(Z.shiftr 100 4, Z.shiftr 0 4) := chunk_new (Z.shiftr 100 4, Z.shiftr 0 4)]> world_new).
  split; [reflexivity|].
  apply (world_set_block_frame world_new _ 100 0 0 0 0 0 Air).
  - apply reachable_wf. constructor.
  - right. cbv. intros E. inversion E.
  - reflexivity.
  - intros E. inversion E.
Defined.

Lemma world_set_block_unloaded_column_witness :
  exists w', world_set_block world_new 1 2 3 Air = Some w' /\
    is_chunk_loaded w' (Z.shiftr 1 4) (Z.shiftr 3 4) = true /\
    forall X Y Z, (Z.shiftr X 4, Z.shiftr Z 4) = (Z.shiftr 1 4, Z.shiftr 3 4) ->
      (X, Y, Z) <> (1%Z, 2%Z, 3%Z) -> in16 (Z.shiftr Y 4) ->
      world_get_block world_new X Y Z = Some Missing /\ world_get_block w' X Y Z = Some Air.
Proof.
  exists column_world.
  split; [reflexivity|].
  apply (world_set_block_unloaded_column world_new _ 1 2 3 Air).
  - reflexivity.
  - reflexivity.
Defined.

Lemma world_set_block_out_of_range_witness :
  world_set_block world_new 0 300 0 Air =
  Some (if is_chunk_loaded world_new (Z.shiftr 0 4) (Z.shiftr 0 4) then world_new
        else <[(Z.shiftr 0 4, Z.shiftr 0 4) := chunk_new (Z.shiftr 0 4, Z.shiftr 0 4)]> world_new).
Proof.
  apply (world_set_block_out_of_range world_new 0 300 0 Air).
  unfold in16. change (Z.shiftr 300 4) with 18%Z. lia.
Defined.

Lemma world_set_block_air_empty_slot_witness :
  world_set_block column_world 0 40 0 Air = Some column_world.
Proof.
  apply (world_set_block_air_empty_slot column_world 0 40 0 (chunk_new (0, 0)%Z)).
  - reflexivity.
  - unfold in16. change (Z.shiftr 40 4) with 2%Z. lia.
  - reflexivity.
Defined.

Lemma reset_building_flag_spec_witness :
  exists w', reset_building_flag section_world ((0, 0)%Z.1, Z.of_nat 0, (0, 0)%Z.2) = Some w' /\
    section_at w' (0, 0)%Z 0 = Some (section_set_flags bare_section (sec_dirty bare_section) false) /\
    forall cpos' i', (cpos', i') <> ((0, 0)%Z, 0) ->
      section_at w' cpos' i' = section_at section_world cpos' i'.
Proof.
  apply (reset_building_flag_spec section_world (0, 0)%Z 0 bare_section).
  - reflexivity.
  - lia.
Defined.

Lemma load_chunk_absent_not_new_witness :
  load_chunk world_new 3 4 false 1 [] = Some (world_new, LoadOk).
Proof.
  apply (load_chunk_absent_not_new world_new 3 4 1 []). reflexivity.
Defined.

Lemma load_chunk_ok_slots_witness :
  exists w', load_chunk world_new 0 0 true 0 [] = Some (w', LoadOk) /\
    is_chunk_loaded w' 0 0 = true /\
    (forall j, j < 16 -> mask_bit 0 j = true ->
       exists s, section_at w' (0, 0)%Z j = Some s /\ sec_dirty s = true) /\
    (true = true -> forall j, j < 16 -> mask_bit 0 j = false -> section_at w' (0, 0)%Z j = None).
Proof.
  exists (match load_chunk world_new 0 0 true 0 [] with Some (w, _) => w | None => ∅ end).
  split; [reflexivity|].
  apply (load_chunk_ok_slots world_new _ 0 0 0 true []).
  - reflexivity.
  - right. reflexivity.
Defined.

Lemma load_chunk_other_columns_witness :
  exists w' r, load_chunk world_new 0 0 true 0 [] = Some (w', r) /\
    (forall a b, (a, b) <> (0%Z, 0%Z) -> is_chunk_loaded w' a b = is_chunk_loaded world_new a b) /\
    (forall X Y Z, (Z.shiftr X 4, Z.shiftr Z 4) <> (0%Z, 0%Z) ->
       world_get_block w' X Y Z = world_get_block world_new X Y Z).
Proof.
  exists (match load_chunk world_new 0 0 true 0 [] with Some (w, _) => w | None => ∅ end),
    LoadOk.
  split; [reflexivity|].
  apply (load_chunk_other_columns world_new _ 0 0 0 true [] LoadOk).
  reflexivity.
Defined.

Lemma snapshot_set_get_block_witness :
  snapshot_get_block (snapshot_set_block small_snapshot 1 1 0 (Other 3)) 1 1 0 =
    Some (by_steven_id (get_steven_id (Other 3) mod 2 ^ 16)) /\
  (get_steven_id (Other 3) < 2 ^ 16 ->
     snapshot_get_block (snapshot_set_block small_snapshot 1 1 0 (Other 3)) 1 1 0 = Some (Other 3)) /\
  (forall X' Y' Z', snap_in small_snapshot X' Y' Z' -> (X', Y', Z') <> (1%Z, 1%Z, 0%Z) ->
     snapshot_get_block (snapshot_set_block small_snapshot 1 1 0 (Other 3)) X' Y' Z' =
       snapshot_get_block small_snapshot X' Y' Z').
Proof.
  apply (snapshot_set_get_block small_snapshot 1 1 0 (Other 3)).
  - unfold snap_sized. split_and!; try reflexivity; apply nib_ok_new.
  - unfold snap_in, in_region. simpl. lia.
Defined.

Lemma snapshot_set_get_light_witness :
  snapshot_get_block_light (snapshot_set_block_light small_snapshot 1 1 0 7) 1 1 0 = Some (Z.land 7 15) /\
  snapshot_get_sky_light (snapshot_set_sky_light small_snapshot 1 1 0 7) 1 1 0 = Some (Z.land 7 15) /\
  (forall X' Y' Z', snap_in small_snapshot X' Y' Z' -> (X', Y', Z') <> (1%Z, 1%Z, 0%Z) ->
     snapshot_get_block_light (snapshot_set_block_light small_snapshot 1 1 0 7) X' Y' Z' =
       snapshot_get_block_light small_snapshot X' Y' Z' /\
     snapshot_get_sky_light (snapshot_set_sky_light small_snapshot 1 1 0 7) X' Y' Z' =
       snapshot_get_sky_light small_snapshot X' Y' Z') /\
  (forall X' Y' Z',
     snapshot_get_sky_light (snapshot_set_block_light small_snapshot 1 1 0 7) X' Y' Z' =
       snapshot_get_sky_light small_snapshot X' Y' Z' /\
     snapshot_get_block_light (snapshot_set_sky_light small_snapshot 1 1 0 7) X' Y' Z' =
       snapshot_get_block_light small_snapshot X' Y' Z' /\
     snapshot_get_block (snapshot_set_block_light small_snapshot 1 1 0 7) X' Y' Z' =
       snapshot_get_block small_snapshot X' Y' Z' /\
     snapshot_get_block (snapshot_set_sky_light small_snapshot 1 1 0 7) X' Y' Z' =
       snapshot_get_block small_snapshot X' Y' Z').
Proof.
  apply (snapshot_set_get_light small_snapshot 1 1 0 7).
  - unfold snap_sized. split_and!; try reflexivity; apply nib_ok_new.
  - unfold snap_in, in_region. simpl. lia.
Defined.

Lemma capture_snapshot_agrees_witness :
  exists snap, capture_snapshot column_world 0 0 0 2 2 2 = Some snap /\
  (forall b, world_get_block column_world 0 0 0 = Some b -> get_steven_id b < 2 ^ 16 ->
     snapshot_get_block snap 0 0 0 = Some b) /\
  (forall chunk sec, column_world !! (Z.shiftr 0 4, Z.shiftr 0 4) = Some chunk ->
     in16 (Z.shiftr 0 4) ->
     chunk_sections chunk !! Z.to_nat (Z.shiftr 0 4) = Some (Some sec) ->
     snapshot_get_block_light snap 0 0 0 =
       (fun l => Z.land l 15) <$> section_get_block_light sec (Z.land 0 15) (Z.land 0 15) (Z.land 0 15) /\
     snapshot_get_sky_light snap 0 0 0 =
       (fun l => Z.land l 15) <$> section_get_sky_light sec (Z.land 0 15) (Z.land 0 15) (Z.land 0 15)).
Proof.
  exists (match capture_snapshot column_world 0 0 0 2 2 2 with Some s => s | None => small_snapshot end).
  split; [reflexivity|].
  apply (capture_snapshot_agrees column_world 0 0 0 2 2 2 0 0 0).
  - lia.
  - lia.
  - lia.
  - unfold in_region. lia.
  - reflexivity.
Defined.

Lemma section_new_defaults_witness :
  section_get_block (section_new 5 6 7) 1 2 3 = Some Air /\
  section_get_block_light (section_new 5 6 7) 1 2 3 = Some 0%Z /\
  section_get_sky_light (section_new 5 6 7) 1 2 3 = Some 15%Z /\
  sec_dirty (section_new 5 6 7) = false /\ sec_building (section_new 5 6 7) = false.
Proof. apply (section_new_defaults 5 6 7 1 2 3); unfold in16; lia. Defined.

Lemma section_set_get_light_witness :
  section_get_block_light (section_set_block_light bare_section 1 2 3 9) 1 2 3 = Some (Z.land 9 15) /\
  section_get_sky_light (section_set_sky_light bare_section 1 2 3 9) 1 2 3 = Some (Z.land 9 15) /\
  (forall x' y' z', in16 x' -> in16 y' -> in16 z' -> (x', y', z') <> (1%Z, 2%Z, 3%Z) ->
     section_get_block_light (section_set_block_light bare_section 1 2 3 9) x' y' z' =
       section_get_block_light bare_section x' y' z' /\
     section_get_sky_light (section_set_sky_light bare_section 1 2 3 9) x' y' z' =
       section_get_sky_light bare_section x' y' z') /\
  (forall x' y' z',
     section_get_sky_light (section_set_block_light bare_section 1 2 3 9) x' y' z' =
       section_get_sky_light bare_section x' y' z' /\
     section_get_block_light (section_set_sky_light bare_section 1 2 3 9) x' y' z' =
       section_get_block_light bare_section x' y' z' /\
     section_get_block (section_set_block_light bare_section 1 2 3 9) x' y' z' =
       section_get_block bare_section x' y' z' /\
     section_get_block (section_set_sky_light bare_section 1 2 3 9) x' y' z' =
       section_get_block bare_section x' y' z').
Proof.
  apply (section_set_get_light bare_section 1 2 3 9).
  - apply nib_ok_new.
  - apply nib_ok_new.
  - reflexivity.
  - reflexivity.
  - unfold in16. lia.
  - unfold in16. lia.
  - unfold in16. lia.
Defined.

Lemma world_reachable_layout_witness :
  column_world !! (0, 0)%Z = Some (chunk_new (0, 0)%Z) /\
  chunk_position (chunk_new (0, 0)%Z) = (0%Z, 0%Z) /\ length (chunk_sections (chunk_new (0, 0)%Z)) = 16 /\
  (forall i sec, chunk_sections (chunk_new (0, 0)%Z) !! i = Some (Some sec) ->
     sec_y sec = Z.of_nat i /\ sec_key sec = (0%Z, Z.of_nat i, 0%Z) /\
     length (nib_data (sec_block_light sec)) = 2048 /\
     length (nib_data (sec_sky_light sec)) = 2048).
Proof.
  split; [reflexivity|].
  apply (world_reachable_layout column_world 0 0).
  - apply (wr_set_block world_new 0 0 0 Air); [constructor|reflexivity].
  - reflexivity.
Defined.

Lemma get_dirty_reachable_witness :
  In (0%Z, 0%Z, 0%Z, (0%Z, 0%Z, 0%Z)) (get_dirty_chunk_sections column_world) <->
  exists cx cz i sec, section_at column_world (cx, cz) i = Some sec /\
    sec_dirty sec = true /\ sec_building sec = false /\
    (0%Z, 0%Z, 0%Z, (0%Z, 0%Z, 0%Z)) = (cx, Z.of_nat i, cz, (cx, Z.of_nat i, cz)).
Proof.
  apply (get_dirty_reachable column_world).
  apply (wr_set_block world_new 0 0 0 Air); [constructor|reflexivity].
Defined.
